(** * The projector feed: control plane of [secondary/projector/feed.go]

    A shallow embedding of the feed actor (the [genServer] loop, its
    commands and the stream-feedback reconciler) together with the
    properties of its book-keeping of outstanding, active and rolled-back
    partitions.

    Go values are embedded as follows.
    - [uint16], [uint32] and [uint64] are [Z]; conversions that truncate are
      written out with [Z.land].
    - A [*protobuf.TsVbuuid] is an [option TsVbuuid]; [None] is the nil
      pointer.  The feed never shares one timestamp object between two of
      its maps, so timestamps are embedded as values.
    - A Go map is a [gmap]; [m[k]] with the two-valued form is [map_index].
    - An [error] is an [option Error]; [None] is nil.
    - The buffered channel [backch] is the list of its queued messages,
      oldest first.
    - Calls to the collaborators of the feed (bucket feeder, data-path
      worker, endpoints, timers) are recorded, in order, in the [trace]
      field that the embedding adds to the feed.
    - What the collaborators answer is read from oracles ([BucketOracle],
      [Network], [Env]) that are arguments of the embedded functions. *)

From Stdlib Require Import ZArith.
From stdpp Require Import base option list strings gmap pretty.

Set Warnings "-register-all".

(** ** Status codes and errors *)

(** Modelled from the spec: the status type [mcd.Status] is declared in
    the transport package, outside [feed.go].  The feed distinguishes SUCCESS,
    ROLLBACK and NOT_MY_VBUCKET; every other status is treated alike. *)
Inductive Status := SUCCESS | ROLLBACK | NOT_MY_VBUCKET | OTHER_STATUS.

Global Instance Status_eq_dec : EqDecision Status.
Proof. solve_decision. Defined.

(** Modelled from the spec: the error values of the projector client
    package (section 7 of the specification lists the kinds).  [ErrorOther]
    stands for an error produced by a collaborator (transport, UUID
    generator). *)
Inductive Error :=
| ErrorInconsistentFeed
| ErrorInvalidVbucketBranch
| ErrorInvalidBucket
| ErrorInvalidVbucket
| ErrorFeeder
| ErrorNotMyVbucket
| ErrorStreamRequest
| ErrorStreamEnd
| ErrorResponseTimeout
| ErrorClusterInfo
| ErrorDCPConnection
| ErrorDCPPool
| ErrorDCPBucket
| ErrorOther (what : string).

Global Instance Error_eq_dec : EqDecision Error.
Proof. solve_decision. Defined.

(** ** Timestamps *)

Module Ts.

(** Modelled from the spec: [protobuf.TsVbuuid] and its methods are
    declared in the protobuf package, outside [feed.go].  The
    specification describes it as an ordered association from
    partition number to (sequence-number, branch-id, start, end) with
    union, filter-by-partition-subset, membership, emptiness and
    enumeration of partition numbers, copied on each union and filter.
    The feed builds timestamps with [Append], so the association is kept
    as the list of its entries in insertion order. *)
Record Entry := {
  e_vbno : Z;
  e_seqno : Z;
  e_vbuuid : Z;
  e_start : Z;
  e_end : Z
}.

Global Instance Entry_eq_dec : EqDecision Entry.
Proof. solve_decision. Defined.

Record TsVbuuid := {
  Pool : string;
  Bucket : string;
  Entries : list Entry
}.

Global Instance TsVbuuid_eq_dec : EqDecision TsVbuuid.
Proof. solve_decision. Defined.

Definition with_Entries (ts : TsVbuuid) (es : list Entry) : TsVbuuid :=
  {| Pool := Pool ts; Bucket := Bucket ts; Entries := es |}.

(** Modelled from the spec: [NewTsVbuuid(pool, bucket, n)], an empty
    timestamp; [n] is only a capacity. *)
Definition NewTsVbuuid (pool bucket : string) (n : nat) : TsVbuuid :=
  {| Pool := pool; Bucket := bucket; Entries := [] |}.

(** Modelled from the spec: the getters are nil-safe, as the getters that
    the protobuf compiler generates are. *)
Definition GetPool (ts : option TsVbuuid) : string := from_option Pool "" ts.
Definition GetBucket (ts : option TsVbuuid) : string := from_option Bucket "" ts.

(** Modelled from the spec: enumeration of partition numbers. *)
Definition GetVbnos (ts : option TsVbuuid) : list Z :=
  from_option (λ t, e_vbno <$> Entries t) [] ts.

Definition Len (ts : option TsVbuuid) : nat := length (GetVbnos ts).

(** Modelled from the spec: emptiness. *)
Definition IsEmpty (ts : option TsVbuuid) : bool := bool_decide (Len ts = 0).

(** Modelled from the spec: membership. *)
Definition Contains (ts : option TsVbuuid) (vbno : Z) : bool :=
  bool_decide (vbno ∈ GetVbnos ts).

(** Modelled from the spec: [Get(vbno)] locates the entry of a partition;
    the error result is [None]. *)
Definition Get (ts : option TsVbuuid) (vbno : Z) : option (Z * Z * Z * Z) :=
  t ← ts;
  e ← head (filter (λ e, e_vbno e = vbno) (Entries t));
  Some (e_seqno e, e_vbuuid e, e_start e, e_end e).

(** Modelled from the spec: [Append] adds one entry at the end.  The Go
    method updates its receiver in place; the caller stores the result
    back where the pointer lives. *)
Definition Append (ts : TsVbuuid) (vbno seqno vbuuid start end_ : Z) : TsVbuuid :=
  with_Entries ts
    (Entries ts ++ [{| e_vbno := vbno; e_seqno := seqno; e_vbuuid := vbuuid;
                       e_start := start; e_end := end_ |}]).

(** Modelled from the spec: [SelectByVbuckets] keeps the listed
    partitions ([ts ∩ vbuckets]). *)
Definition SelectByVbuckets (ts : option TsVbuuid) (vbuckets : list Z) : option TsVbuuid :=
  (λ t, with_Entries t (filter (λ e, e_vbno e ∈ vbuckets) (Entries t))) <$> ts.

(** Modelled from the spec: [FilterByVbuckets] drops the listed
    partitions ([ts \ vbuckets]) and returns a new value. *)
Definition FilterByVbuckets (ts : option TsVbuuid) (vbuckets : list Z) : option TsVbuuid :=
  (λ t, with_Entries t (filter (λ e, e_vbno e ∉ vbuckets) (Entries t))) <$> ts.

(** Modelled from the spec: [Union]; a nil side yields the other side
    (the first Start of a bucket unions with the absent map entries), and
    a partition of both sides is taken once, from the receiver. *)
Definition Union (ts other : option TsVbuuid) : option TsVbuuid :=
  match ts, other with
  | None, _ => other
  | Some _, None => ts
  | Some t, Some o =>
      Some (with_Entries t
              (Entries t ++ filter (λ e, e_vbno e ∉ GetVbnos ts) (Entries o)))
  end.

End Ts.
Export Ts.

(** Modelled from the spec: [common.Vbno32to16] is declared in the common
    package, outside [feed.go]; a partition number is a 16-bit number, and the conversion of a
    [uint32] to [uint16] keeps the low 16 bits. *)
Definition Vbno32to16 (vbnos : list Z) : list Z := (λ v, Z.land v 65535) <$> vbnos.

(** Modelled from the spec: [common.RemoveUint16] is declared in the
    common package, outside [feed.go]; the reconciler removes the
    partition from its remaining set. *)
Definition RemoveUint16 (item : Z) (xs : list Z) : list Z :=
  filter (λ x, x ≠ item) xs.

(** Go's [v, ok := m[k]]. *)
Definition map_index {V} (zero : V) (m : gmap string V) (k : string) : V * bool :=
  match m !! k with
  | Some v => (v, true)
  | None => (zero, false)
  end.

(** ** Control messages of the back channel *)

Record controlStreamRequest := {
  sr_bucket : string;
  sr_opaque : Z;
  sr_status : Status;
  sr_vbno : Z;
  sr_vbuuid : Z;
  sr_seqno : Z
}.

Record controlStreamEnd := {
  se_bucket : string;
  se_opaque : Z;
  se_status : Status;
  se_vbno : Z
}.

Record controlFinKVData := {
  fin_bucket : string
}.

(** The dynamic type of an [interface{}] that travels on the back channel:
    a pointer to one of the three control messages, or a [[]interface{}]. *)
Inductive iface :=
| IStreamRequest (v : controlStreamRequest)
| IStreamEnd (v : controlStreamEnd)
| IFinKVData (v : controlFinKVData)
| ISlice (elems : list iface).

(** A message of the back channel is a [[]interface{}] that is indexed at
    [0] by every consumer; all producers send slices of length one, and
    the embedding keeps to non-empty slices. *)
Record message := {
  msg0 : iface;
  msg_rest : list iface
}.

Definition to_iface (msg : message) : iface := ISlice (msg0 msg :: msg_rest msg).

(** [[]interface{}{x}] *)
Definition singleton_msg (x : iface) : message := {| msg0 := x; msg_rest := [] |}.

(** ** Collaborators *)

Record BucketFeeder := { feeder_name : string }.

Record KVData := { kv_bucket : string; kv_feeder : BucketFeeder }.

Record Evaluator := { ev_bucket : string }.

Record Router := { rt_endpoints : list string }.

Record Engine := { eng_uuid : Z; eng_evaluator : Evaluator; eng_router : option Router }.

Record RouterEndpoint := { ep_id : Z }.

(** Calls made to the collaborators, in the order the feed makes them. *)
Inductive Event :=
| EvOpenBucketFeed (name bucket : string)
| EvStartVbStreams (feeder : BucketFeeder) (opaque : Z) (ts : option TsVbuuid)
| EvEndVbStreams (feeder : BucketFeeder) (opaque : Z) (ts : option TsVbuuid)
| EvCloseFeed (feeder : BucketFeeder)
| EvNewKVData (bucket : string) (ts : option TsVbuuid)
| EvUpdateTs (bucket : string) (ts : option TsVbuuid)
| EvAddEngines (bucket : string)
| EvDeleteEngines (bucket : string) (uuids : list Z)
| EvKVClose (bucket : string)
| EvEndpointClose (endpoint : RouterEndpoint)
| EvTimeAfter (millis : Z)
| EvCloseFinch
| EvEquivalentIP (raddr : string)
| EvEndpointPing (endpoint : RouterEndpoint)
| EvEpFactory (topic typ raddr : string).

(** ** The feed *)

Record Feed := {
  cluster : string;
  topic : string;
  endpointType : string;
  reqTss : gmap string (option TsVbuuid);
  actTss : gmap string (option TsVbuuid);
  rollTss : gmap string (option TsVbuuid);
  feeders : gmap string BucketFeeder;
  kvdata : gmap string KVData;
  engines : gmap string (gmap Z Engine);
  endpoints : gmap string RouterEndpoint;
  backch : list message;
  maxVbuckets : Z;
  reqTimeout : Z;
  endTimeout : Z;
  trace : list Event
}.

Definition set_endpointType (v : string) (f : Feed) : Feed :=
  {| cluster := cluster f; topic := topic f; endpointType := v;
     reqTss := reqTss f; actTss := actTss f; rollTss := rollTss f;
     feeders := feeders f; kvdata := kvdata f; engines := engines f;
     endpoints := endpoints f; backch := backch f;
     maxVbuckets := maxVbuckets f; reqTimeout := reqTimeout f;
     endTimeout := endTimeout f; trace := trace f |}.

Definition set_reqTss (v : gmap string (option TsVbuuid)) (f : Feed) : Feed :=
  {| cluster := cluster f; topic := topic f; endpointType := endpointType f;
     reqTss := v; actTss := actTss f; rollTss := rollTss f;
     feeders := feeders f; kvdata := kvdata f; engines := engines f;
     endpoints := endpoints f; backch := backch f;
     maxVbuckets := maxVbuckets f; reqTimeout := reqTimeout f;
     endTimeout := endTimeout f; trace := trace f |}.

Definition set_actTss (v : gmap string (option TsVbuuid)) (f : Feed) : Feed :=
  {| cluster := cluster f; topic := topic f; endpointType := endpointType f;
     reqTss := reqTss f; actTss := v; rollTss := rollTss f;
     feeders := feeders f; kvdata := kvdata f; engines := engines f;
     endpoints := endpoints f; backch := backch f;
     maxVbuckets := maxVbuckets f; reqTimeout := reqTimeout f;
     endTimeout := endTimeout f; trace := trace f |}.

Definition set_rollTss (v : gmap string (option TsVbuuid)) (f : Feed) : Feed :=
  {| cluster := cluster f; topic := topic f; endpointType := endpointType f;
     reqTss := reqTss f; actTss := actTss f; rollTss := v;
     feeders := feeders f; kvdata := kvdata f; engines := engines f;
     endpoints := endpoints f; backch := backch f;
     maxVbuckets := maxVbuckets f; reqTimeout := reqTimeout f;
     endTimeout := endTimeout f; trace := trace f |}.

Definition set_feeders (v : gmap string BucketFeeder) (f : Feed) : Feed :=
  {| cluster := cluster f; topic := topic f; endpointType := endpointType f;
     reqTss := reqTss f; actTss := actTss f; rollTss := rollTss f;
     feeders := v; kvdata := kvdata f; engines := engines f;
     endpoints := endpoints f; backch := backch f;
     maxVbuckets := maxVbuckets f; reqTimeout := reqTimeout f;
     endTimeout := endTimeout f; trace := trace f |}.

Definition set_kvdata (v : gmap string KVData) (f : Feed) : Feed :=
  {| cluster := cluster f; topic := topic f; endpointType := endpointType f;
     reqTss := reqTss f; actTss := actTss f; rollTss := rollTss f;
     feeders := feeders f; kvdata := v; engines := engines f;
     endpoints := endpoints f; backch := backch f;
     maxVbuckets := maxVbuckets f; reqTimeout := reqTimeout f;
     endTimeout := endTimeout f; trace := trace f |}.

Definition set_engines (v : gmap string (gmap Z Engine)) (f : Feed) : Feed :=
  {| cluster := cluster f; topic := topic f; endpointType := endpointType f;
     reqTss := reqTss f; actTss := actTss f; rollTss := rollTss f;
     feeders := feeders f; kvdata := kvdata f; engines := v;
     endpoints := endpoints f; backch := backch f;
     maxVbuckets := maxVbuckets f; reqTimeout := reqTimeout f;
     endTimeout := endTimeout f; trace := trace f |}.

Definition set_endpoints (v : gmap string RouterEndpoint) (f : Feed) : Feed :=
  {| cluster := cluster f; topic := topic f; endpointType := endpointType f;
     reqTss := reqTss f; actTss := actTss f; rollTss := rollTss f;
     feeders := feeders f; kvdata := kvdata f; engines := engines f;
     endpoints := v; backch := backch f;
     maxVbuckets := maxVbuckets f; reqTimeout := reqTimeout f;
     endTimeout := endTimeout f; trace := trace f |}.

Definition set_backch (v : list message) (f : Feed) : Feed :=
  {| cluster := cluster f; topic := topic f; endpointType := endpointType f;
     reqTss := reqTss f; actTss := actTss f; rollTss := rollTss f;
     feeders := feeders f; kvdata := kvdata f; engines := engines f;
     endpoints := endpoints f; backch := v;
     maxVbuckets := maxVbuckets f; reqTimeout := reqTimeout f;
     endTimeout := endTimeout f; trace := trace f |}.

Definition set_trace (v : list Event) (f : Feed) : Feed :=
  {| cluster := cluster f; topic := topic f; endpointType := endpointType f;
     reqTss := reqTss f; actTss := actTss f; rollTss := rollTss f;
     feeders := feeders f; kvdata := kvdata f; engines := engines f;
     endpoints := endpoints f; backch := backch f;
     maxVbuckets := maxVbuckets f; reqTimeout := reqTimeout f;
     endTimeout := endTimeout f; trace := v |}.

(** Record one call to a collaborator. *)
Definition emit (ev : Event) (f : Feed) : Feed := set_trace (trace f ++ [ev]) f.

(** [NewFeed]: every map starts empty. *)
Definition NewFeed (topic_ cluster_ : string) (maxVb reqT endT : Z) : Feed :=
  {| cluster := cluster_; topic := topic_; endpointType := "";
     reqTss := ∅; actTss := ∅; rollTss := ∅;
     feeders := ∅; kvdata := ∅; engines := ∅; endpoints := ∅;
     backch := [];
     maxVbuckets := maxVb; reqTimeout := reqT; endTimeout := endT;
     trace := [] |}.

(** [PostStreamRequest], [PostStreamEnd] and [PostFinKVdata]: the data
    path enqueues one control message. *)
Definition PostStreamRequest (v : controlStreamRequest) (f : Feed) : Feed :=
  set_backch (backch f ++ [singleton_msg (IStreamRequest v)]) f.

Definition PostStreamEnd (v : controlStreamEnd) (f : Feed) : Feed :=
  set_backch (backch f ++ [singleton_msg (IStreamEnd v)]) f.

Definition PostFinKVdata (bucket : string) (f : Feed) : Feed :=
  set_backch (backch f ++ [singleton_msg (IFinKVData {| fin_bucket := bucket |})]) f.

(** ** Oracles *)

(** What the cluster and the upstream answer while one bucket of a
    command is processed. *)
Inductive OpenOutcome :=
| ConnectFails
| UUIDFails (e : Error)
| OpenFails
| Opened (uuid : Z).

Record BucketOracle := {
  (** [cinfo.GetVBuckets] for the current node; [None] when the cluster
      information cannot be fetched. *)
  o_vbnos32 : option (list Z);
  (** whether [bucketDetails] (connection and failover logs) succeeds *)
  o_details_ok : bool;
  (** what opening the upstream feed gives when the bucket has no feeder *)
  o_open : OpenOutcome;
  (** whether [StartVbStreams] / [EndVbStreams] succeeds *)
  o_stream_ok : bool;
  (** the messages the data path posts while the reconciler waits *)
  o_arrivals : list message;
  (** how many messages the reconciler dequeues before its timer fires *)
  o_patience : nat
}.

(** The endpoint side: address equivalence, liveness and the factory. *)
Record Network := {
  EquivalentIP : string → list string → Error + string;
  Ping : RouterEndpoint → bool;
  epFactory : string → string → string → Error + RouterEndpoint
}.

Record Env := {
  (** [time.Now().UnixNano()] when the command draws its opaque *)
  env_now : Z;
  (** the oracle of the i-th timestamp of the request *)
  env_bucket : nat → BucketOracle;
  env_net : Network
}.

(** ** The stream-feedback reconciler *)

(** [waitOnFeedback]: the loop dequeues until the callback says "done" or
    the timer fires; an empty channel blocks until the timer fires. *)
Fixpoint waitOnFeedback_loop {S : Type} (callb : S → iface → string * S)
    (patience : nat) (ch : list message) (st : S) (msgs : list message)
  : option Error * list message * S * list message :=
  match patience, ch with
  | Datatypes.S n, msg :: ch' =>
      let '(verdict, st') := callb st (msg0 msg) in
      if String.eqb verdict "skip" then
        waitOnFeedback_loop callb n ch' st' (msgs ++ [msg])
      else if String.eqb verdict "done" then
        (None, ch', st', msgs)
      else
        waitOnFeedback_loop callb n ch' st' msgs
  | _, _ => (Some ErrorResponseTimeout, ch, st, msgs)
  end.

Definition waitOnFeedback {S : Type} (callb : S → iface → string * S)
    (patience : nat) (st : S) (feed : Feed) : option Error * S * Feed :=
  let '(err, ch, st', msgs) := waitOnFeedback_loop callb patience (backch feed) st [] in
  (* re-populate in the same order: feed.backch <- []interface{}{msg} *)
  (err, st', set_backch (ch ++ ((λ msg, singleton_msg (to_iface msg)) <$> msgs)) feed).

(** The variables captured by the callback of [waitStreamRequests]. *)
Record reqWait := {
  w_rollTs : TsVbuuid;
  w_failTs : TsVbuuid;
  w_actTs : TsVbuuid;
  w_vbnos : list Z;
  w_err : option Error
}.

Definition streamRequestCallb (opaque : Z) (bucketn : string) (ts : option TsVbuuid)
    (st : reqWait) (msg : iface) : string * reqWait :=
  match msg with
  | IStreamRequest val =>
      if bool_decide (sr_bucket val = bucketn) && bool_decide (sr_opaque val = opaque)
         && Contains ts (sr_vbno val) then
        let add t := Append t (sr_vbno val) (sr_seqno val) (sr_vbuuid val) 0 0 in
        let vbnos := RemoveUint16 (sr_vbno val) (w_vbnos st) in
        let st' :=
          match sr_status val with
          | SUCCESS =>
              {| w_rollTs := w_rollTs st; w_failTs := w_failTs st;
                 w_actTs := add (w_actTs st); w_vbnos := vbnos; w_err := w_err st |}
          | ROLLBACK =>
              {| w_rollTs := add (w_rollTs st); w_failTs := w_failTs st;
                 w_actTs := w_actTs st; w_vbnos := vbnos; w_err := w_err st |}
          | NOT_MY_VBUCKET =>
              {| w_rollTs := w_rollTs st; w_failTs := add (w_failTs st);
                 w_actTs := w_actTs st; w_vbnos := vbnos;
                 w_err := Some ErrorNotMyVbucket |}
          | OTHER_STATUS =>
              {| w_rollTs := w_rollTs st; w_failTs := add (w_failTs st);
                 w_actTs := w_actTs st; w_vbnos := vbnos;
                 w_err := Some ErrorStreamRequest |}
          end in
        if bool_decide (length vbnos = 0) then ("done", st') else ("ok", st')
      else ("skip", st)
  | _ => ("skip", st)
  end.

Definition waitStreamRequests (opaque : Z) (pooln bucketn : string)
    (ts : option TsVbuuid) (o : BucketOracle) (feed : Feed)
  : TsVbuuid * TsVbuuid * TsVbuuid * option Error * Feed :=
  let vbnos := Vbno32to16 (GetVbnos ts) in
  let rollTs := NewTsVbuuid (GetPool ts) (GetBucket ts) (length vbnos) in
  let failTs := NewTsVbuuid (GetPool ts) (GetBucket ts) (length vbnos) in
  let actTs := NewTsVbuuid (GetPool ts) (GetBucket ts) (length vbnos) in
  if bool_decide (length vbnos = 0) then (rollTs, failTs, actTs, None, feed)
  else
    let feed := emit (EvTimeAfter (reqTimeout feed)) feed in
    let feed := set_backch (backch feed ++ o_arrivals o) feed in
    let st := {| w_rollTs := rollTs; w_failTs := failTs; w_actTs := actTs;
                 w_vbnos := vbnos; w_err := None |} in
    let '(err1, st', feed') :=
      waitOnFeedback (streamRequestCallb opaque bucketn ts) (o_patience o) st feed in
    let err := match w_err st' with Some e => Some e | None => err1 end in
    (w_rollTs st', w_failTs st', w_actTs st', err, feed').

(** The variables captured by the callback of [waitStreamEnds]. *)
Record endWait := {
  x_endTs : TsVbuuid;
  x_failTs : TsVbuuid;
  x_vbnos : list Z;
  x_err : option Error
}.

Definition streamEndCallb (opaque : Z) (bucketn : string) (ts : option TsVbuuid)
    (st : endWait) (msg : iface) : string * endWait :=
  match msg with
  | IStreamEnd val =>
      if bool_decide (se_bucket val = bucketn) && bool_decide (se_opaque val = opaque)
         && Contains ts (se_vbno val) then
        let add t := Append t (se_vbno val) 0 0 0 0 in
        let vbnos := RemoveUint16 (se_vbno val) (x_vbnos st) in
        let st' :=
          match se_status val with
          | SUCCESS =>
              {| x_endTs := add (x_endTs st); x_failTs := x_failTs st;
                 x_vbnos := vbnos; x_err := x_err st |}
          | NOT_MY_VBUCKET =>
              {| x_endTs := x_endTs st; x_failTs := add (x_failTs st);
                 x_vbnos := vbnos; x_err := Some ErrorNotMyVbucket |}
          | _ =>
              {| x_endTs := x_endTs st; x_failTs := add (x_failTs st);
                 x_vbnos := vbnos; x_err := Some ErrorStreamEnd |}
          end in
        if bool_decide (length vbnos = 0) then ("done", st') else ("ok", st')
      else ("skip", st)
  | _ => ("skip", st)
  end.

Definition waitStreamEnds (opaque : Z) (bucketn : string)
    (ts : option TsVbuuid) (o : BucketOracle) (feed : Feed)
  : TsVbuuid * TsVbuuid * option Error * Feed :=
  let vbnos := Vbno32to16 (GetVbnos ts) in
  let endTs := NewTsVbuuid (GetPool ts) (GetBucket ts) (length vbnos) in
  let failTs := NewTsVbuuid (GetPool ts) (GetBucket ts) (length vbnos) in
  if bool_decide (length vbnos = 0) then (endTs, failTs, None, feed)
  else
    let feed := emit (EvTimeAfter (endTimeout feed)) feed in
    let feed := set_backch (backch feed ++ o_arrivals o) feed in
    let st := {| x_endTs := endTs; x_failTs := failTs; x_vbnos := vbnos; x_err := None |} in
    let '(err1, st', feed') :=
      waitOnFeedback (streamEndCallb opaque bucketn ts) (o_patience o) st feed in
    let err := match x_err st' with Some e => Some e | None => err1 end in
    (x_endTs st', x_failTs st', err, feed').

(** ** Requests *)

(** The [Subscriber] interface of the requests that carry engines. *)
Record Subscriber := {
  GetEvaluators : Error + gmap Z Evaluator;
  GetRouters : Error + gmap Z Router
}.

Record MutationTopicRequest := {
  mt_EndpointType : string;
  mt_ReqTimestamps : list TsVbuuid;
  mt_Subscriber : Subscriber
}.

Record RestartVbucketsRequest := { rv_RestartTimestamps : list TsVbuuid }.

Record ShutdownVbucketsRequest := { sv_ShutdownTimestamps : list TsVbuuid }.

Record AddBucketsRequest := {
  ab_ReqTimestamps : list TsVbuuid;
  ab_Subscriber : Subscriber
}.

Record DelBucketsRequest := { db_Buckets : list string }.

Record AddInstancesRequest := { ai_Subscriber : Subscriber }.

Record DelInstancesRequest := { di_InstanceIds : list Z }.

Record RepairEndpointsRequest := { re_Topic : string; re_Endpoints : list string }.

Record TopicResponse := {
  tr_Topic : string;
  tr_InstanceIds : list Z;
  tr_ActiveTimestamps : list (option TsVbuuid);
  tr_RollbackTimestamps : list (option TsVbuuid)
}.

(** [for _, ts := range tss], with the position of [ts] in the request. *)
Fixpoint forRange {A : Type} (body : nat → A → TsVbuuid → A)
    (i : nat) (tss : list TsVbuuid) (acc : A) : A :=
  match tss with
  | [] => acc
  | ts :: rest => forRange body (S i) rest (body i acc ts)
  end.

(** ** Helpers of the actor *)

(** [newOpaque]: bits 26 and up of the clock, 16 of them. *)
Definition newOpaque (nanos : Z) : Z :=
  Z.land (Z.shiftr (nanos mod 2 ^ 64) 26) 65535.

Definition newDCPConnectionName (bucketn topic_ : string) (uuid : Z) : string :=
  "proj-" +:+ bucketn +:+ "-" +:+ topic_ +:+ "-" +:+ pretty uuid.

Definition endpointRaddrs (feed : Feed) : list string := (map_to_list (endpoints feed)).*1.

(** [engineNames]: the loop ranges over [feed.engines], whose keys are the
    bucket names; [fmt.Sprintf("%v", ...)] of a string is the string. *)
Definition engineNames (feed : Feed) : list string := (map_to_list (engines feed)).*1.

Definition getLocalVbuckets (o : BucketOracle) : Error + list Z :=
  match o_vbnos32 o with
  | None => inl ErrorClusterInfo
  | Some vbnos32 => inr (Vbno32to16 vbnos32)
  end.

(** [cleanupBucket]: drop the book-keeping of the bucket and close its
    upstream and its data path. *)
Definition cleanupBucket (bucketn : string) (enginesOk : bool) (feed : Feed) : Feed :=
  let feed := if enginesOk then set_engines (delete bucketn (engines feed)) feed else feed in
  let feed := set_reqTss (delete bucketn (reqTss feed)) feed in
  let feed := set_actTss (delete bucketn (actTss feed)) feed in
  let feed := set_rollTss (delete bucketn (rollTss feed)) feed in
  let feed := match feeders feed !! bucketn with
              | Some feeder => emit (EvCloseFeed feeder) feed
              | None => feed
              end in
  let feed := set_feeders (delete bucketn (feeders feed)) feed in
  let feed := match kvdata feed !! bucketn with
              | Some _ => emit (EvKVClose bucketn) feed
              | None => feed
              end in
  set_kvdata (delete bucketn (kvdata feed)) feed.

(** [bucketFeed]: the left result is the error, with the feeder that the
    Go function returns next to it. *)
Definition bucketFeed (opaque : Z) (stop start_ : bool) (reqTs : option TsVbuuid)
    (o : BucketOracle) (feed : Feed)
  : (option BucketFeeder * Error + BucketFeeder) * Feed :=
  let bucketn := GetBucket reqTs in
  if negb (o_details_ok o) then (inl (None, ErrorFeeder), feed)
  else
    let opened : Error + BucketFeeder * Feed :=
      match feeders feed !! bucketn with
      | Some feeder => inr (feeder, feed)
      | None => (* the feed is being started for the first time *)
          match o_open o with
          | ConnectFails => inl ErrorFeeder
          | UUIDFails e => inl e
          | OpenFails => inl ErrorFeeder
          | Opened uuid =>
              let name := newDCPConnectionName bucketn (topic feed) uuid in
              inr ({| feeder_name := name |}, emit (EvOpenBucketFeed name bucketn) feed)
          end
      end in
    match opened with
    | inl e => (inl (None, e), feed)
    | inr (feeder, feed) =>
        if stop then
          let feed := emit (EvEndVbStreams feeder opaque reqTs) feed in
          if o_stream_ok o then (inr feeder, feed)
          else (inl (Some feeder, ErrorFeeder), feed)
        else if start_ then
          let feed := emit (EvStartVbStreams feeder opaque reqTs) feed in
          if o_stream_ok o then (inr feeder, feed)
          else (inl (Some feeder, ErrorFeeder), feed)
        else (inr feeder, feed)
    end.

Definition startDataPath (bucketn : string) (feeder : BucketFeeder)
    (ts : option TsVbuuid) (feed : Feed) : KVData * Feed :=
  match kvdata feed !! bucketn with
  | Some kv => (kv, emit (EvUpdateTs bucketn ts) feed)
  | None => ({| kv_bucket := bucketn; kv_feeder := feeder |},
             emit (EvNewKVData bucketn ts) feed)
  end.

(** ** Subscribers and endpoints *)

Definition subscribers (req : Subscriber) : Error + gmap Z Evaluator * gmap Z Router :=
  match GetEvaluators req with
  | inl _ => inl ErrorInconsistentFeed
  | inr evaluators =>
      match GetRouters req with
      | inl _ => inl ErrorInconsistentFeed
      | inr routers =>
          if bool_decide (size evaluators ≠ size routers) then inl ErrorInconsistentFeed
          else if forallb (λ kv : Z * Evaluator, bool_decide (is_Some (routers !! kv.1)))
                          (map_to_list evaluators)
          then inr (evaluators, routers)
          else inl ErrorInconsistentFeed
      end
  end.

Definition getEndpoint (net : Network) (raddr : string) (feed : Feed)
  : string * option RouterEndpoint * option Error :=
  match EquivalentIP net raddr (endpointRaddrs feed) with
  | inl err => (raddr, None, Some err)
  | inr eqRaddr =>
      let raddr := if bool_decide (raddr ≠ eqRaddr) then eqRaddr else raddr in
      match endpoints feed !! raddr with
      | Some endpoint => (raddr, Some endpoint, None)
      | None => (raddr, None, None)
      end
  end.

(** The body that the loops of [startEndpoints] and [repairEndpoints]
    share, with the named result [err] of the enclosing function.  The
    address lookup of [getEndpoint], the ping of the endpoint found and
    the call of the factory are recorded in the order they are made. *)
Definition endpointStep (net : Network) (st : Feed * option Error) (raddr : string)
  : Feed * option Error :=
  let '(feed, err) := st in
  let '(raddr1, endpoint, e) := getEndpoint net raddr feed in
  let feed := emit (EvEquivalentIP raddr) feed in
  match e with
  | Some e => (feed, Some e)
  | None =>
      let '(started, feed) :=
        match endpoint with
        | Some ep =>
            let feed := emit (EvEndpointPing ep) feed in
            if Ping net ep then (inr ep, feed)
            else (epFactory net (topic feed) (endpointType feed) raddr,
                  emit (EvEpFactory (topic feed) (endpointType feed) raddr) feed)
        | None =>
            (epFactory net (topic feed) (endpointType feed) raddr,
             emit (EvEpFactory (topic feed) (endpointType feed) raddr) feed)
        end in
      match started with
      | inl e => (feed, Some e)
      | inr ep =>
          (set_endpoints (<[raddr1 := ep]> (<[raddr := ep]> (endpoints feed))) feed, err)
      end
  end.

Definition startEndpoints (net : Network) (routers : gmap Z Router) (feed : Feed)
  : option Error * Feed :=
  let '(feed, err) :=
    foldl (λ st (kv : Z * Router), foldl (endpointStep net) st (rt_endpoints kv.2))
          (feed, None) (map_to_list routers) in
  (* the function ends in [return nil] *)
  (None, feed).

Definition NewEngine (uuid : Z) (evaluator : Evaluator) (router : option Router) : Engine :=
  {| eng_uuid := uuid; eng_evaluator := evaluator; eng_router := router |}.

Definition processSubscribers (net : Network) (req : Subscriber) (feed : Feed)
  : option Error * Feed :=
  match subscribers req with
  | inl err => (Some err, feed)
  | inr (evaluators, routers) =>
      match startEndpoints net routers feed with
      | (Some err, feed) => (Some err, feed)
      | (None, feed) =>
          (None,
           foldl (λ feed (kv : Z * Evaluator),
                    let bucketn := ev_bucket kv.2 in
                    let '(m, ok) := map_index ∅ (engines feed) bucketn in
                    let m := if ok then m else ∅ in
                    let engine := NewEngine kv.1 kv.2 (routers !! kv.1) in
                    set_engines (<[bucketn := <[kv.1 := engine]> m]> (engines feed)) feed)
                 feed (map_to_list evaluators))
      end
  end.

Definition repairEndpoints (net : Network) (req : RepairEndpointsRequest) (feed : Feed)
  : option Error * Feed :=
  let '(feed, err) := foldl (endpointStep net) (feed, None) (re_Endpoints req) in
  (* posted to each kv data-path *)
  let feed := foldl (λ feed (kv : string * KVData), emit (EvAddEngines kv.1) feed)
                    feed (map_to_list (kvdata feed)) in
  (* the function ends in [return nil] *)
  (None, feed).

(** ** Commands *)

Definition keep_last (e : option Error) (err : option Error) : option Error :=
  match e with
  | Some e => Some e
  | None => err
  end.

(** One iteration of the loop of [start]. *)
Definition startBucket (opaque : Z) (env : Env) (i : nat)
    (st : Feed * option Error) (ts : TsVbuuid) : Feed * option Error :=
  let '(feed, err) := st in
  let o := env_bucket env i in
  let pooln := Pool ts in
  let bucketn := Bucket ts in
  match getLocalVbuckets o with
  | inl e => (cleanupBucket bucketn false feed, Some e)
  | inr vbnos =>
      let ts := SelectByVbuckets (Some ts) vbnos in
      let '(actTs, ok) := map_index None (actTss feed) bucketn in
      (* don't re-request for already active vbuckets *)
      let ts := if ok then FilterByVbuckets ts (Vbno32to16 (GetVbnos actTs)) else ts in
      let '(rollTs, ok) := map_index None (rollTss feed) bucketn in
      (* forget previous rollback for the current set of vbuckets *)
      let rollTs :=
        if ok then FilterByVbuckets rollTs (Vbno32to16 (GetVbnos ts)) else rollTs in
      let '(reqTs, ok) := map_index None (reqTss feed) bucketn in
      (* vbuckets that have out-standing request will be ignored *)
      let ts := if ok then FilterByVbuckets ts (Vbno32to16 (GetVbnos reqTs)) else ts in
      let reqTs := Union ts reqTs in
      match bucketFeed opaque false true ts o feed with
      | (inl (_, e), feed) => (cleanupBucket bucketn false feed, Some e)
      | (inr feeder, feed) =>
          let feed := set_feeders (<[bucketn := feeder]> (feeders feed)) feed in
          let '(kv, feed) := startDataPath bucketn feeder ts feed in
          let feed := set_kvdata (<[bucketn := kv]> (kvdata feed)) feed in
          let '(r, f, a, e, feed) := waitStreamRequests opaque pooln bucketn ts o feed in
          let feed := set_rollTss (<[bucketn := Union rollTs (Some r)]> (rollTss feed)) feed in
          let feed := set_actTss (<[bucketn := Union actTs (Some a)]> (actTss feed)) feed in
          (* forget vbuckets for which a response is already received *)
          let reqTs := FilterByVbuckets reqTs (Vbno32to16 (GetVbnos (Some r))) in
          let reqTs := FilterByVbuckets reqTs (Vbno32to16 (GetVbnos (Some a))) in
          let reqTs := FilterByVbuckets reqTs (Vbno32to16 (GetVbnos (Some f))) in
          let feed := set_reqTss (<[bucketn := reqTs]> (reqTss feed)) feed in
          (feed, keep_last e err)
      end
  end.

Definition start (env : Env) (req : MutationTopicRequest) (feed : Feed)
  : option Error * Feed :=
  let feed := set_endpointType (mt_EndpointType req) feed in
  (* update engines and endpoints *)
  match processSubscribers (env_net env) (mt_Subscriber req) feed with
  | (Some err, feed) => (Some err, feed)
  | (None, feed) =>
      let opaque := newOpaque (env_now env) in
      let '(feed, err) :=
        forRange (startBucket opaque env) 0 (mt_ReqTimestamps req) (feed, None) in
      (err, feed)
  end.

(** One iteration of the loop of [restartVbuckets]. *)
Definition restartBucket (opaque : Z) (env : Env) (i : nat)
    (st : Feed * option Error) (ts : TsVbuuid) : Feed * option Error :=
  let '(feed, err) := st in
  let o := env_bucket env i in
  let pooln := Pool ts in
  let bucketn := Bucket ts in
  match getLocalVbuckets o with
  | inl e => (cleanupBucket bucketn false feed, Some e)
  | inr vbnos =>
      let ts := SelectByVbuckets (Some ts) vbnos in
      let '(actTs, ok) := map_index None (actTss feed) bucketn in
      let ts := if ok then FilterByVbuckets ts (Vbno32to16 (GetVbnos actTs)) else ts in
      let '(rollTs, ok) := map_index None (rollTss feed) bucketn in
      let rollTs :=
        if ok then FilterByVbuckets rollTs (Vbno32to16 (GetVbnos ts)) else rollTs in
      let '(reqTs, ok) := map_index None (reqTss feed) bucketn in
      let ts := if ok then FilterByVbuckets ts (Vbno32to16 (GetVbnos reqTs)) else ts in
      (* reqTs = ts.Union(ts) *)
      let reqTs := Union ts ts in
      (* if bucket already present update kvdata first *)
      let feed := match kvdata feed !! bucketn with
                  | Some _ => emit (EvUpdateTs bucketn ts) feed
                  | None => feed
                  end in
      match bucketFeed opaque false true ts o feed with
      | (inl (_, e), feed) => (cleanupBucket bucketn false feed, Some e)
      | (inr feeder, feed) =>
          let feed := set_feeders (<[bucketn := feeder]> (feeders feed)) feed in
          (* open data-path, if not already open *)
          let feed := match kvdata feed !! bucketn with
                      | Some _ => feed
                      | None =>
                          let '(kv, feed) := startDataPath bucketn feeder ts feed in
                          set_kvdata (<[bucketn := kv]> (kvdata feed)) feed
                      end in
          let '(r, f, a, e, feed) := waitStreamRequests opaque pooln bucketn ts o feed in
          let feed := set_rollTss (<[bucketn := Union rollTs (Some r)]> (rollTss feed)) feed in
          let feed := set_actTss (<[bucketn := Union actTs (Some a)]> (actTss feed)) feed in
          let reqTs := FilterByVbuckets reqTs (Vbno32to16 (GetVbnos (Some r))) in
          let reqTs := FilterByVbuckets reqTs (Vbno32to16 (GetVbnos (Some a))) in
          let reqTs := FilterByVbuckets reqTs (Vbno32to16 (GetVbnos (Some f))) in
          let feed := set_reqTss (<[bucketn := reqTs]> (reqTss feed)) feed in
          (feed, keep_last e err)
      end
  end.

Definition restartVbuckets (env : Env) (req : RestartVbucketsRequest) (feed : Feed)
  : option Error * Feed :=
  (* restart-vbuckets implies a repair Endpoint *)
  let raddrs := endpointRaddrs feed in
  let rpReq := {| re_Topic := topic feed; re_Endpoints := raddrs |} in
  let '(_, feed) := repairEndpoints (env_net env) rpReq feed in
  let opaque := newOpaque (env_now env) in
  let '(feed, err) :=
    forRange (restartBucket opaque env) 0 (rv_RestartTimestamps req) (feed, None) in
  (err, feed).

(** One iteration of the loop of [shutdownVbuckets]. *)
Definition shutdownBucket (opaque : Z) (env : Env) (i : nat)
    (st : Feed * option Error) (ts : TsVbuuid) : Feed * option Error :=
  let '(feed, err) := st in
  let o := env_bucket env i in
  let bucketn := Bucket ts in
  match getLocalVbuckets o with
  | inl e => (feed, Some e) (* in case of shutdown we are not cleaning the bucket *)
  | inr vbnos =>
      let ts := SelectByVbuckets (Some ts) vbnos in
      let '(actTs, ok1) := map_index None (actTss feed) bucketn in
      let '(rollTs, ok2) := map_index None (rollTss feed) bucketn in
      let '(reqTs, ok3) := map_index None (reqTss feed) bucketn in
      if negb ok1 || negb ok2 || negb ok3 then (feed, Some ErrorInvalidBucket)
      else
        (* shutdown upstream *)
        match bucketFeed opaque true false ts o feed with
        | (inl (_, e), feed) => (feed, Some e)
        | (inr _, feed) =>
            let '(endTs, _, e, feed) := waitStreamEnds opaque bucketn ts o feed in
            let vbnos := Vbno32to16 (GetVbnos (Some endTs)) in
            (* forget vbnos that are shutdown *)
            let feed := set_actTss (<[bucketn := FilterByVbuckets actTs vbnos]> (actTss feed)) feed in
            let feed := set_reqTss (<[bucketn := FilterByVbuckets reqTs vbnos]> (reqTss feed)) feed in
            let feed := set_rollTss (<[bucketn := FilterByVbuckets rollTs vbnos]> (rollTss feed)) feed in
            (feed, keep_last e err)
        end
  end.

Definition shutdownVbuckets (env : Env) (req : ShutdownVbucketsRequest) (feed : Feed)
  : option Error * Feed :=
  let opaque := newOpaque (env_now env) in
  let '(feed, err) :=
    forRange (shutdownBucket opaque env) 0 (sv_ShutdownTimestamps req) (feed, None) in
  (err, feed).

(** One iteration of the loop of [addBuckets]. *)
Definition addBucket (opaque : Z) (env : Env) (i : nat)
    (st : Feed * option Error) (ts : TsVbuuid) : Feed * option Error :=
  let '(feed, err) := st in
  let o := env_bucket env i in
  let pooln := Pool ts in
  let bucketn := Bucket ts in
  match getLocalVbuckets o with
  | inl e => (cleanupBucket bucketn false feed, Some e)
  | inr vbnos =>
      let ts := SelectByVbuckets (Some ts) vbnos in
      let '(actTs, ok) := map_index None (actTss feed) bucketn in
      (* ts.FilterByVbuckets(...): the result is not assigned *)
      let ts := if ok
                then let _ := FilterByVbuckets ts (Vbno32to16 (GetVbnos actTs)) in ts
                else ts in
      let '(rollTs, ok) := map_index None (rollTss feed) bucketn in
      let rollTs :=
        if ok then FilterByVbuckets rollTs (Vbno32to16 (GetVbnos ts)) else rollTs in
      let '(reqTs, ok) := map_index None (reqTss feed) bucketn in
      let ts := if ok then FilterByVbuckets ts (Vbno32to16 (GetVbnos reqTs)) else ts in
      (* reqTs = ts.Union(ts) *)
      let reqTs := Union ts ts in
      match bucketFeed opaque false true ts o feed with
      | (inl (_, e), feed) => (cleanupBucket bucketn false feed, Some e)
      | (inr feeder, feed) =>
          let feed := set_feeders (<[bucketn := feeder]> (feeders feed)) feed in
          let '(kv, feed) := startDataPath bucketn feeder ts feed in
          let feed := set_kvdata (<[bucketn := kv]> (kvdata feed)) feed in
          let '(r, f, a, e, feed) := waitStreamRequests opaque pooln bucketn ts o feed in
          let feed := set_rollTss (<[bucketn := Union rollTs (Some r)]> (rollTss feed)) feed in
          let feed := set_actTss (<[bucketn := Union actTs (Some a)]> (actTss feed)) feed in
          let reqTs := FilterByVbuckets reqTs (Vbno32to16 (GetVbnos (Some r))) in
          let reqTs := FilterByVbuckets reqTs (Vbno32to16 (GetVbnos (Some a))) in
          let reqTs := FilterByVbuckets reqTs (Vbno32to16 (GetVbnos (Some f))) in
          let feed := set_reqTss (<[bucketn := reqTs]> (reqTss feed)) feed in
          (feed, keep_last e err)
      end
  end.

Definition addBuckets (env : Env) (req : AddBucketsRequest) (feed : Feed)
  : option Error * Feed :=
  match processSubscribers (env_net env) (ab_Subscriber req) feed with
  | (Some err, feed) => (Some err, feed)
  | (None, feed) =>
      let opaque := newOpaque (env_now env) in
      let '(feed, err) :=
        forRange (addBucket opaque env) 0 (ab_ReqTimestamps req) (feed, None) in
      (err, feed)
  end.

Definition delBuckets (req : DelBucketsRequest) (feed : Feed) : option Error * Feed :=
  (None, foldl (λ feed bucketn, cleanupBucket bucketn true feed) feed (db_Buckets req)).

Definition addInstances (env : Env) (req : AddInstancesRequest) (feed : Feed)
  : option Error * Feed :=
  match processSubscribers (env_net env) (ai_Subscriber req) feed with
  | (Some err, feed) => (Some err, feed)
  | (None, feed) =>
      (* post to kv data-path *)
      let '(feed, err) :=
        foldl (λ (st : Feed * option Error) (kv : string * gmap Z Engine),
                 match kvdata st.1 !! kv.1 with
                 | Some _ => (emit (EvAddEngines kv.1) st.1, st.2)
                 | None => (st.1, Some ErrorInvalidBucket)
                 end)
              (feed, None) (map_to_list (engines feed)) in
      (err, feed)
  end.

Definition delInstances (req : DelInstancesRequest) (feed : Feed) : option Error * Feed :=
  let instanceIds := di_InstanceIds req in
  let bucknIds : gmap string (list Z) :=
    (λ m : gmap Z Engine,
       (map_to_list (filter (λ kv : Z * Engine, kv.1 ∈ instanceIds) m)).*1)
      <$> engines feed in
  let fengines : gmap string (gmap Z Engine) :=
    (λ m : gmap Z Engine, filter (λ kv : Z * Engine, kv.1 ∉ instanceIds) m)
      <$> engines feed in
  (* posted to kv data-path *)
  let '(feed, err) :=
    foldl (λ (st : Feed * option Error) (kv : string * list Z),
             match kvdata st.1 !! kv.1 with
             | Some _ => (emit (EvDeleteEngines kv.1 kv.2) st.1, st.2)
             | None => (st.1, Some ErrorInvalidBucket)
             end)
          (feed, None) (map_to_list bucknIds) in
  (err, set_engines fengines feed).

Definition shutdown (feed : Feed) : option Error * Feed :=
  (* close upstream *)
  let feed := foldl (λ feed (kv : string * BucketFeeder), emit (EvCloseFeed kv.2) feed)
                    feed (map_to_list (feeders feed)) in
  (* close data-path *)
  let feed := foldl (λ feed (kv : string * KVData),
                       set_kvdata (delete kv.1 (kvdata feed)) (emit (EvKVClose kv.1) feed))
                    feed (map_to_list (kvdata feed)) in
  (* close downstream *)
  let feed := foldl (λ feed (kv : string * RouterEndpoint), emit (EvEndpointClose kv.2) feed)
                    feed (map_to_list (endpoints feed)) in
  (None, emit EvCloseFinch feed).

Definition topicResponse (feed : Feed) : TopicResponse :=
  {| tr_Topic := topic feed;
     tr_InstanceIds :=
       map_to_list (engines feed) ≫= λ kv : string * gmap Z Engine, (map_to_list kv.2).*1;
     tr_ActiveTimestamps := (map_to_list (actTss feed)).*2;
     tr_RollbackTimestamps :=
       filter (λ ts, IsEmpty ts = false) (map_to_list (rollTss feed)).*2 |}.

Inductive Command :=
| CmdStart (req : MutationTopicRequest)
| CmdRestartVbuckets (req : RestartVbucketsRequest)
| CmdShutdownVbuckets (req : ShutdownVbucketsRequest)
| CmdAddBuckets (req : AddBucketsRequest)
| CmdDelBuckets (req : DelBucketsRequest)
| CmdAddInstances (req : AddInstancesRequest)
| CmdDelInstances (req : DelInstancesRequest)
| CmdRepairEndpoints (req : RepairEndpointsRequest)
| CmdShutdown
| CmdGetTopicResponse
| CmdGetStatistics.

Inductive Reply :=
| ReplyTopic (response : TopicResponse) (err : option Error)
| ReplyError (err : option Error)
| ReplyStatistics.

(** [handleCommand]: the reply sent on the response channel, the new
    feed, and whether the loop exits. *)
Definition handleCommand (env : Env) (cmd : Command) (feed : Feed) : bool * Reply * Feed :=
  match cmd with
  | CmdStart req =>
      let '(err, feed) := start env req feed in
      (false, ReplyTopic (topicResponse feed) err, feed)
  | CmdRestartVbuckets req =>
      let '(err, feed) := restartVbuckets env req feed in
      (false, ReplyTopic (topicResponse feed) err, feed)
  | CmdShutdownVbuckets req =>
      let '(err, feed) := shutdownVbuckets env req feed in
      (false, ReplyError err, feed)
  | CmdAddBuckets req =>
      let '(err, feed) := addBuckets env req feed in
      (false, ReplyTopic (topicResponse feed) err, feed)
  | CmdDelBuckets req =>
      let '(err, feed) := delBuckets req feed in
      (false, ReplyError err, feed)
  | CmdAddInstances req =>
      let '(err, feed) := addInstances env req feed in
      (false, ReplyError err, feed)
  | CmdDelInstances req =>
      let '(err, feed) := delInstances req feed in
      (false, ReplyError err, feed)
  | CmdRepairEndpoints req =>
      let '(err, feed) := repairEndpoints (env_net env) req feed in
      (false, ReplyError err, feed)
  | CmdGetTopicResponse => (false, ReplyTopic (topicResponse feed) None, feed)
  | CmdGetStatistics => (false, ReplyStatistics, feed)
  | CmdShutdown =>
      let '(err, feed) := shutdown feed in
      (true, ReplyError err, feed)
  end.

(** ** The actor loop *)

(** The result of the [case msg = <-feed.backch] arm of [genServer]:
    the arm completes, or it panics ([Append] through a nil timestamp
    pointer) in the state that it has reached. *)
Inductive Flush :=
| Flushed (feed : Feed)
| Panicked (feed : Feed).

Definition handleBackch (msg : message) (feed : Feed) : Flush :=
  match msg0 msg with
  | IStreamRequest v =>
      let '(reqTs, ok) := map_index None (reqTss feed) (sr_bucket v) in
      match Get reqTs (sr_vbno v) with
      | None => Flushed feed (* unexpected: logged and dropped *)
      | Some (seqno, vbuuid, sStart, sEnd) =>
          if ok then
            let reqTs := FilterByVbuckets reqTs [sr_vbno v] in
            let feed := set_reqTss (<[sr_bucket v := reqTs]> (reqTss feed)) feed in
            if bool_decide (sr_status v = ROLLBACK) then
              match (map_index None (rollTss feed) (sr_bucket v)).1 with
              | Some rollTs =>
                  let rollTs := Append rollTs (sr_vbno v) (sr_seqno v) vbuuid sStart sEnd in
                  Flushed (set_rollTss (<[sr_bucket v := Some rollTs]> (rollTss feed)) feed)
              | None => Panicked feed
              end
            else if bool_decide (sr_status v = SUCCESS) then
              match (map_index None (actTss feed) (sr_bucket v)).1 with
              | Some actTs =>
                  let actTs := Append actTs (sr_vbno v) seqno vbuuid sStart sEnd in
                  Flushed (set_actTss (<[sr_bucket v := Some actTs]> (actTss feed)) feed)
              | None => Panicked feed
              end
            else Flushed feed
          else Flushed feed
      end
  | IStreamEnd v =>
      let reqTs := (map_index None (reqTss feed) (se_bucket v)).1 in
      let reqTs := FilterByVbuckets reqTs [se_vbno v] in
      let feed := set_reqTss (<[se_bucket v := reqTs]> (reqTss feed)) feed in
      let actTs := (map_index None (actTss feed) (se_bucket v)).1 in
      let actTs := FilterByVbuckets actTs [se_vbno v] in
      let feed := set_actTss (<[se_bucket v := actTs]> (actTss feed)) feed in
      let rollTs := (map_index None (rollTss feed) (se_bucket v)).1 in
      let rollTs := FilterByVbuckets rollTs [se_vbno v] in
      let feed := set_rollTss (<[se_bucket v := rollTs]> (rollTss feed)) feed in
      Flushed feed
  | IFinKVData v =>
      let '(actTs, ok) := map_index None (actTss feed) (fin_bucket v) in
      if ok && bool_decide (actTs ≠ None) && bool_decide (Len actTs = 0) then
        (* bucket is done *)
        Flushed (cleanupBucket (fin_bucket v) false feed)
      else Flushed feed
  | ISlice _ => Flushed feed (* logged and dropped *)
  end.

(** What happens between two iterations of the [select] of [genServer]:
    a command is received, the oldest message of the back channel is
    received, the tick fires, or the data path posts a message. *)
Inductive Turn :=
| TurnCommand (env : Env) (cmd : Command)
| TurnBackch
| TurnTick
| TurnPost (msg : message).

Inductive Outcome :=
| Running (feed : Feed)
| Exited (feed : Feed)
| Crashed (feed : Feed).

Definition feed_of (o : Outcome) : Feed :=
  match o with
  | Running feed | Exited feed | Crashed feed => feed
  end.

Definition genServer_turn (t : Turn) (feed : Feed) : Outcome :=
  match t with
  | TurnCommand env cmd =>
      let '(exit, _, feed) := handleCommand env cmd feed in
      if exit then Exited feed else Running feed
  | TurnBackch =>
      match backch feed with
      | [] => Running feed
      | msg :: rest =>
          match handleBackch msg (set_backch rest feed) with
          | Flushed feed => Running feed
          | Panicked feed => Crashed (shutdown feed).2 (* the deferred recovery *)
          end
      end
  | TurnTick => Running feed
  | TurnPost msg => Running (set_backch (backch feed ++ [msg]) feed)
  end.

(** [genServer]: the loop runs until a command asks it to exit or a turn
    panics. *)
Fixpoint genServer (turns : list Turn) (feed : Feed) : Outcome :=
  match turns with
  | [] => Running feed
  | t :: rest =>
      match genServer_turn t feed with
      | Running feed => genServer rest feed
      | o => o
      end
  end.

Global Arguments startBucket : simpl never.
Global Arguments restartBucket : simpl never.
Global Arguments shutdownBucket : simpl never.
Global Arguments addBucket : simpl never.

(** * Views of the state and scenarios *)

(** The partitions that a map of timestamps records for a bucket; an
    absent entry and a nil entry record none. *)
Definition partitions (m : gmap string (option TsVbuuid)) (b : string) : list Z :=
  GetVbnos (map_index None m b).1.

(** The entries that a map of timestamps records for a bucket. *)
Definition entries (m : gmap string (option TsVbuuid)) (b : string) : list Entry :=
  from_option Entries [] (map_index None m b).1.

(** The per-bucket state of the feed. *)
Definition bucket_state (feed : Feed) (b : string) :=
  (reqTss feed !! b, actTss feed !! b, rollTss feed !! b,
   feeders feed !! b, kvdata feed !! b, engines feed !! b).

(** One of the three timestamps of the bucket is absent. *)
Definition bucket_absent (feed : Feed) (b : string) : Prop :=
  reqTss feed !! b = None ∨ actTss feed !! b = None ∨ rollTss feed !! b = None.

(** The event is an [EndVbStreams] for the bucket. *)
Definition ends_stream_of (b : string) (ev : Event) : Prop :=
  match ev with
  | EvEndVbStreams _ _ ts => GetBucket ts = b
  | _ => False
  end.

(** What one iteration of the loop of [shutdownVbuckets] leaves alone, for
    a bucket [b] other than the one of its timestamp. *)
Definition shutdown_frame (b : string) (f f' : Feed) : Prop :=
  bucket_state f' b = bucket_state f b
  ∧ ∃ new, trace f' = trace f ++ new ∧ Forall (λ ev, ¬ ends_stream_of b ev) new.

(** The malformed subscriber sets of the specification: an extraction
    fails, the two maps differ in length, or an id is in one map and not in
    the other. *)
Definition malformed (req : Subscriber) : Prop :=
  match GetEvaluators req, GetRouters req with
  | inl _, _ => True
  | inr _, inl _ => True
  | inr evaluators, inr routers =>
      size evaluators ≠ size routers
      ∨ ∃ id : Z, (is_Some (evaluators !! id) ∧ routers !! id = None)
                  ∨ (evaluators !! id = None ∧ is_Some (routers !! id))
  end.

(** ** The invariant of the three timestamps *)

(** A partition number that fits 16 bits. *)
Definition wrapped (v : Z) : Prop := Z.land v 65535 = v.

Definition disjoint_lists (l k : list Z) : Prop := ∀ x, x ∈ l → x ∉ k.

(** The outstanding, active and rolled-back partitions of one bucket:
    no partition is outstanding twice, and the three are pairwise
    disjoint. *)
Definition books_ok (R A L : list Z) : Prop :=
  NoDup R ∧ disjoint_lists R A ∧ disjoint_lists R L ∧ disjoint_lists A L.

Definition partition_invariant (feed : Feed) : Prop :=
  ∀ b : string,
    books_ok (partitions (reqTss feed) b) (partitions (actTss feed) b)
             (partitions (rollTss feed) b).

(** The second feed has the timestamps and the back channel of the
    first. *)
Definition same_books (f f' : Feed) : Prop :=
  reqTss f' = reqTss f ∧ actTss f' = actTss f ∧ rollTss f' = rollTss f
  ∧ backch f' = backch f.

(** The stream request that a message of the back channel answers:
    bucket, opaque and partition. *)
Definition request_key (msg : message) : option (string * Z * Z) :=
  match msg0 msg with
  | IStreamRequest v => Some (sr_bucket v, sr_opaque v, sr_vbno v)
  | _ => None
  end.

(** No stream request is answered twice in the channel. *)
Definition distinct_feedback (ch : list message) : Prop := NoDup (omap request_key ch).

(** What the data path posts during the iterations [i], ..., [i + n - 1]
    of the loop of a command. *)
Definition arrivals_from (env : Env) (i n : nat) : list message :=
  flat_map (λ j, o_arrivals (env_bucket env j)) (seq i n).

(** Each timestamp of the request lists a partition once, and no stream
    request is answered twice among the messages that wait in the back
    channel or arrive while the command runs. *)
Definition good_request (feed : Feed) (env : Env) (tss : list TsVbuuid) : Prop :=
  Forall (λ ts, NoDup (e_vbno <$> Entries ts)) tss
  ∧ distinct_feedback (backch feed ++ arrivals_from env 0 (length tss)).

(** The turns that the invariant is stated for: every turn but an
    AddBuckets command; the requests of Start and RestartVbuckets are
    good. *)
Definition good_turn (feed : Feed) (t : Turn) : Prop :=
  match t with
  | TurnCommand env (CmdStart req) => good_request feed env (mt_ReqTimestamps req)
  | TurnCommand env (CmdRestartVbuckets req) => good_request feed env (rv_RestartTimestamps req)
  | TurnCommand env (CmdAddBuckets req) => False
  | _ => True
  end.

Fixpoint good_run (turns : list Turn) (feed : Feed) : Prop :=
  match turns with
  | [] => True
  | t :: rest =>
      good_turn feed t
      ∧ match genServer_turn t feed with
        | Running feed' => good_run rest feed'
        | _ => True
        end
  end.

(** ** A request whose streams are all acknowledged *)

(** The partitions of a request timestamp that the node owns. *)
Definition local_partitions (o : BucketOracle) (ts : TsVbuuid) : list Z :=
  match getLocalVbuckets o with
  | inr vbnos => GetVbnos (SelectByVbuckets (Some ts) vbnos)
  | inl _ => []
  end.














(** ** Scenarios *)

Module Scenario.

Definition entry (vbno seqno vbuuid start end_ : Z) : Entry :=
  {| e_vbno := vbno; e_seqno := seqno; e_vbuuid := vbuuid;
     e_start := start; e_end := end_ |}.

(** A request timestamp of bucket "b" in pool "default". *)
Definition ts_b (es : list Entry) : TsVbuuid :=
  {| Pool := "default"; Bucket := "b"; Entries := es |}.

(** A network in which every address is its own canonical form, every
    endpoint is alive and the factory succeeds. *)
Definition net_ok : Network :=
  {| EquivalentIP := λ raddr _, inr raddr;
     Ping := λ _, true;
     epFactory := λ _ _ _, inr {| ep_id := 1 |} |}.

(** A network in which the endpoint factory fails. *)
Definition net_down : Network :=
  {| EquivalentIP := λ raddr _, inr raddr;
     Ping := λ _, false;
     epFactory := λ _ _ _, inl (ErrorOther "connection refused") |}.

(** The node owns partitions 0 to 7, the upstream accepts every request,
    and the data path posts [arrivals] while the reconciler waits. *)
Definition oracle (arrivals : list message) : BucketOracle :=
  {| o_vbnos32 := Some [0; 1; 2; 3; 4; 5; 6; 7]%Z;
     o_details_ok := true;
     o_open := Opened 42;
     o_stream_ok := true;
     o_arrivals := arrivals;
     o_patience := 16 |}.

(** The cluster information cannot be fetched. *)
Definition oracle_no_cluster : BucketOracle :=
  {| o_vbnos32 := None;
     o_details_ok := true;
     o_open := Opened 42;
     o_stream_ok := true;
     o_arrivals := [];
     o_patience := 16 |}.

(** The clock reads 3 * 2^26 ns, so that the opaque of the command is 3. *)
Definition env (net : Network) (o : BucketOracle) : Env :=
  {| env_now := 201326592; env_bucket := λ _, o; env_net := net |}.

Definition no_subscribers : Subscriber :=
  {| GetEvaluators := inr ∅; GetRouters := inr ∅ |}.

(** One evaluator and no router. *)
Definition bad_subscribers : Subscriber :=
  {| GetEvaluators := inr {[ 17%Z := {| ev_bucket := "b" |} ]}; GetRouters := inr ∅ |}.

Definition start_req (es : list Entry) : MutationTopicRequest :=
  {| mt_EndpointType := "dataport";
     mt_ReqTimestamps := [ts_b es];
     mt_Subscriber := no_subscribers |}.

Definition stream_request (status : Status) (vbno seqno vbuuid : Z) : message :=
  singleton_msg (IStreamRequest
    {| sr_bucket := "b"; sr_opaque := 3; sr_status := status;
       sr_vbno := vbno; sr_vbuuid := vbuuid; sr_seqno := seqno |}).

Definition stream_end (status : Status) (vbno : Z) : message :=
  singleton_msg (IStreamEnd
    {| se_bucket := "b"; se_opaque := 3; se_status := status; se_vbno := vbno |}).

Definition fresh : Feed := NewFeed "topic" "localhost:9000" 1024 1000 1000.

(** Partition 1 of "b" is active: a Start of it was acknowledged. *)
Definition active1 : Feed :=
  (start (env net_ok (oracle [stream_request SUCCESS 1 100 7]))
         (start_req [entry 1 100 7 0 0]) fresh).2.

(** Partition 5 of "b" is outstanding: a Start of it saw no response. *)
Definition outstanding5 : Feed :=
  (start (env net_ok (oracle [])) (start_req [entry 5 500 7 0 0]) fresh).2.

(** Partition 1 of "b" is outstanding; its request carries the snapshot
    range 5 to 9. *)
Definition outstanding1_ranged : Feed :=
  (start (env net_ok (oracle [])) (start_req [entry 1 100 7 5 9]) fresh).2.

(** A run of the actor: a Start of partitions 1 and 2 of "b" that sees
    the SUCCESS of partition 1 and times out; the late SUCCESS of partition
    2, posted and then flushed; a RestartVbuckets of partition 3 that is
    answered with ROLLBACK; a ShutdownVbuckets of partition 1. *)
Definition run : list Turn :=
  [ TurnCommand (env net_ok (oracle [stream_request SUCCESS 1 100 7]))
      (CmdStart (start_req [entry 1 100 7 0 0; entry 2 200 7 0 0]));
    TurnPost (stream_request SUCCESS 2 200 7);
    TurnBackch;
    TurnTick;
    TurnCommand (env net_ok (oracle [stream_request ROLLBACK 3 250 7]))
      (CmdRestartVbuckets {| rv_RestartTimestamps := [ts_b [entry 3 300 7 0 0]] |});
    TurnCommand (env net_ok (oracle [stream_end SUCCESS 1]))
      (CmdShutdownVbuckets {| sv_ShutdownTimestamps := [ts_b [entry 1 0 0 0 0]] |}) ].





(** The upstream acknowledges the start of partition 2 of "b". *)
Definition env_start2 : Env := env net_ok (oracle [stream_request SUCCESS 2 200 7]).

(** The upstream acknowledges the end of partitions 1 and 2 of "b". *)
Definition env_end12 : Env :=
  env net_ok (oracle [stream_end SUCCESS 1; stream_end SUCCESS 2]).


End Scenario.

(** ** Subscribers and endpoints of the scenarios *)

Module Sample.

(** One evaluator of bucket "b" and its router, under the same id. *)
Definition evaluators : gmap Z Evaluator := {[ 17%Z := {| ev_bucket := "b" |} ]}.

Definition routers : gmap Z Router :=
  {[ 17%Z := {| rt_endpoints := ["localhost:9998"] |} ]}.

Definition subs : Subscriber :=
  {| GetEvaluators := inr evaluators; GetRouters := inr routers |}.

Definition repair_req : RepairEndpointsRequest :=
  {| re_Topic := "topic"; re_Endpoints := ["localhost:9998"] |}.

(** The endpoint of "localhost:9998" is started. *)
Definition repaired : Feed :=
  (repairEndpoints Scenario.net_ok repair_req Scenario.fresh).2.

End Sample.

(** ** Views of the engines, the endpoints and the upstreams *)

(** The engine that the feed holds for an instance id under a bucket. *)
Definition engine_at (feed : Feed) (b : string) (uuid : Z) : option Engine :=
  engines feed !! b ≫= λ m, m !! uuid.

(** The maps of the feed that the stream requests and stream ends of a
    command work on. *)
Definition streams (feed : Feed) :=
  (reqTss feed, actTss feed, rollTss feed, feeders feed, kvdata feed).

(** A network that resolves every address and always starts an
    endpoint. *)
Definition reliable (net : Network) : Prop :=
  (∀ raddr raddrs, ∃ eqRaddr, EquivalentIP net raddr raddrs = inr eqRaddr)
  ∧ (∀ topic_ typ raddr, ∃ ep, epFactory net topic_ typ raddr = inr ep).

(** One of the three timestamps of the bucket records a partition. *)
Definition has_partitions (feed : Feed) (b : string) : Prop :=
  partitions (reqTss feed) b ≠ []
  ∨ partitions (actTss feed) b ≠ []
  ∨ partitions (rollTss feed) b ≠ [].

(** A bucket with an outstanding partition has an active and a rollback
    timestamp to append to. *)
Definition appendable (feed : Feed) : Prop :=
  ∀ b, partitions (reqTss feed) b ≠ [] →
       (∃ actTs, actTss feed !! b = Some (Some actTs))
       ∧ (∃ rollTs, rollTss feed !! b = Some (Some rollTs)).

(** A bucket that records a partition has an upstream. *)
Definition upstream_backed (feed : Feed) : Prop :=
  ∀ b, has_partitions feed b → is_Some (feeders feed !! b).

(** A bucket that has an upstream has a data path. *)
Definition data_path_backed (feed : Feed) : Prop :=
  ∀ b, is_Some (feeders feed !! b) → is_Some (kvdata feed !! b).

(** What one iteration of the loops of [start], [restartVbuckets] and
    [addBuckets] does to the tables of the feed: the bucket is cleaned
    up, or it gets its feeder, its data path and its three timestamps,
    the active and the rollback one by a union with a timestamp of the
    reconciler. *)
Definition requested (b : string) (feed feed' : Feed) : Prop :=
  engines feed' = engines feed ∧ endpoints feed' = endpoints feed
  ∧ ((reqTss feed' = delete b (reqTss feed) ∧ actTss feed' = delete b (actTss feed)
      ∧ rollTss feed' = delete b (rollTss feed) ∧ feeders feed' = delete b (feeders feed)
      ∧ kvdata feed' = delete b (kvdata feed))
     ∨ ∃ reqTs actTs a rollTs r feeder kv,
         reqTss feed' = <[b := reqTs]> (reqTss feed)
         ∧ actTss feed' = <[b := Union actTs (Some a)]> (actTss feed)
         ∧ rollTss feed' = <[b := Union rollTs (Some r)]> (rollTss feed)
         ∧ feeders feed' = <[b := feeder]> (feeders feed)
         ∧ kvdata feed' = <[b := kv]> (kvdata feed)).

(** What one iteration of the loop of [shutdownVbuckets] does to them:
    nothing, or the three timestamps of the bucket, all present, lose the
    partitions whose stream end was acknowledged. *)
Definition ended (b : string) (feed feed' : Feed) : Prop :=
  feeders feed' = feeders feed ∧ kvdata feed' = kvdata feed
  ∧ engines feed' = engines feed ∧ endpoints feed' = endpoints feed
  ∧ ((reqTss feed' = reqTss feed ∧ actTss feed' = actTss feed
      ∧ rollTss feed' = rollTss feed)
     ∨ ∃ vbnos reqTs actTs rollTs,
         reqTss feed !! b = Some reqTs ∧ actTss feed !! b = Some actTs
         ∧ rollTss feed !! b = Some rollTs
         ∧ reqTss feed' = <[b := FilterByVbuckets reqTs vbnos]> (reqTss feed)
         ∧ actTss feed' = <[b := FilterByVbuckets actTs vbnos]> (actTss feed)
         ∧ rollTss feed' = <[b := FilterByVbuckets rollTs vbnos]> (rollTss feed)).

(** The timestamps, the upstream and the data path of one bucket. *)
Definition stream_state (feed : Feed) (b : string) :=
  (reqTss feed !! b, actTss feed !! b, rollTss feed !! b, feeders feed !! b,
   kvdata feed !! b).

(** What the callback of [waitStreamRequests] keeps true of its captured
    variables: each expected partition is still awaited or is classified,
    and the error is set exactly when a partition has failed. *)
Definition request_progress (expected : list Z) (st : reqWait) : Prop :=
  (∀ x, x ∈ expected →
        x ∈ w_vbnos st ∨ x ∈ GetVbnos (Some (w_actTs st))
        ∨ x ∈ GetVbnos (Some (w_rollTs st)) ∨ x ∈ GetVbnos (Some (w_failTs st)))
  ∧ (w_err st = None ↔ GetVbnos (Some (w_failTs st)) = [])
  ∧ (w_err st = None ∨ w_err st = Some ErrorNotMyVbucket
     ∨ w_err st = Some ErrorStreamRequest).

(** The same for the callback of [waitStreamEnds]. *)
Definition end_progress (expected : list Z) (st : endWait) : Prop :=
  (∀ x, x ∈ expected →
        x ∈ x_vbnos st ∨ x ∈ GetVbnos (Some (x_endTs st))
        ∨ x ∈ GetVbnos (Some (x_failTs st)))
  ∧ (x_err st = None ↔ GetVbnos (Some (x_failTs st)) = [])
  ∧ (x_err st = None ∨ x_err st = Some ErrorNotMyVbucket
     ∨ x_err st = Some ErrorStreamEnd).

(** What one iteration of the loops of [start] and [restartVbuckets] may
    ask of the upstream: it ends no stream, and a stream request carries
    the opaque of the command and a timestamp of the bucket whose
    partitions are local partitions of the request that are neither
    active nor outstanding in the feed. *)
Definition requests_only_fresh (opaque : Z) (feed : Feed) (o : BucketOracle)
    (ts : TsVbuuid) (ev : Event) : Prop :=
  match ev with
  | EvStartVbStreams _ opq ts' =>
      opq = opaque ∧ GetBucket ts' = Bucket ts
      ∧ ∀ x, x ∈ GetVbnos ts' →
             x ∈ local_partitions o ts
             ∧ x ∉ partitions (actTss feed) (Bucket ts)
             ∧ x ∉ partitions (reqTss feed) (Bucket ts)
  | EvEndVbStreams _ _ _ => False
  | _ => True
  end.

(** The calls that the loops of [startEndpoints] and [repairEndpoints]
    make for the addresses [raddrs]: the lookup of an address, the ping
    of an endpoint, and the factory for an address. *)
Definition endpoint_call (topic_ typ : string) (raddrs : list string) (ev : Event) : Prop :=
  match ev with
  | EvEquivalentIP raddr => raddr ∈ raddrs
  | EvEndpointPing _ => True
  | EvEpFactory t ty raddr => t = topic_ ∧ ty = typ ∧ raddr ∈ raddrs
  | _ => False
  end.

(** The address that an event looks up. *)
Definition looked_up (ev : Event) : option string :=
  match ev with
  | EvEquivalentIP raddr => Some raddr
  | _ => None
  end.

(** The answers that a callback gives to the messages, one after the
    other, with the state of its captured variables after the last. *)
Fixpoint answers {S : Type} (callb : S → iface → string * S) (st : S)
    (msgs : list message) : list string * S :=
  match msgs with
  | [] => ([], st)
  | msg :: rest =>
      let '(verdict, st1) := callb st (msg0 msg) in
      let '(verdicts, st2) := answers callb st1 rest in
      (verdict :: verdicts, st2)
  end.

(** The messages that were answered with "skip". *)
Definition skipped_of (msgs : list message) (verdicts : list string) : list message :=
  (filter (λ mv : message * string, mv.2 = "skip") (zip msgs verdicts)).*1.

(** What a stream end of a partition does to a map of timestamps: the
    timestamp of the bucket loses the entries of the partition and keeps
    its other entries as they are; a bucket that the map does not have,
    or has with a nil timestamp, is in the map with a nil timestamp
    afterwards; the other buckets keep what they have. *)
Definition stream_ended (b : string) (vbno : Z)
    (m m' : gmap string (option TsVbuuid)) : Prop :=
  m' !! b = match m !! b with
            | Some (Some t) =>
                Some (Some (with_Entries t (filter (λ e, e_vbno e ≠ vbno) (Entries t))))
            | _ => Some None
            end
  ∧ ∀ b', b' ≠ b → m' !! b' = m !! b'.

(** The three conditions that the turns of the actor maintain. *)
Definition backed (feed : Feed) : Prop :=
  appendable feed ∧ upstream_backed feed ∧ data_path_backed feed.

(** * Properties *)

(** ** Two scenarios of the specification *)

(** Rollback on one partition: partitions 0 and 2 become active, partition
    1 is rolled back to the seqno of the response, nothing stays
    outstanding and the Start reports no error. *)
Example scenario_rollback :
  let res :=
    start (Scenario.env Scenario.net_ok
             (Scenario.oracle [Scenario.stream_request SUCCESS 0 100 10;
                               Scenario.stream_request ROLLBACK 1 150 11;
                               Scenario.stream_request SUCCESS 2 300 12]))
          (Scenario.start_req [Scenario.entry 0 100 10 0 0; Scenario.entry 1 200 11 0 0;
                               Scenario.entry 2 300 12 0 0])
          Scenario.fresh in
  res.1 = None
  ∧ partitions (actTss res.2) "b" = [0; 2]%Z
  ∧ entries (rollTss res.2) "b" = [Scenario.entry 1 150 11 0 0]
  ∧ partitions (reqTss res.2) "b" = [].
Proof. repeat split; vm_compute; reflexivity. Qed.

(** Timeout: partition 2 never responds during the Start and stays
    outstanding; its late SUCCESS, flushed between commands, makes it
    active. *)
Example scenario_timeout :
  let e := Scenario.env Scenario.net_ok
             (Scenario.oracle [Scenario.stream_request SUCCESS 0 100 10;
                               Scenario.stream_request SUCCESS 1 200 11]) in
  let req := Scenario.start_req [Scenario.entry 0 100 10 0 0; Scenario.entry 1 200 11 0 0;
                                 Scenario.entry 2 300 12 0 0] in
  let res := start e req Scenario.fresh in
  let later :=
    feed_of (genServer [TurnPost (Scenario.stream_request SUCCESS 2 300 12); TurnBackch]
                       res.2) in
  res.1 = Some ErrorResponseTimeout
  ∧ partitions (actTss res.2) "b" = [0; 1]%Z
  ∧ partitions (reqTss res.2) "b" = [2]%Z
  ∧ partitions (actTss later) "b" = [0; 1; 2]%Z
  ∧ partitions (reqTss later) "b" = [].
Proof. repeat split; vm_compute; reflexivity. Qed.

(** ** The reconciler on an empty expectation *)

(** C10.  When the expected timestamp lists no partition,
    [waitStreamRequests] and [waitStreamEnds] return at once: their output
    timestamps are empty, the error is nil, and the feed is unchanged, so
    that no message has left the back channel and no timer has been set,
    whatever the data path posts and however long the reconciler would be
    willing to wait. *)
Theorem wait_on_no_partition_returns_at_once
    (opaque : Z) (pooln bucketn : string) (ts : option TsVbuuid)
    (o : BucketOracle) (feed : Feed) :
  GetVbnos ts = [] →
  waitStreamRequests opaque pooln bucketn ts o feed
    = (NewTsVbuuid (GetPool ts) (GetBucket ts) 0,
       NewTsVbuuid (GetPool ts) (GetBucket ts) 0,
       NewTsVbuuid (GetPool ts) (GetBucket ts) 0, None, feed)
  ∧ waitStreamEnds opaque bucketn ts o feed
    = (NewTsVbuuid (GetPool ts) (GetBucket ts) 0,
       NewTsVbuuid (GetPool ts) (GetBucket ts) 0, None, feed).
Proof.
  intros Hnone.
  unfold waitStreamRequests, waitStreamEnds.
  rewrite Hnone. split; reflexivity.
Qed.

(** ** Repairing endpoints *)

(** C9.  [repairEndpoints] answers nil for every request, every feed and
    every behaviour of the network: the errors that the loop stores in its
    named result never reach the caller. *)
Theorem repairEndpoints_always_nil
    (net : Network) (req : RepairEndpointsRequest) (feed : Feed) :
  (repairEndpoints net req feed).1 = None.
Proof.
  unfold repairEndpoints.
  destruct (foldl (endpointStep net) (feed, None) (re_Endpoints req)) as [feed' err].
  reflexivity.
Qed.

(** ** Malformed subscriber sets *)

Lemma subscribers_malformed (req : Subscriber) :
  malformed req → subscribers req = inl ErrorInconsistentFeed.
Proof.
  unfold malformed, subscribers.
  destruct (GetEvaluators req) as [e1|evaluators]; [done|].
  destruct (GetRouters req) as [e2|routers]; [done|].
  intros Hbad.
  case_bool_decide as Hsize; [done|].
  assert (size evaluators = size routers) as Heq by (destruct (decide (size evaluators = size routers)); [done|contradiction]).
  destruct (forallb _ _) eqn:Hall; [|done].
  exfalso.
  assert (dom evaluators ⊆ dom routers) as Hsub.
  { intros id [ev Hid]%elem_of_dom.
    apply elem_of_dom.
    assert (Forall (λ kv : Z * Evaluator, bool_decide (is_Some (routers !! kv.1)))
                   (map_to_list evaluators)) as Hfa.
    { apply forallb_True. rewrite Hall. done. }
    rewrite Forall_forall in Hfa.
    specialize (Hfa (id, ev)). simpl in Hfa.
    eapply bool_decide_unpack, Hfa.
    by apply elem_of_map_to_list. }
  assert (dom evaluators = dom routers) as Hdom.
  { apply set_subseteq_size_eq; [done|]. rewrite !size_dom. lia. }
  destruct Hbad as [Hne|[id [[Hin Hout]|[Hout Hin]]]].
  - done.
  - apply elem_of_dom in Hin. rewrite Hdom in Hin.
    apply elem_of_dom in Hin. rewrite Hout in Hin. by destruct Hin.
  - apply elem_of_dom in Hin. rewrite <- Hdom in Hin.
    apply elem_of_dom in Hin. rewrite Hout in Hin. by destruct Hin.
Qed.

(** C8, as the code has it.  A malformed subscriber set fails the command
    with [ErrorInconsistentFeed].  [addBuckets] and [addInstances] leave
    the feed as it was; [start] has stored the endpoint type of the request
    before it looks at the subscribers, and changes nothing else. *)
Theorem malformed_subscribers_fail_the_command (env : Env) (feed : Feed) (sub : Subscriber) :
  malformed sub →
  (∀ req, mt_Subscriber req = sub →
     start env req feed
       = (Some ErrorInconsistentFeed, set_endpointType (mt_EndpointType req) feed))
  ∧ (∀ req, ab_Subscriber req = sub →
       addBuckets env req feed = (Some ErrorInconsistentFeed, feed))
  ∧ (∀ req, ai_Subscriber req = sub →
       addInstances env req feed = (Some ErrorInconsistentFeed, feed)).
Proof.
  intros Hbad. pose proof (subscribers_malformed sub Hbad) as Hsub.
  repeat split; intros req <-.
  - unfold start, processSubscribers. by rewrite Hsub.
  - unfold addBuckets, processSubscribers. by rewrite Hsub.
  - unfold addInstances, processSubscribers. by rewrite Hsub.
Qed.

(** ** Flushing a stream-request result *)

(** C5 as stated does not hold: the entry that a SUCCESS moves to the
    active timestamp keeps the snapshot range of the outstanding request,
    here 5 to 9, whatever the branch. *)
Lemma flushed_success_keeps_the_range :
  ∃ feed',
    handleBackch (Scenario.stream_request SUCCESS 1 100 7) Scenario.outstanding1_ranged
      = Flushed feed'
    ∧ entries (actTss Scenario.outstanding1_ranged) "b" = []
    ∧ entries (actTss feed') "b" = [Scenario.entry 1 100 7 5 9]
    ∧ ∀ branch, entries (actTss feed') "b" ≠ [Scenario.entry 1 100 branch 0 0].
Proof.
  eexists. split; [vm_compute; reflexivity|].
  split; [vm_compute; reflexivity|].
  split; [vm_compute; reflexivity|].
  intros branch H. vm_compute in H. discriminate H.
Qed.

(** C5, as the code has it.  A stream-request result whose partition has
    no entry in [reqTs[bucket]] is dropped without any change.  Otherwise
    the partition leaves [reqTs[bucket]]; on ROLLBACK the entry (partition,
    seqno of the message, branch and range of the outstanding request) is
    appended to [rollTs[bucket]], on SUCCESS the entry (partition, seqno,
    branch and range of the outstanding request) is appended to
    [actTs[bucket]], when that timestamp is there; on any other status
    nothing is appended. *)
Theorem flush_of_stream_request (msg : message) (v : controlStreamRequest) (feed : Feed) :
  msg0 msg = IStreamRequest v →
  let b := sr_bucket v in
  let reqTs := (map_index None (reqTss feed) b).1 in
  let feed1 := set_reqTss (<[b := FilterByVbuckets reqTs [sr_vbno v]]> (reqTss feed)) feed in
  (Get reqTs (sr_vbno v) = None → handleBackch msg feed = Flushed feed)
  ∧ (∀ seqno vbuuid sStart sEnd,
       Get reqTs (sr_vbno v) = Some (seqno, vbuuid, sStart, sEnd) →
       (∀ rollTs, sr_status v = ROLLBACK → rollTss feed !! b = Some (Some rollTs) →
          handleBackch msg feed
            = Flushed (set_rollTss
                (<[b := Some (Append rollTs (sr_vbno v) (sr_seqno v) vbuuid sStart sEnd)]>
                   (rollTss feed)) feed1))
       ∧ (∀ actTs, sr_status v = SUCCESS → actTss feed !! b = Some (Some actTs) →
            handleBackch msg feed
              = Flushed (set_actTss
                  (<[b := Some (Append actTs (sr_vbno v) seqno vbuuid sStart sEnd)]>
                     (actTss feed)) feed1))
       ∧ (sr_status v ≠ ROLLBACK → sr_status v ≠ SUCCESS →
            handleBackch msg feed = Flushed feed1)).
Proof.
  intros Hmsg b reqTs feed1. unfold handleBackch. rewrite Hmsg.
  subst reqTs feed1 b. unfold map_index.
  destruct (reqTss feed !! sr_bucket v) as [reqTs|] eqn:Hreq; simpl.
  - split.
    + intros ->. done.
    + intros seqno vbuuid sStart sEnd ->. repeat split.
      * intros rollTs -> Hroll. simpl. by rewrite Hroll.
      * intros actTs -> Hact. simpl. by rewrite Hact.
      * intros Hr Hs. by rewrite !bool_decide_eq_false_2.
  - split; [done|]. intros ????. discriminate.
Qed.

(** ** Feedback set aside by the reconciler *)

(** The slice in which [waitOnFeedback] sends a message back is flushed by
    the actor without any effect, whatever the message was. *)
Lemma wrapped_message_is_dropped (msg : message) (feed : Feed) :
  handleBackch (singleton_msg (to_iface msg)) feed = Flushed feed.
Proof. reflexivity. Qed.

(** Both reconcilers set such a slice aside again. *)
Lemma wrapped_message_is_skipped (msg : message) opaque bucketn ts :
  (∀ st, streamRequestCallb opaque bucketn ts st (msg0 (singleton_msg (to_iface msg)))
           = ("skip", st))
  ∧ (∀ st, streamEndCallb opaque bucketn ts st (msg0 (singleton_msg (to_iface msg)))
             = ("skip", st)).
Proof. split; reflexivity. Qed.

(** C2, on the code.  Partition 1 of "b" is active.  A Start of partition
    2 times out while the stream-end of partition 1 arrives; the reconciler
    sets the stream-end aside and sends it back wrapped in a second slice.
    The next turn of the actor receives the slice and drops it: partition
    1 stays active, although the stream-end itself, had it been received,
    removes it. *)
Theorem requeued_stream_end_is_dropped :
  let feed :=
    (start (Scenario.env Scenario.net_ok
              (Scenario.oracle [Scenario.stream_end SUCCESS 1]))
           (Scenario.start_req [Scenario.entry 2 200 7 0 0]) Scenario.active1).2 in
  partitions (actTss Scenario.active1) "b" = [1%Z]
  ∧ backch feed = [singleton_msg (to_iface (Scenario.stream_end SUCCESS 1))]
  ∧ (∃ feed', genServer_turn TurnBackch feed = Running feed'
              ∧ backch feed' = []
              ∧ partitions (actTss feed') "b" = [1%Z])
  ∧ (∃ feed', handleBackch (Scenario.stream_end SUCCESS 1) (set_backch [] feed)
                = Flushed feed'
              ∧ partitions (actTss feed') "b" = []).
Proof.
  intros feed. split; [vm_compute; reflexivity|].
  split; [vm_compute; reflexivity|].
  split.
  - eexists. split; [vm_compute; reflexivity|]. split; vm_compute; reflexivity.
  - eexists. split; [vm_compute; reflexivity|]. vm_compute; reflexivity.
Qed.

(** ** AddBuckets and RestartVbuckets against Start *)

(** C3, on the code.  Partition 1 of "b" is active.  [addBuckets] with the
    timestamp {1, 2} asks the upstream to start both partitions, and on a
    timeout records the active partition 1 as outstanding as well; [start]
    with the same timestamp asks for partition 2 alone. *)
Theorem addBuckets_requests_active_partition :
  let ts := [Scenario.entry 1 100 7 0 0; Scenario.entry 2 200 7 0 0] in
  let e := Scenario.env Scenario.net_ok (Scenario.oracle []) in
  let added :=
    (addBuckets e {| ab_ReqTimestamps := [Scenario.ts_b ts];
                     ab_Subscriber := Scenario.no_subscribers |} Scenario.active1).2 in
  let started := (start e (Scenario.start_req ts) Scenario.active1).2 in
  partitions (actTss Scenario.active1) "b" = [1%Z]
  ∧ drop (length (trace Scenario.active1)) (trace added)
    = [EvStartVbStreams {| feeder_name := "proj-b-topic-42" |} 3 (Some (Scenario.ts_b ts));
       EvUpdateTs "b" (Some (Scenario.ts_b ts));
       EvTimeAfter 1000]
  ∧ drop (length (trace Scenario.active1)) (trace started)
    = [EvStartVbStreams {| feeder_name := "proj-b-topic-42" |} 3
         (Some (Scenario.ts_b [Scenario.entry 2 200 7 0 0]));
       EvUpdateTs "b" (Some (Scenario.ts_b [Scenario.entry 2 200 7 0 0]));
       EvTimeAfter 1000]
  ∧ partitions (reqTss added) "b" = [1%Z; 2%Z]
  ∧ partitions (actTss added) "b" = [1%Z]
  ∧ partitions (reqTss started) "b" = [2%Z].
Proof. repeat split; vm_compute; reflexivity. Qed.

(** C4, on the code.  Partition 5 of "b" is outstanding.  After
    [restartVbuckets] with the timestamp {6} and no response from the
    upstream, [reqTs] records partition 6 alone: partition 5 is forgotten
    without a response.  [start] with the same timestamp keeps both. *)
Theorem restartVbuckets_forgets_outstanding :
  let e := Scenario.env Scenario.net_ok (Scenario.oracle []) in
  let restarted :=
    (restartVbuckets e
       {| rv_RestartTimestamps := [Scenario.ts_b [Scenario.entry 6 600 7 0 0]] |}
       Scenario.outstanding5).2 in
  let started :=
    (start e (Scenario.start_req [Scenario.entry 6 600 7 0 0]) Scenario.outstanding5).2 in
  partitions (reqTss Scenario.outstanding5) "b" = [5%Z]
  ∧ partitions (reqTss restarted) "b" = [6%Z]
  ∧ partitions (actTss restarted) "b" = []
  ∧ partitions (rollTss restarted) "b" = []
  ∧ partitions (reqTss started) "b" = [6%Z; 5%Z].
Proof. repeat split; vm_compute; reflexivity. Qed.

(** ** Malformed subscriber sets, continued *)

(** C8 as stated does not hold for Start: the command fails on the
    malformed subscriber set and the endpoint type of the feed has
    changed. *)
Lemma failed_start_changes_endpointType :
  let req := {| mt_EndpointType := "dataport";
                mt_ReqTimestamps := [];
                mt_Subscriber := Scenario.bad_subscribers |} in
  let res := start (Scenario.env Scenario.net_ok (Scenario.oracle [])) req Scenario.fresh in
  malformed Scenario.bad_subscribers
  ∧ res.1 = Some ErrorInconsistentFeed
  ∧ endpointType Scenario.fresh = ""
  ∧ endpointType res.2 = "dataport"
  ∧ res.2 ≠ Scenario.fresh.
Proof.
  repeat split.
  - right. exists 17%Z. left. split; [|done]. by eexists.
  - intros H. apply (f_equal endpointType) in H. vm_compute in H. discriminate H.
Qed.

(** ** Frames of the helpers *)

Lemma set_trace_backch_id (f : Feed) : set_backch (backch f) (set_trace (trace f ++ []) f) = f.
Proof. destruct f. unfold set_backch, set_trace. simpl. by rewrite app_nil_r. Qed.

Lemma forRange_app {A : Type} (body : nat → A → TsVbuuid → A) (l1 l2 : list TsVbuuid) :
  ∀ (i : nat) (acc : A),
    forRange body i (l1 ++ l2) acc
      = forRange body (i + length l1) l2 (forRange body i l1 acc).
Proof.
  induction l1 as [|ts l1 IH]; intros i acc; simpl.
  - by rewrite Nat.add_0_r.
  - rewrite IH. f_equal. lia.
Qed.

(** [waitOnFeedback] touches the back channel only. *)
Lemma waitOnFeedback_frame {S : Type} (callb : S → iface → string * S)
    (patience : nat) (st : S) (feed : Feed) :
  ∃ bc, (waitOnFeedback callb patience st feed).2 = set_backch bc feed.
Proof.
  unfold waitOnFeedback.
  destruct (waitOnFeedback_loop callb patience (backch feed) st []) as [[[err ch] st'] msgs].
  by eexists.
Qed.

(** The events of [bucketFeed] concern the bucket of its timestamp. *)
Lemma bucketFeed_frame opaque stop start_ reqTs o feed :
  ∃ new, (bucketFeed opaque stop start_ reqTs o feed).2
           = set_trace (trace feed ++ new) feed
         ∧ Forall (λ ev, ∀ b, ends_stream_of b ev → b = GetBucket reqTs) new.
Proof.
  unfold bucketFeed.
  assert (feed = set_trace (trace feed ++ []) feed) as Hid.
  { destruct feed. unfold set_trace. simpl. by rewrite app_nil_r. }
  destruct (o_details_ok o); simpl; [|by exists []].
  destruct (feeders feed !! GetBucket reqTs) as [feeder|].
  - destruct stop; [|destruct start_]; destruct (o_stream_ok o); simpl;
      try (by exists []);
      (eexists [_]; split; [reflexivity|]; repeat constructor; simpl; try done;
       by intros b <-).
  - destruct (o_open o); simpl; try (by exists []).
    destruct stop; [|destruct start_]; destruct (o_stream_ok o); simpl;
      unfold emit; simpl; rewrite <- ?app_assoc; simpl;
      (eexists; split; [reflexivity|]; repeat constructor; simpl; try done;
       by intros b <-).
Qed.

(** [waitStreamEnds] sets a timer and touches the back channel. *)
Lemma waitStreamEnds_frame opaque bucketn ts o feed :
  ∃ bc new, (waitStreamEnds opaque bucketn ts o feed).2
              = set_backch bc (set_trace (trace feed ++ new) feed)
            ∧ Forall (λ ev, ∀ b, ¬ ends_stream_of b ev) new.
Proof.
  unfold waitStreamEnds.
  case_bool_decide.
  - exists (backch feed), []. by rewrite set_trace_backch_id.
  - match goal with
    | |- context [waitOnFeedback ?c ?p ?s ?f] =>
        destruct (waitOnFeedback_frame c p s f) as [bc Hbc];
        destruct (waitOnFeedback c p s f) as [[err1 st'] feed'] eqn:Hw
    end.
    simpl in Hbc. subst feed'. simpl.
    exists bc, [EvTimeAfter (endTimeout feed)]. split; [reflexivity|].
    apply Forall_singleton. intros b Hb. exact Hb.
Qed.

(** ** ShutdownVbuckets on a bucket that is not there *)

Lemma shutdown_frame_refl b f : shutdown_frame b f f.
Proof. split; [done|]. exists []. by rewrite app_nil_r. Qed.

Lemma shutdown_frame_trans b f1 f2 f3 :
  shutdown_frame b f1 f2 → shutdown_frame b f2 f3 → shutdown_frame b f1 f3.
Proof.
  intros [Hs1 (n1 & Ht1 & Hn1)] [Hs2 (n2 & Ht2 & Hn2)]. split; [congruence|].
  exists (n1 ++ n2). rewrite Ht2, Ht1, app_assoc. split; [done|].
  by apply Forall_app.
Qed.

Lemma bucket_absent_state b f f' :
  bucket_state f' b = bucket_state f b → bucket_absent f b → bucket_absent f' b.
Proof.
  unfold bucket_state, bucket_absent. intros Heq. injection Heq as -> -> -> _ _ _. done.
Qed.

Lemma shutdownBucket_absent opaque env i feed err ts :
  bucket_absent feed (Bucket ts) →
  shutdownBucket opaque env i (feed, err) ts
    = (feed, Some (match o_vbnos32 (env_bucket env i) with
                   | None => ErrorClusterInfo
                   | Some _ => ErrorInvalidBucket
                   end)).
Proof.
  intros Habs. unfold shutdownBucket, getLocalVbuckets, map_index.
  destruct (o_vbnos32 (env_bucket env i)); [|done].
  destruct Habs as [H|[H|H]]; rewrite H;
    repeat (match goal with |- context [match ?m !! ?k with _ => _ end] =>
              destruct (m !! k) end); simpl; done.
Qed.

Lemma shutdownBucket_other opaque env i feed err ts b :
  Bucket ts ≠ b →
  shutdown_frame b feed (shutdownBucket opaque env i (feed, err) ts).1.
Proof.
  intros Hne. unfold shutdownBucket, map_index.
  destruct (getLocalVbuckets (env_bucket env i)) as [e|vbnos]; [apply shutdown_frame_refl|].
  destruct (actTss feed !! Bucket ts) as [actTs|];
    destruct (rollTss feed !! Bucket ts) as [rollTs|];
    destruct (reqTss feed !! Bucket ts) as [reqTs|];
    simpl; try apply shutdown_frame_refl.
  match goal with
  | |- context [bucketFeed ?a ?b ?c ?d ?e ?f] =>
      destruct (bucketFeed_frame a b c d e f) as (new1 & Hf1 & Hn1);
      destruct (bucketFeed a b c d e f) as [[[fd e1]|feeder] feed1]
  end; simpl in Hf1; subst feed1.
  - split; [done|]. exists new1. split; [done|].
    eapply Forall_impl; [exact Hn1|]. intros ev Hev Hb. by apply Hev in Hb.
  - match goal with
    | |- context [waitStreamEnds ?a ?b ?c ?d ?f] =>
        destruct (waitStreamEnds_frame a b c d f) as (bc & new2 & Hf2 & Hn2);
        destruct (waitStreamEnds a b c d f) as [[[endTs failTs] e2] feed2]
    end; simpl in Hf2; subst feed2. simpl.
    split.
    + unfold bucket_state. simpl. by rewrite !lookup_insert_ne.
    + exists (new1 ++ new2). rewrite app_assoc. split; [done|].
      apply Forall_app. split.
      * eapply Forall_impl; [exact Hn1|]. intros ev Hev Hb. by apply Hev in Hb.
      * eapply Forall_impl; [exact Hn2|]. intros ev Hev. apply Hev.
Qed.

Lemma shutdownBucket_err opaque env i feed err ts :
  err ≠ None → (shutdownBucket opaque env i (feed, err) ts).2 ≠ None.
Proof.
  intros Herr. unfold shutdownBucket.
  destruct (getLocalVbuckets _); [done|].
  repeat (destruct (map_index None _ _) as [? []]); simpl; try done.
  destruct (bucketFeed _ _ _ _ _ _) as [[[fd e1]|feeder] feed1]; [done|].
  destruct (waitStreamEnds _ _ _ _ _) as [[[endTs failTs] e2] feed2].
  simpl. by destruct e2.
Qed.

Lemma shutdown_loop_absent opaque env b (tss : list TsVbuuid) :
  ∀ i feed err,
    bucket_absent feed b →
    shutdown_frame b feed (forRange (shutdownBucket opaque env) i tss (feed, err)).1
    ∧ (err ≠ None → (forRange (shutdownBucket opaque env) i tss (feed, err)).2 ≠ None).
Proof.
  induction tss as [|ts tss IH]; intros i feed err Habs; simpl.
  - split; [apply shutdown_frame_refl|done].
  - destruct (decide (Bucket ts = b)) as [<-|Hne].
    + rewrite shutdownBucket_absent by done.
      destruct (IH (S i) feed
                  (Some (match o_vbnos32 (env_bucket env i) with
                         | None => ErrorClusterInfo
                         | Some _ => ErrorInvalidBucket
                         end)) Habs) as [Hfr Herr].
      split; [done|]. intros _. by apply Herr.
    + pose proof (shutdownBucket_other opaque env i feed err ts b Hne) as Hfr.
      pose proof (shutdownBucket_err opaque env i feed err ts) as Herr.
      destruct (shutdownBucket opaque env i (feed, err) ts) as [feed1 err1].
      simpl in Hfr, Herr.
      destruct (IH (S i) feed1 err1) as [Hfr' Herr'].
      { eapply bucket_absent_state; [apply Hfr|done]. }
      split; [by eapply shutdown_frame_trans|]. intros H. by apply Herr', Herr.
Qed.

(** C7 as stated does not hold: when the cluster information cannot be
    fetched, a ShutdownVbuckets of a bucket that the feed does not have
    reports [ErrorClusterInfo]. *)
Lemma shutdown_unknown_bucket_reports_cluster_info :
  let req := {| sv_ShutdownTimestamps := [Scenario.ts_b [Scenario.entry 1 100 7 0 0]] |} in
  let res := shutdownVbuckets (Scenario.env Scenario.net_ok Scenario.oracle_no_cluster)
               req Scenario.fresh in
  bucket_absent Scenario.fresh "b"
  ∧ res.1 = Some ErrorClusterInfo
  ∧ res.1 ≠ Some ErrorInvalidBucket.
Proof. repeat split; [by left|done]. Qed.

(** C7, as the code has it.  Let a ShutdownVbuckets request list a bucket
    [b] for which one of [reqTs[b]], [actTs[b]], [rollTs[b]] is absent.
    The call leaves the per-bucket state of [b] as it was, makes no
    [EndVbStreams] call for [b], and returns an error.  The error recorded
    for the bucket is [ErrorInvalidBucket] when the partitions of the node
    can be looked up and [ErrorClusterInfo] when they cannot; it is the
    error of the call when no timestamp follows in the request. *)
Theorem shutdown_of_absent_bucket (env : Env) (feed : Feed)
    (pre post : list TsVbuuid) (ts : TsVbuuid) :
  bucket_absent feed (Bucket ts) →
  let res := shutdownVbuckets env {| sv_ShutdownTimestamps := pre ++ ts :: post |} feed in
  bucket_state res.2 (Bucket ts) = bucket_state feed (Bucket ts)
  ∧ (∃ new, trace res.2 = trace feed ++ new
            ∧ Forall (λ ev, ¬ ends_stream_of (Bucket ts) ev) new)
  ∧ res.1 ≠ None
  ∧ (post = [] →
     res.1 = Some (match o_vbnos32 (env_bucket env (length pre)) with
                   | None => ErrorClusterInfo
                   | Some _ => ErrorInvalidBucket
                   end)).
Proof.
  intros Habs res. subst res. unfold shutdownVbuckets. simpl.
  rewrite forRange_app. simpl.
  destruct (shutdown_loop_absent (newOpaque (env_now env)) env (Bucket ts) pre 0 feed None Habs)
    as [Hfr1 _].
  destruct (forRange (shutdownBucket (newOpaque (env_now env)) env) 0 pre (feed, None))
    as [feed1 err1]. simpl in Hfr1.
  assert (bucket_absent feed1 (Bucket ts)) as Habs1.
  { eapply bucket_absent_state; [apply Hfr1|done]. }
  rewrite shutdownBucket_absent by done.
  match goal with
  | |- context [forRange ?body ?i post (feed1, Some ?e)] =>
      destruct (shutdown_loop_absent (newOpaque (env_now env)) env (Bucket ts) post i feed1
                  (Some e) Habs1) as [Hfr2 Herr2];
      destruct (forRange body i post (feed1, Some e)) as [feed2 err2] eqn:Hloop
  end.
  simpl in *.
  pose proof (shutdown_frame_trans _ _ _ _ Hfr1 Hfr2) as [Hstate Htrace].
  split; [done|]. split; [done|]. split; [by apply Herr2|].
  intros ->. simpl in Hloop. by injection Hloop as <- <-.
Qed.

(** ** Instances of the statements above *)

Lemma wait_on_no_partition_witness :
  GetVbnos (Some (Scenario.ts_b [])) = []
  ∧ (waitStreamRequests 3 "default" "b" (Some (Scenario.ts_b []))
       (Scenario.oracle [Scenario.stream_request SUCCESS 1 100 7]) Scenario.active1
     = (NewTsVbuuid "default" "b" 0, NewTsVbuuid "default" "b" 0,
        NewTsVbuuid "default" "b" 0, None, Scenario.active1)
     ∧ waitStreamEnds 3 "b" (Some (Scenario.ts_b []))
         (Scenario.oracle [Scenario.stream_request SUCCESS 1 100 7]) Scenario.active1
       = (NewTsVbuuid "default" "b" 0, NewTsVbuuid "default" "b" 0, None,
          Scenario.active1)).
Proof.
  split; [reflexivity|].
  apply (wait_on_no_partition_returns_at_once 3 "default" "b" (Some (Scenario.ts_b []))).
  reflexivity.
Defined.

Lemma malformed_subscribers_witness :
  malformed Scenario.bad_subscribers
  ∧ addInstances (Scenario.env Scenario.net_ok (Scenario.oracle []))
      {| ai_Subscriber := Scenario.bad_subscribers |} Scenario.active1
    = (Some ErrorInconsistentFeed, Scenario.active1).
Proof.
  assert (malformed Scenario.bad_subscribers) as Hbad.
  { right. exists 17%Z. left. split; [by eexists|reflexivity]. }
  split; [exact Hbad|].
  apply (malformed_subscribers_fail_the_command
           (Scenario.env Scenario.net_ok (Scenario.oracle [])) Scenario.active1
           Scenario.bad_subscribers Hbad).
  reflexivity.
Defined.

Lemma flush_of_stream_request_witness :
  msg0 (Scenario.stream_request SUCCESS 1 100 7)
    = IStreamRequest {| sr_bucket := "b"; sr_opaque := 3; sr_status := SUCCESS;
                        sr_vbno := 1; sr_vbuuid := 7; sr_seqno := 100 |}
  ∧ handleBackch (Scenario.stream_request SUCCESS 1 100 7) Scenario.outstanding1_ranged
    = Flushed
        (set_actTss
           (<["b" := Some (Append (NewTsVbuuid "default" "b" 0) 1 100 7 5 9)]>
              (actTss Scenario.outstanding1_ranged))
           (set_reqTss
              (<["b" := Some (NewTsVbuuid "default" "b" 0)]>
                 (reqTss Scenario.outstanding1_ranged))
              Scenario.outstanding1_ranged)).
Proof.
  split; [reflexivity|].
  pose proof (flush_of_stream_request (Scenario.stream_request SUCCESS 1 100 7) _
                Scenario.outstanding1_ranged eq_refl) as [_ H].
  destruct (H 100%Z 7%Z 5%Z 9%Z) as (_ & Hsucc & _); [vm_compute; reflexivity|].
  rewrite (Hsucc (NewTsVbuuid "default" "b" 0)); [|reflexivity|vm_compute; reflexivity].
  f_equal.
Defined.

Lemma shutdown_of_absent_bucket_witness :
  bucket_absent Scenario.fresh "b"
  ∧ (shutdownVbuckets (Scenario.env Scenario.net_ok (Scenario.oracle []))
       {| sv_ShutdownTimestamps := [Scenario.ts_b [Scenario.entry 1 100 7 0 0]] |}
       Scenario.fresh).1 = Some ErrorInvalidBucket.
Proof.
  assert (bucket_absent Scenario.fresh (Bucket (Scenario.ts_b [Scenario.entry 1 100 7 0 0])))
    as Habs by (by left).
  split; [exact Habs|].
  destruct (shutdown_of_absent_bucket
              (Scenario.env Scenario.net_ok (Scenario.oracle [])) Scenario.fresh
              [] [] (Scenario.ts_b [Scenario.entry 1 100 7 0 0]) Habs)
    as (_ & _ & _ & Herr).
  exact (Herr eq_refl).
Defined.

(** ** Partition numbers of the timestamp operations *)

Lemma fmap_filter_comm {A B : Type} (f : A → B) (P : B → Prop) (Q : A → Prop)
    `{∀ y, Decision (P y)} `{∀ x, Decision (Q x)} (l : list A) :
  (∀ x, Q x ↔ P (f x)) →
  f <$> filter Q l = filter P (f <$> l).
Proof.
  intros HQ. induction l as [|x l IH]; [done|].
  rewrite fmap_cons, !filter_cons.
  destruct (decide (Q x)) as [Hq|Hq], (decide (P (f x))) as [Hp|Hp];
    rewrite ?fmap_cons, IH; try done.
  - by apply HQ in Hq.
  - by apply HQ in Hp.
Qed.

Lemma filter_all {A : Type} (P : A → Prop) `{∀ x, Decision (P x)} (l : list A) :
  (∀ x, x ∈ l → P x) → filter P l = l.
Proof.
  induction l as [|x l IH]; intros Hall; [done|].
  rewrite filter_cons_True by (apply Hall; left).
  f_equal. apply IH. intros y Hy. apply Hall. by right.
Qed.

Lemma GetVbnos_Filter ts l :
  GetVbnos (FilterByVbuckets ts l) = filter (λ v, v ∉ l) (GetVbnos ts).
Proof. destruct ts as [t|]; [|done]. simpl. by apply fmap_filter_comm. Qed.

Lemma GetVbnos_Select ts l :
  GetVbnos (SelectByVbuckets ts l) = filter (λ v, v ∈ l) (GetVbnos ts).
Proof. destruct ts as [t|]; [|done]. simpl. by apply fmap_filter_comm. Qed.

Lemma GetVbnos_Union ts other :
  GetVbnos (Union ts other)
    = GetVbnos ts ++ filter (λ v, v ∉ GetVbnos ts) (GetVbnos other).
Proof.
  destruct ts as [t|], other as [o|]; simpl.
  - rewrite fmap_app. f_equal.
    by apply fmap_filter_comm.
  - by rewrite app_nil_r.
  - symmetry. apply filter_all. intros x _. apply not_elem_of_nil.
  - done.
Qed.

Lemma GetVbnos_Append t vbno seqno vbuuid start end_ :
  GetVbnos (Some (Append t vbno seqno vbuuid start end_)) = GetVbnos (Some t) ++ [vbno].
Proof. simpl. by rewrite fmap_app. Qed.

Lemma Get_Some_elem ts vbno x : Get ts vbno = Some x → vbno ∈ GetVbnos ts.
Proof.
  destruct ts as [t|]; [|done]. unfold Get. simpl.
  destruct (filter (λ e, e_vbno e = vbno) (Entries t)) as [|e es] eqn:Hf; [done|].
  intros _.
  assert (e ∈ filter (λ e, e_vbno e = vbno) (Entries t)) as He by (rewrite Hf; left).
  apply list_elem_of_filter in He as [<- He]. by apply list_elem_of_fmap_2.
Qed.

Lemma Vbno32to16_wrapped l : Forall wrapped (Vbno32to16 l).
Proof.
  apply Forall_forall. intros x [y [-> _]]%list_elem_of_fmap.
  unfold wrapped. by rewrite <- Z.land_assoc, Z.land_diag.
Qed.

Lemma elem_of_Vbno32to16 l x : wrapped x → x ∈ l → x ∈ Vbno32to16 l.
Proof.
  intros Hx Hin. apply list_elem_of_fmap. exists x. by rewrite Hx.
Qed.

Lemma partitions_insert m b b' ts :
  partitions (<[b := ts]> m) b' = if decide (b = b') then GetVbnos ts else partitions m b'.
Proof.
  unfold partitions, map_index. rewrite lookup_insert.
  destruct (decide (b = b')); [done|]. done.
Qed.

Lemma partitions_delete m b b' :
  partitions (delete b m) b' = if decide (b = b') then [] else partitions m b'.
Proof.
  unfold partitions, map_index. rewrite lookup_delete.
  destruct (decide (b = b')); done.
Qed.

Lemma partitions_map_index m b x ok :
  map_index None m b = (x, ok) → partitions m b = GetVbnos x.
Proof. unfold partitions. by intros ->. Qed.

(** The guarded filters of Start: an absent map entry filters nothing. *)
Lemma GetVbnos_guarded m b x (ok : bool) ts :
  map_index None m b = (x, ok) →
  GetVbnos (if ok then FilterByVbuckets ts (Vbno32to16 (GetVbnos x)) else ts)
    = filter (λ v, v ∉ Vbno32to16 (partitions m b)) (GetVbnos ts).
Proof.
  intros Hm. rewrite (partitions_map_index _ _ _ _ Hm).
  destruct ok; [apply GetVbnos_Filter|].
  unfold map_index in Hm. destruct (m !! b); [done|]. injection Hm as <-.
  symmetry. apply filter_all. intros v _. apply not_elem_of_nil.
Qed.

(** ** The invariant on lists of partitions *)

Lemma books_ok_nil : books_ok [] [] [].
Proof.
  repeat split; try apply NoDup_nil_2; intros x Hx; by apply not_elem_of_nil in Hx.
Qed.

(** Dropping partitions keeps the invariant. *)
Lemma books_ok_sub (R A L R' A' L' : list Z) :
  books_ok R A L →
  NoDup R' → (∀ x, x ∈ R' → x ∈ R) → (∀ x, x ∈ A' → x ∈ A) → (∀ x, x ∈ L' → x ∈ L) →
  books_ok R' A' L'.
Proof.
  intros (Hnd & Hra & Hrl & Hal) Hnd' HR HA HL. repeat split; [done|..].
  - intros x Hr Ha. by apply (Hra x); auto.
  - intros x Hr Hl. by apply (Hrl x); auto.
  - intros x Ha Hl. by apply (Hal x); auto.
Qed.

Lemma books_ok_filter (R A L : list Z) (P Q S : Z → Prop)
    `{∀ x, Decision (P x)} `{∀ x, Decision (Q x)} `{∀ x, Decision (S x)} :
  books_ok R A L → books_ok (filter P R) (filter Q A) (filter S L).
Proof.
  intros Hok. eapply books_ok_sub; [exact Hok|..].
  - apply NoDup_filter, Hok.
  - by intros x [_ ?]%list_elem_of_filter.
  - by intros x [_ ?]%list_elem_of_filter.
  - by intros x [_ ?]%list_elem_of_filter.
Qed.

(** The update of Start and RestartVbuckets: [sel] are the local
    partitions of the request, [R1] the outstanding set before the
    reconciler runs, [r], [a] and [f] the partitions that the reconciler
    has classified. *)
Lemma books_after_request (R A L sel r a f R1 : list Z) :
  books_ok R A L →
  Forall wrapped sel →
  let ts2 := filter (λ v, v ∉ Vbno32to16 A) sel in
  let L1 := filter (λ v, v ∉ Vbno32to16 ts2) L in
  let ts3 := filter (λ v, v ∉ Vbno32to16 R) ts2 in
  NoDup R1 → (∀ x, x ∈ R1 → x ∈ ts3 ∨ x ∈ R) →
  (∀ x, x ∈ r → x ∈ ts3) → (∀ x, x ∈ a → x ∈ ts3) →
  disjoint_lists a r →
  books_ok
    (filter (λ v, v ∉ Vbno32to16 f)
       (filter (λ v, v ∉ Vbno32to16 a) (filter (λ v, v ∉ Vbno32to16 r) R1)))
    (A ++ filter (λ v, v ∉ A) a)
    (L1 ++ filter (λ v, v ∉ L1) r).
Proof.
  intros (Hnd & Hra & Hrl & Hal) Hw ts2 L1 ts3 Hnd1 HR1 Hr Ha Har.
  assert (∀ x, x ∈ ts3 → wrapped x ∧ (x ∉ A) ∧ (x ∉ R) ∧ (x ∉ L1)) as Hts3.
  { intros x [HnR [HnA Hsel]%list_elem_of_filter]%list_elem_of_filter.
    assert (wrapped x) as Hx by (by eapply Forall_forall in Hw).
    repeat split; [done|..].
    - intros Hin. by apply HnA, elem_of_Vbno32to16.
    - intros Hin. by apply HnR, elem_of_Vbno32to16.
    - intros [Hn _]%list_elem_of_filter. apply Hn, elem_of_Vbno32to16; [done|].
      apply list_elem_of_filter. by split. }
  assert (∀ x, x ∈ L1 → x ∈ L) as HL1 by (by intros x [_ ?]%list_elem_of_filter).
  assert (∀ x,
    x ∈ filter (λ v, v ∉ Vbno32to16 f)
          (filter (λ v, v ∉ Vbno32to16 a) (filter (λ v, v ∉ Vbno32to16 r) R1)) →
    (x ∉ Vbno32to16 f) ∧ (x ∉ Vbno32to16 a) ∧ (x ∉ Vbno32to16 r) ∧ x ∈ R1) as Hsplit.
  { intros x [? [? [? ?]%list_elem_of_filter]%list_elem_of_filter]%list_elem_of_filter.
    done. }
  repeat split.
  - by do 3 apply NoDup_filter.
  - intros x (_ & Hna & _ & HxR1)%Hsplit
           [HxA|[_ Hxa]%list_elem_of_filter]%elem_of_app.
    + destruct (HR1 x HxR1) as [Hx|Hx].
      * apply Hts3 in Hx as (_ & HnA & _). done.
      * by apply (Hra x).
    + apply Hna, elem_of_Vbno32to16; [|done]. by apply Hts3, Ha.
  - intros x (_ & _ & Hnr & HxR1)%Hsplit
           [HxL|[_ Hxr]%list_elem_of_filter]%elem_of_app.
    + destruct (HR1 x HxR1) as [Hx|Hx].
      * apply Hts3 in Hx as (_ & _ & _ & HnL). done.
      * apply (Hrl x); auto.
    + apply Hnr, elem_of_Vbno32to16; [|done]. by apply Hts3, Hr.
  - intros x [HxA|[_ Hxa]%list_elem_of_filter]%elem_of_app
           [HxL|[_ Hxr]%list_elem_of_filter]%elem_of_app.
    + apply (Hal x); auto.
    + apply Hr, Hts3 in Hxr as (_ & HnA & _). done.
    + apply Ha, Hts3 in Hxa as (_ & _ & _ & HnL). done.
    + by apply (Har x).
Qed.

(** The update of a flushed stream-request result. *)
Lemma books_after_flush (R A L : list Z) (v : Z) :
  books_ok R A L → v ∈ R →
  books_ok (filter (λ x, x ∉ [v]) R) (A ++ [v]) L
  ∧ books_ok (filter (λ x, x ∉ [v]) R) A (L ++ [v]).
Proof.
  intros (Hnd & Hra & Hrl & Hal) Hv.
  split; (repeat split; [by apply NoDup_filter|..]).
  - intros x [Hn Hx]%list_elem_of_filter [Ha|Hxv]%elem_of_app; [by apply (Hra x)|].
    by apply Hn.
  - intros x [_ Hx]%list_elem_of_filter. by apply Hrl.
  - intros x [Ha|Hx%list_elem_of_singleton]%elem_of_app; [by apply Hal|].
    subst x. by apply Hrl.
  - intros x [_ Hx]%list_elem_of_filter. by apply Hra.
  - intros x [Hn Hx]%list_elem_of_filter [Hl|Hxv]%elem_of_app; [by apply (Hrl x)|].
    by apply Hn.
  - intros x Ha [Hl|Hx%list_elem_of_singleton]%elem_of_app; [by apply (Hal x)|].
    subst x. by apply (Hra v).
Qed.

(** ** The stream-request reconciler *)

Section stream_request_reconciler.

Context (opaque : Z) (bucketn : string) (ts : option TsVbuuid).

(** The callback sets a message aside, or the message answers a stream
    request of this batch and its partition is appended to exactly one of
    the three outputs. *)
Lemma streamRequestCallb_cases st m :
  streamRequestCallb opaque bucketn ts st m = ("skip", st)
  ∨ ∃ val verdict st',
      m = IStreamRequest val
      ∧ sr_bucket val = bucketn ∧ sr_opaque val = opaque ∧ sr_vbno val ∈ GetVbnos ts
      ∧ streamRequestCallb opaque bucketn ts st m = (verdict, st')
      ∧ (verdict = "done" ∨ verdict = "ok")
      ∧ (GetVbnos (Some (w_actTs st')), GetVbnos (Some (w_rollTs st')),
         GetVbnos (Some (w_failTs st')))
        = match sr_status val with
          | SUCCESS =>
              (GetVbnos (Some (w_actTs st)) ++ [sr_vbno val],
               GetVbnos (Some (w_rollTs st)), GetVbnos (Some (w_failTs st)))
          | ROLLBACK =>
              (GetVbnos (Some (w_actTs st)),
               GetVbnos (Some (w_rollTs st)) ++ [sr_vbno val],
               GetVbnos (Some (w_failTs st)))
          | _ =>
              (GetVbnos (Some (w_actTs st)), GetVbnos (Some (w_rollTs st)),
               GetVbnos (Some (w_failTs st)) ++ [sr_vbno val])
          end.
Proof.
  destruct m as [val| | |]; try (by left).
  unfold streamRequestCallb, Contains.
  destruct (bool_decide (sr_bucket val = bucketn)) eqn:Hb; [|by left].
  destruct (bool_decide (sr_opaque val = opaque)) eqn:Ho; [|by left].
  destruct (bool_decide (sr_vbno val ∈ GetVbnos ts)) eqn:Hv; [|by left].
  apply bool_decide_eq_true in Hb, Ho, Hv. simpl.
  right. exists val.
  destruct (bool_decide (length (RemoveUint16 (sr_vbno val) (w_vbnos st)) = 0));
    eexists _, _; (split; [reflexivity|]); (do 3 (split; [done|]));
    (split; [reflexivity|]); (split; [by auto|]);
    destruct (sr_status val); simpl; by rewrite ?fmap_app.
Qed.

Lemma omap_request_key_cons m ch :
  omap request_key (m :: ch)
    = match request_key m with
      | Some k => k :: omap request_key ch
      | None => omap request_key ch
      end.
Proof. done. Qed.

(** The loop of [waitOnFeedback] under the callback of
    [waitStreamRequests]: the channel it leaves is a suffix of the channel
    it found; every partition it classifies is expected; and if no stream
    request is answered twice in the channel, no partition is classified
    both active and rolled back. *)
Lemma request_loop :
  ∀ patience ch st msgs err ch' st' msgs',
    waitOnFeedback_loop (streamRequestCallb opaque bucketn ts) patience ch st msgs
      = (err, ch', st', msgs') →
    (∃ pre, ch = pre ++ ch')
    ∧ ((∀ x, x ∈ GetVbnos (Some (w_actTs st)) ++ GetVbnos (Some (w_rollTs st))
                 ++ GetVbnos (Some (w_failTs st)) → x ∈ GetVbnos ts) →
       ∀ x, x ∈ GetVbnos (Some (w_actTs st')) ++ GetVbnos (Some (w_rollTs st'))
                ++ GetVbnos (Some (w_failTs st')) → x ∈ GetVbnos ts)
    ∧ (NoDup (omap request_key ch) →
       disjoint_lists (GetVbnos (Some (w_actTs st))) (GetVbnos (Some (w_rollTs st))) →
       (∀ x, x ∈ GetVbnos (Some (w_actTs st)) ++ GetVbnos (Some (w_rollTs st)) →
             (bucketn, opaque, x) ∉ omap request_key ch) →
       disjoint_lists (GetVbnos (Some (w_actTs st'))) (GetVbnos (Some (w_rollTs st')))).
Proof.
  induction patience as [|n IH]; intros ch st msgs err ch' st' msgs' Hloop.
  { simpl in Hloop. injection Hloop as <- <- <- <-.
    split; [by exists []|]. split; done. }
  destruct ch as [|m ch].
  { simpl in Hloop. injection Hloop as <- <- <- <-.
    split; [by exists []|]. split; done. }
  simpl in Hloop.
  destruct (streamRequestCallb_cases st (msg0 m))
    as [Hskip|(val & verdict & st1 & Hm & Hb & Ho & Hv & Hcall & Hverdict & Hout)].
  - rewrite Hskip in Hloop. simpl in Hloop.
    apply IH in Hloop as ([pre ->] & Hexp & Hdis).
    split; [by exists (m :: pre)|]. split; [done|].
    intros Hnd Hd Hseen. rewrite omap_request_key_cons in Hnd, Hseen.
    apply Hdis; [by destruct (request_key m); [apply NoDup_cons in Hnd as [_ ?]|]|done|].
    intros x Hx Hk. apply (Hseen x Hx).
    destruct (request_key m); [by right|done].
  - rewrite Hcall in Hloop.
    assert (request_key m = Some (bucketn, opaque, sr_vbno val)) as Hkey.
    { unfold request_key. rewrite Hm. by rewrite Hb, Ho. }
    assert ((∀ x, x ∈ GetVbnos (Some (w_actTs st)) ++ GetVbnos (Some (w_rollTs st))
                       ++ GetVbnos (Some (w_failTs st)) → x ∈ GetVbnos ts) →
            ∀ x, x ∈ GetVbnos (Some (w_actTs st1)) ++ GetVbnos (Some (w_rollTs st1))
                     ++ GetVbnos (Some (w_failTs st1)) → x ∈ GetVbnos ts) as Hexp1.
    { intros Hexp x Hx.
      assert (x ∈ GetVbnos (Some (w_actTs st)) ++ GetVbnos (Some (w_rollTs st))
                  ++ GetVbnos (Some (w_failTs st)) ∨ x = sr_vbno val) as [?| ->];
        [|by apply Hexp|done].
      cbn [GetVbnos from_option] in Hout, Hx |- *.
      destruct (sr_status val); injection Hout as Ha Hr Hf;
        rewrite Ha, Hr, Hf in Hx; rewrite !elem_of_app in *;
        rewrite ?list_elem_of_singleton in Hx; tauto. }
    assert (NoDup (omap request_key (m :: ch)) →
            disjoint_lists (GetVbnos (Some (w_actTs st))) (GetVbnos (Some (w_rollTs st))) →
            (∀ x, x ∈ GetVbnos (Some (w_actTs st)) ++ GetVbnos (Some (w_rollTs st)) →
                  (bucketn, opaque, x) ∉ omap request_key (m :: ch)) →
            NoDup (omap request_key ch)
            ∧ disjoint_lists (GetVbnos (Some (w_actTs st1))) (GetVbnos (Some (w_rollTs st1)))
            ∧ (∀ x, x ∈ GetVbnos (Some (w_actTs st1)) ++ GetVbnos (Some (w_rollTs st1)) →
                    (bucketn, opaque, x) ∉ omap request_key ch)) as Hstep.
    { rewrite omap_request_key_cons, Hkey. intros [Hfresh Hnd]%NoDup_cons Hd Hseen.
      assert (∀ x, x ∈ GetVbnos (Some (w_actTs st)) ++ GetVbnos (Some (w_rollTs st)) →
                   x ≠ sr_vbno val ∧ (bucketn, opaque, x) ∉ omap request_key ch) as Hold.
      { intros x Hx. split.
        - intros ->. apply (Hseen _ Hx). left.
        - intros Hk. apply (Hseen _ Hx). by right. }
      split; [done|].
      cbn [GetVbnos from_option] in Hout, Hold, Hd |- *.
      assert (sr_vbno val ∉ e_vbno <$> Entries (w_actTs st)) as HnA.
      { intros Hin. destruct (Hold (sr_vbno val)) as [Hne _]; [|done].
        apply elem_of_app. by left. }
      assert (sr_vbno val ∉ e_vbno <$> Entries (w_rollTs st)) as HnR.
      { intros Hin. destruct (Hold (sr_vbno val)) as [Hne _]; [|done].
        apply elem_of_app. by right. }
      assert (∀ x, x ∈ (e_vbno <$> Entries (w_actTs st))
                       ++ (e_vbno <$> Entries (w_rollTs st)) ++ [sr_vbno val] →
                   (bucketn, opaque, x) ∉ omap request_key ch) as Hnew.
      { intros x Hx. rewrite app_assoc in Hx.
        apply elem_of_app in Hx as [Hx|Hx%list_elem_of_singleton]; [by apply Hold|].
        by subst x. }
      destruct (sr_status val); injection Hout as Ha Hr Hf; rewrite Ha, Hr; split.
      - intros x [Hx|Hx%list_elem_of_singleton]%elem_of_app Hxr; [by apply (Hd x)|].
        by subst x.
      - intros x Hx. apply Hnew. rewrite !elem_of_app in *. tauto.
      - intros x Hx [Hxr|Hxr%list_elem_of_singleton]%elem_of_app; [by apply (Hd x)|].
        by subst x.
      - intros x Hx. apply Hnew. rewrite !elem_of_app in *. tauto.
      - done.
      - intros x Hx. by apply Hold.
      - done.
      - intros x Hx. by apply Hold. }
    destruct Hverdict as [->| ->]; simpl in Hloop.
    + injection Hloop as <- <- <- <-.
      split; [by exists [m]|]. split; [done|].
      intros Hnd Hd Hseen. by apply Hstep.
    + apply IH in Hloop as ([pre ->] & Hexp & Hdis).
      split; [by exists (m :: pre)|]. split; [by auto|].
      intros Hnd Hd Hseen. destruct (Hstep Hnd Hd Hseen) as (? & ? & ?). by apply Hdis.
Qed.

End stream_request_reconciler.

Lemma omap_request_key_wrapped (msgs : list message) :
  omap request_key ((λ msg, singleton_msg (to_iface msg)) <$> msgs) = [].
Proof. induction msgs as [|m msgs IH]; [done|]. simpl. exact IH. Qed.

(** [waitStreamRequests]: what it classifies is expected, active and
    rolled-back outputs are disjoint when no stream request is answered
    twice, and the stream-request results it leaves in the channel were
    there or arrived. *)
Lemma waitStreamRequests_spec opaque pooln bucketn ts o feed r f a e feed' :
  waitStreamRequests opaque pooln bucketn ts o feed = (r, f, a, e, feed') →
  (∀ x, x ∈ GetVbnos (Some a) ++ GetVbnos (Some r) ++ GetVbnos (Some f) → x ∈ GetVbnos ts)
  ∧ (distinct_feedback (backch feed ++ o_arrivals o) →
     disjoint_lists (GetVbnos (Some a)) (GetVbnos (Some r)))
  ∧ ∃ bc new,
      feed' = set_backch bc (set_trace (trace feed ++ new) feed)
      ∧ omap request_key bc `sublist_of` omap request_key (backch feed ++ o_arrivals o).
Proof.
  unfold waitStreamRequests. case_bool_decide as Hlen.
  - intros [= <- <- <- <- <-]. split; [intros x Hx; by apply not_elem_of_nil in Hx|].
    split; [intros _ x Hx; by apply not_elem_of_nil in Hx|].
    exists (backch feed), []. rewrite set_trace_backch_id. split; [done|].
    rewrite omap_app. by apply sublist_inserts_r.
  - unfold waitOnFeedback. cbn [backch set_backch emit set_trace].
    destruct (waitOnFeedback_loop _ _ _ _ _) as [[[err1 ch'] st'] msgs'] eqn:Hloop.
    intros [= <- <- <- <- <-].
    apply request_loop in Hloop as ([pre Hpre] & Hexp & Hdis). simpl in Hexp, Hdis.
    split; [apply Hexp; intros x Hx; by apply not_elem_of_nil in Hx|].
    split.
    + intros Hnd. apply Hdis; [exact Hnd| |].
      * intros x Hx. by apply not_elem_of_nil in Hx.
      * intros x Hx. by apply not_elem_of_nil in Hx.
    + exists (ch' ++ ((λ msg, singleton_msg (to_iface msg)) <$> msgs')),
             [EvTimeAfter (reqTimeout feed)].
      split; [reflexivity|].
      rewrite Hpre, !omap_app, omap_request_key_wrapped, app_nil_r.
      by apply sublist_inserts_l.
Qed.

Lemma NoDup_union_list (l k : list Z) :
  NoDup l → NoDup k → NoDup (l ++ filter (λ v, v ∉ l) k).
Proof.
  intros Hl Hk. apply NoDup_app. split; [done|]. split; [|by apply NoDup_filter].
  intros x Hx [Hn _]%list_elem_of_filter. by apply Hn.
Qed.

Lemma GetVbnos_guarded_self m b x (ok : bool) l :
  map_index None m b = (x, ok) →
  GetVbnos (if ok then FilterByVbuckets x l else x) = filter (λ v, v ∉ l) (partitions m b).
Proof.
  intros Hm. rewrite (partitions_map_index _ _ _ _ Hm).
  destruct ok; [apply GetVbnos_Filter|].
  unfold map_index in Hm. destruct (m !! b); [done|]. by injection Hm as <-.
Qed.

Lemma distinct_feedback_sublist bc ch later :
  omap request_key bc `sublist_of` omap request_key ch →
  distinct_feedback (ch ++ later) → distinct_feedback (bc ++ later).
Proof.
  unfold distinct_feedback. rewrite !omap_app. intros Hsub Hnd.
  refine (sublist_NoDup _ _ Hnd _). by apply sublist_app.
Qed.

(** ** Buckets that a command cleans up *)

Lemma cleanupBucket_books bucketn enginesOk feed :
  reqTss (cleanupBucket bucketn enginesOk feed) = delete bucketn (reqTss feed)
  ∧ actTss (cleanupBucket bucketn enginesOk feed) = delete bucketn (actTss feed)
  ∧ rollTss (cleanupBucket bucketn enginesOk feed) = delete bucketn (rollTss feed)
  ∧ backch (cleanupBucket bucketn enginesOk feed) = backch feed.
Proof.
  unfold cleanupBucket.
  destruct enginesOk; simpl;
    repeat (match goal with |- context [match ?m !! ?k with _ => _ end] =>
              destruct (m !! k) end; simpl); done.
Qed.

Lemma cleanupBucket_inv bucketn enginesOk feed :
  partition_invariant feed → partition_invariant (cleanupBucket bucketn enginesOk feed).
Proof.
  intros Hinv b.
  destruct (cleanupBucket_books bucketn enginesOk feed) as (-> & -> & -> & _).
  rewrite !partitions_delete. destruct (decide (bucketn = b)); [apply books_ok_nil|apply Hinv].
Qed.

(** ** One bucket of Start and of RestartVbuckets *)

Lemma distinct_feedback_later ch arrivals later :
  distinct_feedback (ch ++ arrivals ++ later) → distinct_feedback (ch ++ later).
Proof.
  unfold distinct_feedback. rewrite !omap_app. intros Hnd.
  refine (sublist_NoDup _ _ Hnd _). apply sublist_app; [done|]. by apply sublist_inserts_l.
Qed.

Lemma distinct_feedback_prefix ch later :
  distinct_feedback (ch ++ later) → distinct_feedback ch.
Proof. unfold distinct_feedback. rewrite omap_app. by intros [? _]%NoDup_app. Qed.

Lemma Select_wrapped ts vbnos32 :
  Forall wrapped (GetVbnos (SelectByVbuckets ts (Vbno32to16 vbnos32))).
Proof.
  rewrite GetVbnos_Select. apply Forall_forall.
  intros x [Hx _]%list_elem_of_filter.
  by eapply Forall_forall in Hx; [|apply Vbno32to16_wrapped].
Qed.

Lemma startBucket_inv opaque env i feed err ts later :
  partition_invariant feed →
  NoDup (e_vbno <$> Entries ts) →
  distinct_feedback (backch feed ++ o_arrivals (env_bucket env i) ++ later) →
  partition_invariant (startBucket opaque env i (feed, err) ts).1
  ∧ distinct_feedback (backch (startBucket opaque env i (feed, err) ts).1 ++ later).
Proof.
  intros Hinv Hnd Hfb.
  pose proof (distinct_feedback_later _ _ _ Hfb) as Hfb0.
  unfold startBucket, getLocalVbuckets.
  destruct (o_vbnos32 (env_bucket env i)) as [vbnos32|].
  2:{ cbn [fst]. split; [by apply cleanupBucket_inv|].
      by destruct (cleanupBucket_books (Bucket ts) false feed) as (_ & _ & _ & ->). }
  destruct (map_index None (actTss feed) (Bucket ts)) as [actTs ok1] eqn:Hact.
  destruct (map_index None (rollTss feed) (Bucket ts)) as [rollTs ok2] eqn:Hroll.
  destruct (map_index None (reqTss feed) (Bucket ts)) as [reqTs ok3] eqn:Hreq.
  set (sel := SelectByVbuckets (Some ts) (Vbno32to16 vbnos32)).
  set (ts2 := if ok1 then FilterByVbuckets sel (Vbno32to16 (GetVbnos actTs)) else sel).
  set (rollTs1 := if ok2 then FilterByVbuckets rollTs (Vbno32to16 (GetVbnos ts2)) else rollTs).
  set (ts3 := if ok3 then FilterByVbuckets ts2 (Vbno32to16 (GetVbnos reqTs)) else ts2).
  destruct (bucketFeed_frame opaque false true ts3 (env_bucket env i) feed) as (new1 & Hf1 & _).
  destruct (bucketFeed opaque false true ts3 (env_bucket env i) feed)
    as [[[fd e1]|feeder] feed1]; simpl in Hf1; subst feed1.
  { cbn [fst]. split.
    - apply cleanupBucket_inv. exact Hinv.
    - by destruct (cleanupBucket_books (Bucket ts) false (set_trace (trace feed ++ new1) feed))
        as (_ & _ & _ & ->). }
  destruct (startDataPath (Bucket ts) feeder ts3 _) as [kv feed2] eqn:Hdp.
  assert (reqTss feed2 = reqTss feed ∧ actTss feed2 = actTss feed
          ∧ rollTss feed2 = rollTss feed ∧ backch feed2 = backch feed) as (Hr2 & Ha2 & Hl2 & Hb2).
  { unfold startDataPath in Hdp.
    destruct (kvdata _ !! _); injection Hdp as <- <-; done. }
  destruct (waitStreamRequests _ _ _ _ _ _) as [[[[r f] a] e] feed'] eqn:Hw.
  apply waitStreamRequests_spec in Hw as (Hexp & Hdis & bc & new & -> & Hsub).
  cbn [backch set_kvdata] in Hsub. rewrite Hb2 in Hsub.
  split.
  - intros b. cbn [fst reqTss actTss rollTss set_reqTss set_actTss set_rollTss
                   set_backch set_trace set_kvdata].
    rewrite Hr2, Ha2, Hl2, !partitions_insert.
    destruct (decide (Bucket ts = b)) as [<-|]; [|apply Hinv].
    rewrite !GetVbnos_Filter, !GetVbnos_Union.
    subst rollTs1. rewrite (GetVbnos_guarded_self _ _ _ _ _ Hroll).
    rewrite <- (partitions_map_index _ _ _ _ Hact), <- (partitions_map_index _ _ _ _ Hreq).
    assert (GetVbnos ts2 = filter (λ v, v ∉ Vbno32to16 (partitions (actTss feed) (Bucket ts)))
                             (GetVbnos sel)) as Hts2
      by apply (GetVbnos_guarded _ _ _ _ _ Hact).
    assert (GetVbnos ts3 = filter (λ v, v ∉ Vbno32to16 (partitions (reqTss feed) (Bucket ts)))
                             (GetVbnos ts2)) as Hts3
      by apply (GetVbnos_guarded _ _ _ _ _ Hreq).
    rewrite Hts2 in Hts3 |- *.
    apply (books_after_request (partitions (reqTss feed) (Bucket ts))).
    + apply Hinv.
    + apply Select_wrapped.
    + rewrite Hts3. apply NoDup_union_list.
      * do 2 apply NoDup_filter. subst sel. rewrite GetVbnos_Select. by apply NoDup_filter.
      * apply Hinv.
    + rewrite Hts3.
      intros x [Hx|[_ Hx]%list_elem_of_filter]%elem_of_app; auto.
    + intros x Hx. rewrite <- Hts3. apply Hexp. rewrite !elem_of_app. auto.
    + intros x Hx. rewrite <- Hts3. apply Hexp. rewrite !elem_of_app. auto.
    + apply Hdis. cbn [backch set_kvdata]. rewrite Hb2.
      apply (distinct_feedback_prefix _ later). by rewrite <- app_assoc.
  - cbn [fst backch set_reqTss set_actTss set_rollTss set_backch].
    eapply distinct_feedback_sublist; [exact Hsub|]. by rewrite <- app_assoc.
Qed.

Lemma partition_invariant_same feed feed' :
  reqTss feed' = reqTss feed → actTss feed' = actTss feed → rollTss feed' = rollTss feed →
  partition_invariant feed → partition_invariant feed'.
Proof. intros Hr Ha Hl Hinv b. rewrite Hr, Ha, Hl. apply Hinv. Qed.

Lemma restartBucket_inv opaque env i feed err ts later :
  partition_invariant feed →
  NoDup (e_vbno <$> Entries ts) →
  distinct_feedback (backch feed ++ o_arrivals (env_bucket env i) ++ later) →
  partition_invariant (restartBucket opaque env i (feed, err) ts).1
  ∧ distinct_feedback (backch (restartBucket opaque env i (feed, err) ts).1 ++ later).
Proof.
  intros Hinv Hnd Hfb.
  pose proof (distinct_feedback_later _ _ _ Hfb) as Hfb0.
  unfold restartBucket, getLocalVbuckets.
  destruct (o_vbnos32 (env_bucket env i)) as [vbnos32|].
  2:{ cbn [fst]. split; [by apply cleanupBucket_inv|].
      by destruct (cleanupBucket_books (Bucket ts) false feed) as (_ & _ & _ & ->). }
  destruct (map_index None (actTss feed) (Bucket ts)) as [actTs ok1] eqn:Hact.
  destruct (map_index None (rollTss feed) (Bucket ts)) as [rollTs ok2] eqn:Hroll.
  destruct (map_index None (reqTss feed) (Bucket ts)) as [reqTs ok3] eqn:Hreq.
  set (sel := SelectByVbuckets (Some ts) (Vbno32to16 vbnos32)).
  set (ts2 := if ok1 then FilterByVbuckets sel (Vbno32to16 (GetVbnos actTs)) else sel).
  set (rollTs1 := if ok2 then FilterByVbuckets rollTs (Vbno32to16 (GetVbnos ts2)) else rollTs).
  set (ts3 := if ok3 then FilterByVbuckets ts2 (Vbno32to16 (GetVbnos reqTs)) else ts2).
  set (feedU := match kvdata feed !! Bucket ts with
                | Some _ => emit (EvUpdateTs (Bucket ts) ts3) feed
                | None => feed
                end).
  assert (reqTss feedU = reqTss feed ∧ actTss feedU = actTss feed
          ∧ rollTss feedU = rollTss feed ∧ backch feedU = backch feed)
    as (HrU & HaU & HlU & HbU).
  { subst feedU. by destruct (kvdata feed !! Bucket ts). }
  clearbody feedU.
  destruct (bucketFeed_frame opaque false true ts3 (env_bucket env i) feedU) as (new1 & Hf1 & _).
  destruct (bucketFeed opaque false true ts3 (env_bucket env i) feedU)
    as [[[fd e1]|feeder] feed1]; simpl in Hf1; subst feed1.
  { cbn [fst]. split.
    - apply cleanupBucket_inv. by apply (partition_invariant_same feed).
    - destruct (cleanupBucket_books (Bucket ts) false (set_trace (trace feedU ++ new1) feedU))
        as (_ & _ & _ & ->). cbn [backch set_trace]. by rewrite HbU. }
  match goal with
  | |- context [waitStreamRequests _ _ _ _ _ ?fw] => set (feedW := fw)
  end.
  assert (reqTss feedW = reqTss feed ∧ actTss feedW = actTss feed
          ∧ rollTss feedW = rollTss feed ∧ backch feedW = backch feed)
    as (Hr2 & Ha2 & Hl2 & Hb2).
  { subst feedW.
    destruct (kvdata _ !! Bucket ts) eqn:Hkv.
    - simpl. auto.
    - unfold startDataPath. rewrite Hkv. simpl. auto. }
  clearbody feedW.
  destruct (waitStreamRequests _ _ _ _ _ _) as [[[[r f] a] e] feed'] eqn:Hw.
  apply waitStreamRequests_spec in Hw as (Hexp & Hdis & bc & new & -> & Hsub).
  rewrite Hb2 in Hsub.
  split.
  - intros b. cbn [fst reqTss actTss rollTss set_reqTss set_actTss set_rollTss
                   set_backch set_trace].
    rewrite Hr2, Ha2, Hl2, !partitions_insert.
    destruct (decide (Bucket ts = b)) as [<-|]; [|apply Hinv].
    rewrite !GetVbnos_Filter, !GetVbnos_Union.
    subst rollTs1. rewrite (GetVbnos_guarded_self _ _ _ _ _ Hroll).
    rewrite <- (partitions_map_index _ _ _ _ Hact).
    assert (GetVbnos ts2 = filter (λ v, v ∉ Vbno32to16 (partitions (actTss feed) (Bucket ts)))
                             (GetVbnos sel)) as Hts2
      by apply (GetVbnos_guarded _ _ _ _ _ Hact).
    assert (GetVbnos ts3 = filter (λ v, v ∉ Vbno32to16 (partitions (reqTss feed) (Bucket ts)))
                             (GetVbnos ts2)) as Hts3
      by apply (GetVbnos_guarded _ _ _ _ _ Hreq).
    rewrite Hts2 in Hts3 |- *.
    assert (NoDup (GetVbnos ts3)) as Hnd3.
    { rewrite Hts3. do 2 apply NoDup_filter. subst sel. rewrite GetVbnos_Select.
      by apply NoDup_filter. }
    apply (books_after_request (partitions (reqTss feed) (Bucket ts))).
    + apply Hinv.
    + apply Select_wrapped.
    + by apply NoDup_union_list.
    + rewrite <- Hts3.
      intros x [Hx|[_ Hx]%list_elem_of_filter]%elem_of_app; auto.
    + intros x Hx. rewrite <- Hts3. apply Hexp. rewrite !elem_of_app. auto.
    + intros x Hx. rewrite <- Hts3. apply Hexp. rewrite !elem_of_app. auto.
    + apply Hdis. rewrite Hb2.
      apply (distinct_feedback_prefix _ later). by rewrite <- app_assoc.
  - cbn [fst backch set_reqTss set_actTss set_rollTss set_backch].
    eapply distinct_feedback_sublist; [exact Hsub|]. by rewrite <- app_assoc.
Qed.

(** ** The loops of Start and RestartVbuckets *)

Lemma arrivals_from_S env i n :
  arrivals_from env i (S n) = o_arrivals (env_bucket env i) ++ arrivals_from env (S i) n.
Proof. done. Qed.

Lemma request_loop_inv
    (body : nat → Feed * option Error → TsVbuuid → Feed * option Error) env :
  (∀ i feed err ts later,
     partition_invariant feed →
     NoDup (e_vbno <$> Entries ts) →
     distinct_feedback (backch feed ++ o_arrivals (env_bucket env i) ++ later) →
     partition_invariant (body i (feed, err) ts).1
     ∧ distinct_feedback (backch (body i (feed, err) ts).1 ++ later)) →
  ∀ tss i feed err,
    partition_invariant feed →
    Forall (λ ts, NoDup (e_vbno <$> Entries ts)) tss →
    distinct_feedback (backch feed ++ arrivals_from env i (length tss)) →
    partition_invariant (forRange body i tss (feed, err)).1.
Proof.
  intros Hbody. induction tss as [|ts tss IH]; intros i feed err Hinv Hnd Hfb; [done|].
  apply Forall_cons in Hnd as [Hts Hnd].
  cbn [forRange length] in *. rewrite arrivals_from_S in Hfb.
  destruct (Hbody i feed err ts _ Hinv Hts Hfb) as [Hinv1 Hfb1].
  destruct (body i (feed, err) ts) as [feed1 err1]. by apply IH.
Qed.

(** ** One bucket of ShutdownVbuckets *)

Lemma shutdownBucket_inv opaque env i feed err ts :
  partition_invariant feed →
  partition_invariant (shutdownBucket opaque env i (feed, err) ts).1.
Proof.
  intros Hinv. unfold shutdownBucket.
  destruct (getLocalVbuckets (env_bucket env i)) as [e|vbnos]; [done|].
  destruct (map_index None (actTss feed) (Bucket ts)) as [actTs ok1] eqn:Hact.
  destruct (map_index None (rollTss feed) (Bucket ts)) as [rollTs ok2] eqn:Hroll.
  destruct (map_index None (reqTss feed) (Bucket ts)) as [reqTs ok3] eqn:Hreq.
  destruct (negb ok1 || negb ok2 || negb ok3); [done|].
  match goal with
  | |- context [bucketFeed ?a ?b ?c ?d ?e ?f] =>
      destruct (bucketFeed_frame a b c d e f) as (new1 & Hf1 & _);
      destruct (bucketFeed a b c d e f) as [[[fd e1]|feeder] feed1]
  end; simpl in Hf1; subst feed1; [done|].
  match goal with
  | |- context [waitStreamEnds ?a ?b ?c ?d ?f] =>
      destruct (waitStreamEnds_frame a b c d f) as (bc & new2 & Hf2 & _);
      destruct (waitStreamEnds a b c d f) as [[[endTs failTs] e2] feed2]
  end; simpl in Hf2; subst feed2.
  intros b. simpl. rewrite !partitions_insert.
  destruct (decide (Bucket ts = b)) as [<-|]; [|apply Hinv].
  rewrite !GetVbnos_Filter.
  rewrite <- (partitions_map_index _ _ _ _ Hact), <- (partitions_map_index _ _ _ _ Hroll),
    <- (partitions_map_index _ _ _ _ Hreq).
  apply books_ok_filter, Hinv.
Qed.

Lemma shutdown_loop_inv opaque env (tss : list TsVbuuid) :
  ∀ i feed err,
    partition_invariant feed →
    partition_invariant (forRange (shutdownBucket opaque env) i tss (feed, err)).1.
Proof.
  induction tss as [|ts tss IH]; intros i feed err Hinv; [done|].
  cbn [forRange].
  pose proof (shutdownBucket_inv opaque env i feed err ts Hinv) as Hinv1.
  destruct (shutdownBucket opaque env i (feed, err) ts) as [feed1 err1]. by apply IH.
Qed.

(** ** Flushing the back channel *)

Lemma handleBackch_inv msg feed :
  partition_invariant feed →
  match handleBackch msg feed with
  | Flushed feed' | Panicked feed' => partition_invariant feed'
  end.
Proof.
  intros Hinv. unfold handleBackch.
  destruct (msg0 msg) as [v|v|v|elems]; [| | |done].
  - destruct (map_index None (reqTss feed) (sr_bucket v)) as [reqTs ok] eqn:Hreq.
    destruct (Get reqTs (sr_vbno v)) as [[[[seqno vbuuid] sStart] sEnd]|] eqn:Hget; [|done].
    destruct ok; [|done].
    apply Get_Some_elem in Hget. rewrite <- (partitions_map_index _ _ _ _ Hreq) in Hget.
    destruct (books_after_flush _ _ _ _ (Hinv (sr_bucket v)) Hget) as [Hact Hroll].
    assert (partition_invariant
              (set_reqTss (<[sr_bucket v := FilterByVbuckets reqTs [sr_vbno v]]> (reqTss feed))
                 feed)) as Hinv1.
    { intros b. simpl. rewrite partitions_insert.
      destruct (decide (sr_bucket v = b)) as [<-|]; [|apply Hinv].
      rewrite GetVbnos_Filter, <- (partitions_map_index _ _ _ _ Hreq).
      eapply books_ok_sub; [apply Hact|apply Hact|done|..].
      - intros x Hx. apply elem_of_app. by left.
      - done. }
    case_bool_decide; [|case_bool_decide; [|done]].
    + unfold map_index. cbn [rollTss set_reqTss].
      destruct (rollTss feed !! sr_bucket v) as [[rollTs|]|] eqn:Hl; cbn [fst]; try done.
      intros b. simpl. rewrite !partitions_insert.
      destruct (decide (sr_bucket v = b)) as [<-|]; [|apply Hinv].
      rewrite GetVbnos_Filter, GetVbnos_Append, <- (partitions_map_index _ _ _ _ Hreq).
      replace (GetVbnos (Some rollTs)) with (partitions (rollTss feed) (sr_bucket v));
        [done|]. unfold partitions, map_index. by rewrite Hl.
    + unfold map_index. cbn [actTss set_reqTss].
      destruct (actTss feed !! sr_bucket v) as [[actTs|]|] eqn:Ha; cbn [fst]; try done.
      intros b. simpl. rewrite !partitions_insert.
      destruct (decide (sr_bucket v = b)) as [<-|]; [|apply Hinv].
      rewrite GetVbnos_Filter, GetVbnos_Append, <- (partitions_map_index _ _ _ _ Hreq).
      replace (GetVbnos (Some actTs)) with (partitions (actTss feed) (sr_bucket v));
        [done|]. unfold partitions, map_index. by rewrite Ha.
  - intros b. simpl. rewrite !partitions_insert.
    destruct (decide (se_bucket v = b)) as [<-|]; [|apply Hinv].
    rewrite !GetVbnos_Filter. apply books_ok_filter, Hinv.
  - destruct (map_index None (actTss feed) (fin_bucket v)) as [actTs ok].
    destruct (ok && _ && _); [by apply cleanupBucket_inv|done].
Qed.

(** ** Commands that leave the timestamps alone *)

Lemma same_books_refl f : same_books f f.
Proof. by repeat split. Qed.

Lemma same_books_trans f1 f2 f3 : same_books f1 f2 → same_books f2 f3 → same_books f1 f3.
Proof. intros (?&?&?&?) (?&?&?&?). repeat split; congruence. Qed.

Lemma same_books_inv f f' : same_books f f' → partition_invariant f → partition_invariant f'.
Proof. intros (?&?&?&_). by apply partition_invariant_same. Qed.

Lemma foldl_same_books {A : Type} (g : Feed → A → Feed) (l : list A) :
  (∀ f x, same_books f (g f x)) → ∀ f, same_books f (foldl g f l).
Proof.
  intros Hg. induction l as [|x l IH]; intros f; [apply same_books_refl|].
  simpl. eapply same_books_trans; [apply Hg|apply IH].
Qed.

Lemma foldl_same_books_pair {A B : Type} (g : Feed * B → A → Feed * B) (l : list A) :
  (∀ st x, same_books st.1 (g st x).1) → ∀ st, same_books st.1 (foldl g st l).1.
Proof.
  intros Hg. induction l as [|x l IH]; intros st; [apply same_books_refl|].
  simpl. eapply same_books_trans; [apply Hg|apply IH].
Qed.

Lemma endpointStep_books net st raddr : same_books st.1 (endpointStep net st raddr).1.
Proof.
  destruct st as [feed err]. unfold endpointStep.
  destruct (getEndpoint net raddr feed) as [[raddr1 endpoint] [e|]]; [by repeat split|].
  destruct endpoint as [ep|]; [destruct (Ping net ep)|];
    try destruct (epFactory net _ _ _); by repeat split.
Qed.

Lemma repairEndpoints_books net req feed : same_books feed (repairEndpoints net req feed).2.
Proof.
  unfold repairEndpoints.
  pose proof (foldl_same_books_pair (endpointStep net) (re_Endpoints req)
                (endpointStep_books net) (feed, None)) as Hloop.
  destruct (foldl (endpointStep net) (feed, None) (re_Endpoints req)) as [feed1 err1].
  simpl in *. eapply same_books_trans; [exact Hloop|].
  apply foldl_same_books. intros f x. by repeat split.
Qed.

Lemma startEndpoints_books net routers feed :
  same_books feed (startEndpoints net routers feed).2.
Proof.
  unfold startEndpoints.
  match goal with
  | |- context [foldl ?g (feed, None) ?l] =>
      pose proof (foldl_same_books_pair g l) as Hloop;
      destruct (foldl g (feed, None) l) as [feed1 err1] eqn:Hfold
  end.
  specialize (Hloop (λ st kv, foldl_same_books_pair (endpointStep net) _
                                (endpointStep_books net) st) (feed, None)).
  by rewrite Hfold in Hloop.
Qed.

Lemma processSubscribers_books net req feed :
  same_books feed (processSubscribers net req feed).2.
Proof.
  unfold processSubscribers.
  destruct (subscribers req) as [e|[evaluators routers]]; [apply same_books_refl|].
  pose proof (startEndpoints_books net routers feed) as Hse.
  destruct (startEndpoints net routers feed) as [[e|] feed1]; [done|].
  simpl in *. eapply same_books_trans; [exact Hse|].
  apply foldl_same_books. intros f kv.
  destruct (map_index ∅ (engines f) (ev_bucket kv.2)) as [m ok]. by repeat split.
Qed.

Lemma addInstances_books env req feed : same_books feed (addInstances env req feed).2.
Proof.
  unfold addInstances.
  pose proof (processSubscribers_books (env_net env) (ai_Subscriber req) feed) as Hps.
  destruct (processSubscribers _ _ _) as [[e|] feed1]; [done|].
  match goal with
  | |- context [foldl ?g (feed1, None) ?l] =>
      pose proof (foldl_same_books_pair g l) as Hloop;
      destruct (foldl g (feed1, None) l) as [feed2 err2] eqn:Hfold
  end.
  simpl in *. eapply same_books_trans; [exact Hps|].
  replace feed2 with (feed2, err2).1 by done. rewrite <- Hfold.
  apply (Hloop) with (st := (feed1, None)).
  intros st kv. destruct (kvdata st.1 !! kv.1); by repeat split.
Qed.

Lemma delInstances_books req feed : same_books feed (delInstances req feed).2.
Proof.
  unfold delInstances.
  match goal with
  | |- context [foldl ?g (feed, None) ?l] =>
      pose proof (foldl_same_books_pair g l) as Hloop;
      destruct (foldl g (feed, None) l) as [feed2 err2] eqn:Hfold
  end.
  assert (same_books feed feed2) as H2.
  { replace feed2 with (feed2, err2).1 by done. rewrite <- Hfold.
    apply (Hloop) with (st := (feed, None)).
    intros st kv. destruct (kvdata st.1 !! kv.1); by repeat split. }
  destruct H2 as (?&?&?&?). by repeat split.
Qed.

Lemma shutdown_books feed : same_books feed (shutdown feed).2.
Proof.
  unfold shutdown. simpl.
  match goal with
  | |- same_books _ (emit _ ?f) => assert (same_books feed f) as (?&?&?&?); [|by repeat split]
  end.
  eapply same_books_trans; [|apply foldl_same_books; intros f x; by repeat split].
  eapply same_books_trans; [|apply foldl_same_books; intros f x; by repeat split].
  apply foldl_same_books; intros f x; by repeat split.
Qed.

Lemma delBuckets_inv req feed :
  partition_invariant feed → partition_invariant (delBuckets req feed).2.
Proof.
  unfold delBuckets. simpl. generalize (db_Buckets req). intros l. revert feed.
  induction l as [|b l IH]; intros feed Hinv; [done|].
  simpl. by apply IH, cleanupBucket_inv.
Qed.

(** ** Every turn keeps the invariant *)

Lemma start_inv env req feed :
  partition_invariant feed →
  good_request feed env (mt_ReqTimestamps req) →
  partition_invariant (start env req feed).2.
Proof.
  intros Hinv [Hnd Hfb]. unfold start.
  pose proof (processSubscribers_books (env_net env) (mt_Subscriber req)
                (set_endpointType (mt_EndpointType req) feed)) as Hps.
  destruct (processSubscribers _ _ _) as [[e|] feed1]; simpl in Hps.
  - by apply (same_books_inv _ _ Hps).
  - pose proof (request_loop_inv (startBucket (newOpaque (env_now env)) env) env
                  (startBucket_inv (newOpaque (env_now env)) env)
                  (mt_ReqTimestamps req) 0 feed1 None) as Hloop.
    destruct (forRange _ _ _ _) as [feed2 err2]. simpl in *. apply Hloop; [|done|].
    + by apply (same_books_inv _ _ Hps).
    + destruct Hps as (_ & _ & _ & ->). exact Hfb.
Qed.

Lemma restartVbuckets_inv env req feed :
  partition_invariant feed →
  good_request feed env (rv_RestartTimestamps req) →
  partition_invariant (restartVbuckets env req feed).2.
Proof.
  intros Hinv [Hnd Hfb]. unfold restartVbuckets.
  match goal with
  | |- context [repairEndpoints ?n ?r feed] =>
      pose proof (repairEndpoints_books n r feed) as Hre;
      destruct (repairEndpoints n r feed) as [e1 feed1]
  end.
  simpl in Hre.
  pose proof (request_loop_inv (restartBucket (newOpaque (env_now env)) env) env
                (restartBucket_inv (newOpaque (env_now env)) env)
                (rv_RestartTimestamps req) 0 feed1 None) as Hloop.
  destruct (forRange _ _ _ _) as [feed2 err2]. simpl in *. apply Hloop; [|done|].
  - by apply (same_books_inv _ _ Hre).
  - destruct Hre as (_ & _ & _ & ->). exact Hfb.
Qed.

Lemma shutdownVbuckets_inv env req feed :
  partition_invariant feed → partition_invariant (shutdownVbuckets env req feed).2.
Proof.
  intros Hinv. unfold shutdownVbuckets.
  pose proof (shutdown_loop_inv (newOpaque (env_now env)) env (sv_ShutdownTimestamps req)
                0 feed None Hinv) as Hloop.
  by destruct (forRange _ _ _ _) as [feed2 err2].
Qed.

Lemma handleCommand_inv env cmd feed :
  partition_invariant feed →
  good_turn feed (TurnCommand env cmd) →
  partition_invariant (handleCommand env cmd feed).2.
Proof.
  intros Hinv Hgood. destruct cmd as [req|req|req|req|req|req|req|req| | |]; simpl in *.
  - pose proof (start_inv env req feed Hinv Hgood). by destruct (start env req feed).
  - pose proof (restartVbuckets_inv env req feed Hinv Hgood).
    by destruct (restartVbuckets env req feed).
  - pose proof (shutdownVbuckets_inv env req feed Hinv).
    by destruct (shutdownVbuckets env req feed).
  - done.
  - by apply delBuckets_inv.
  - pose proof (same_books_inv _ _ (addInstances_books env req feed) Hinv).
    by destruct (addInstances env req feed).
  - pose proof (same_books_inv _ _ (delInstances_books req feed) Hinv).
    by destruct (delInstances req feed).
  - pose proof (same_books_inv _ _ (repairEndpoints_books (env_net env) req feed) Hinv).
    by destruct (repairEndpoints (env_net env) req feed).
  - by apply (same_books_inv _ _ (shutdown_books feed)).
  - done.
  - done.
Qed.

Lemma genServer_turn_inv t feed :
  partition_invariant feed → good_turn feed t →
  partition_invariant (feed_of (genServer_turn t feed)).
Proof.
  intros Hinv Hgood. destruct t as [env cmd| | |msg].
  - pose proof (handleCommand_inv env cmd feed Hinv Hgood) as H. unfold genServer_turn.
    destruct (handleCommand env cmd feed) as [[[] reply] feed']; exact H.
  - simpl. destruct (backch feed) as [|msg rest]; [done|].
    pose proof (handleBackch_inv msg (set_backch rest feed) Hinv) as H.
    destruct (handleBackch msg (set_backch rest feed)) as [feed'|feed']; [done|].
    by apply (same_books_inv _ _ (shutdown_books feed')).
  - done.
  - done.
Qed.

Lemma genServer_inv turns :
  ∀ feed, partition_invariant feed → good_run turns feed →
          partition_invariant (feed_of (genServer turns feed)).
Proof.
  induction turns as [|t turns IH]; intros feed Hinv Hrun; [done|].
  destruct Hrun as [Hgood Hrest]. cbn [genServer].
  pose proof (genServer_turn_inv t feed Hinv Hgood) as Hinv1.
  destruct (genServer_turn t feed) as [feed1|feed1|feed1]; [by apply IH|done|done].
Qed.

Lemma NewFeed_inv topic_ cluster_ maxVb reqT endT :
  partition_invariant (NewFeed topic_ cluster_ maxVb reqT endT).
Proof. intros b. apply books_ok_nil. Qed.

(** C1 as stated does not hold: the reconciler of a Start classifies
    every response for an expected partition, so a SUCCESS and a ROLLBACK
    for partition 1 leave it both active and rolled back, and the Start
    reports no error. *)
Lemma start_with_two_responses_overlaps :
  let e := Scenario.env Scenario.net_ok
             (Scenario.oracle [Scenario.stream_request SUCCESS 1 100 7;
                               Scenario.stream_request ROLLBACK 1 90 7;
                               Scenario.stream_request SUCCESS 2 200 7]) in
  let req := Scenario.start_req [Scenario.entry 1 100 7 0 0; Scenario.entry 2 200 7 0 0] in
  let feed := feed_of (genServer [TurnCommand e (CmdStart req)] Scenario.fresh) in
  partition_invariant Scenario.fresh
  ∧ (start e req Scenario.fresh).1 = None
  ∧ partitions (actTss feed) "b" = [1%Z; 2%Z]
  ∧ partitions (rollTss feed) "b" = [1%Z]
  ∧ ¬ partition_invariant feed.
Proof.
  intros e req feed.
  split; [apply NewFeed_inv|].
  split; [vm_compute; reflexivity|].
  assert (partitions (actTss feed) "b" = [1%Z; 2%Z]) as Ha by (vm_compute; reflexivity).
  assert (partitions (rollTss feed) "b" = [1%Z]) as Hl by (vm_compute; reflexivity).
  split; [done|]. split; [done|].
  intros Hinv. destruct (Hinv "b") as (_ & _ & _ & Hal).
  apply (Hal 1%Z); [rewrite Ha|rewrite Hl]; by left.
Qed.

(** C1, as the code has it.  Start from a new feed and let the actor take
    any turns other than an AddBuckets command: commands, messages of the
    back channel, ticks, with the data path posting in between.  If each
    timestamp of a Start or RestartVbuckets request lists a partition once,
    and no stream request is answered twice among the messages that wait
    in the back channel or arrive while such a command runs, then after
    the turns, for every bucket, no partition appears twice in [reqTs] and
    the partitions of [reqTs], [actTs] and [rollTs] are pairwise disjoint;
    this holds also when a turn ends the loop or panics. *)
Theorem turns_keep_partitions_disjoint
    (turns : list Turn) (topic_ cluster_ : string) (maxVb reqT endT : Z) :
  good_run turns (NewFeed topic_ cluster_ maxVb reqT endT) →
  partition_invariant (feed_of (genServer turns (NewFeed topic_ cluster_ maxVb reqT endT))).
Proof. intros Hrun. apply genServer_inv; [apply NewFeed_inv|exact Hrun]. Qed.

(** The run of [Scenario.run] is such a run. *)
Lemma turns_keep_partitions_disjoint_witness :
  good_run Scenario.run Scenario.fresh
  ∧ partition_invariant (feed_of (genServer Scenario.run Scenario.fresh)).
Proof.
  assert (good_run Scenario.run Scenario.fresh) as Hrun.
  { vm_compute.
    repeat match goal with
           | |- _ ∧ _ => split
           | |- True => exact I
           | |- _ => apply (bool_decide_unpack _); vm_compute; exact I
           end. }
  split; [exact Hrun|].
  exact (turns_keep_partitions_disjoint Scenario.run "topic" "localhost:9000" 1024 1000 1000 Hrun).
Defined.

(** ** Entries of the timestamp operations *)







Lemma entries_lookup m m' b : m' !! b = m !! b → entries m' b = entries m b.
Proof. unfold entries, map_index. by intros ->. Qed.



Lemma FilterByVbuckets_id ts l :
  (∀ v, v ∈ GetVbnos ts → v ∉ l) → FilterByVbuckets ts l = ts.
Proof.
  destruct ts as [t|]; [|done]. intros Hdis. simpl. f_equal.
  unfold with_Entries. rewrite filter_all.
  - by destruct t.
  - intros e He. apply Hdis. simpl. by apply list_elem_of_fmap_2.
Qed.

Lemma fresh_timestamp (feed : Feed) (ts : TsVbuuid) (vbnos32 : list Z)
    (actTs rollTs reqTs : option TsVbuuid) (ok1 ok3 : bool) :
  map_index None (actTss feed) (Bucket ts) = (actTs, ok1) →
  map_index None (reqTss feed) (Bucket ts) = (reqTs, ok3) →
  let sel := SelectByVbuckets (Some ts) (Vbno32to16 vbnos32) in
  let ts2 := if ok1 then FilterByVbuckets sel (Vbno32to16 (GetVbnos actTs)) else sel in
  let ts3 := if ok3 then FilterByVbuckets ts2 (Vbno32to16 (GetVbnos reqTs)) else ts2 in
  GetBucket ts3 = Bucket ts
  ∧ ∀ x, x ∈ GetVbnos ts3 →
         x ∈ GetVbnos sel
         ∧ x ∉ partitions (actTss feed) (Bucket ts)
         ∧ x ∉ partitions (reqTss feed) (Bucket ts).
Proof.
  intros Hact Hreq sel ts2 ts3. split.
  - subst ts3 ts2 sel. by destruct ok1, ok3.
  - intros x Hx.
    assert (GetVbnos ts2 = filter (λ v, v ∉ Vbno32to16 (partitions (actTss feed) (Bucket ts)))
                             (GetVbnos sel)) as Hts2
      by apply (GetVbnos_guarded _ _ _ _ _ Hact).
    assert (GetVbnos ts3 = filter (λ v, v ∉ Vbno32to16 (partitions (reqTss feed) (Bucket ts)))
                             (GetVbnos ts2)) as Hts3
      by apply (GetVbnos_guarded _ _ _ _ _ Hreq).
    rewrite Hts3, Hts2 in Hx.
    apply list_elem_of_filter in Hx as [Hnr [Hna Hsel]%list_elem_of_filter].
    assert (wrapped x) as Hw.
    { pose proof (Select_wrapped (Some ts) vbnos32) as Hall.
      rewrite Forall_forall in Hall. by apply Hall. }
    split; [done|].
    split; intros Hin; [apply Hna|apply Hnr]; by apply elem_of_Vbno32to16.
Qed.

(** ** The upstream of an acknowledged command *)



Lemma processSubscribers_ok net req feed es rs :
  subscribers req = inr (es, rs) → (processSubscribers net req feed).1 = None.
Proof.
  intros Hsub. unfold processSubscribers, startEndpoints. rewrite Hsub.
  by destruct (foldl _ _ _).
Qed.

(** ** The reconciler when every stream is acknowledged *)











(** ** One bucket of an acknowledged round trip *)







(** ** The loops of an acknowledged round trip *)



(** ** Start followed by ShutdownVbuckets *)




(** The round trip restores the entries and not the map values: a bucket
    that the feed does not know before the Start has, after the
    ShutdownVbuckets, timestamps that are present and empty. *)
Lemma round_trip_leaves_bucket_present :
  let req := Scenario.start_req [Scenario.entry 2 200 7 0 0] in
  let started := start Scenario.env_start2 req Scenario.fresh in
  let stopped :=
    shutdownVbuckets Scenario.env_end12
      {| sv_ShutdownTimestamps := mt_ReqTimestamps req |} started.2 in
  started.1 = None ∧ stopped.1 = None
  ∧ reqTss Scenario.fresh !! "b" = None ∧ actTss Scenario.fresh !! "b" = None
  ∧ reqTss stopped.2 !! "b" = Some (Some (NewTsVbuuid "default" "b" 0))
  ∧ actTss stopped.2 !! "b" = Some (Some (NewTsVbuuid "default" "b" 0)).
Proof. intros req started stopped. repeat split; vm_compute; reflexivity. Qed.

(** * Further properties of the feed *)

(** ** The opaque of a command *)

Lemma newOpaque_div (nanos : Z) : newOpaque nanos = ((nanos / 2 ^ 26) mod 2 ^ 16)%Z.
Proof.
  unfold newOpaque. change 65535%Z with (Z.ones 16).
  rewrite Z.land_ones by lia. rewrite Z.shiftr_div_pow2 by lia.
  rewrite (Z.mod_eq nanos (2 ^ 64)) by lia.
  replace (nanos - 2 ^ 64 * (nanos / 2 ^ 64))%Z
    with (nanos + (- (2 ^ 38) * (nanos / 2 ^ 64)) * 2 ^ 26)%Z by lia.
  rewrite Z.div_add by lia.
  replace (nanos / 2 ^ 26 + - 2 ^ 38 * (nanos / 2 ^ 64))%Z
    with (nanos / 2 ^ 26 + (- (2 ^ 22) * (nanos / 2 ^ 64)) * 2 ^ 16)%Z by lia.
  by rewrite Z.mod_add by lia.
Qed.

(** X1. The opaque of a command fits 16 bits, whatever the clock reads. *)
Theorem newOpaque_range (nanos : Z) : (0 ≤ newOpaque nanos < 65536)%Z.
Proof. rewrite newOpaque_div. apply Z.mod_pos_bound. lia. Qed.

(** X2. The opaque is made of the bits 26 to 41 of the clock: its bit [i]
    is the bit [i + 26] of the clock for [i] below 16, and is clear from
    16 on. *)
Theorem newOpaque_bits (nanos i : Z) :
  (0 ≤ i)%Z →
  Z.testbit (newOpaque nanos) i = bool_decide (i < 16)%Z && Z.testbit nanos (i + 26).
Proof.
  intros Hi. unfold newOpaque. change 65535%Z with (Z.ones 16).
  rewrite Z.land_spec, Z.shiftr_spec by done.
  case_bool_decide as Hlt.
  - rewrite Z.ones_spec_low by lia. rewrite andb_true_r. simpl.
    apply Z.mod_pow2_bits_low. lia.
  - rewrite Z.ones_spec_high by lia. by rewrite andb_false_r.
Qed.

(** X3. The opaque advances by one, modulo 2^16, every 2^26 ns, so that
    two commands 2^42 ns apart draw the same opaque. *)
Theorem newOpaque_step (nanos : Z) :
  newOpaque (nanos + 2 ^ 26) = ((newOpaque nanos + 1) mod 2 ^ 16)%Z
  ∧ newOpaque (nanos + 2 ^ 42) = newOpaque nanos.
Proof.
  rewrite !newOpaque_div. split.
  - replace (nanos + 2 ^ 26)%Z with (nanos + 1 * 2 ^ 26)%Z by lia.
    rewrite Z.div_add by lia. by rewrite Zplus_mod_idemp_l.
  - replace (nanos + 2 ^ 42)%Z with (nanos + 2 ^ 16 * 2 ^ 26)%Z by lia.
    rewrite Z.div_add by lia.
    replace (nanos / 2 ^ 26 + 2 ^ 16)%Z with (nanos / 2 ^ 26 + 1 * 2 ^ 16)%Z by lia.
    by rewrite Z.mod_add by lia.
Qed.

Lemma newOpaque_bits_witness :
  (0 ≤ 1)%Z
  ∧ Z.testbit (newOpaque 201326592) 1 = bool_decide (1 < 16)%Z && Z.testbit 201326592 (1 + 26).
Proof. split; [lia|]. apply (newOpaque_bits 201326592 1). lia. Defined.

(** ** Cleaning a bucket up *)

Lemma cleanupBucket_maps bucketn enginesOk feed :
  let feed' := cleanupBucket bucketn enginesOk feed in
  reqTss feed' = delete bucketn (reqTss feed)
  ∧ actTss feed' = delete bucketn (actTss feed)
  ∧ rollTss feed' = delete bucketn (rollTss feed)
  ∧ feeders feed' = delete bucketn (feeders feed)
  ∧ kvdata feed' = delete bucketn (kvdata feed)
  ∧ engines feed' = (if enginesOk then delete bucketn (engines feed) else engines feed)
  ∧ endpoints feed' = endpoints feed
  ∧ backch feed' = backch feed
  ∧ trace feed'
    = trace feed ++ from_option (λ feeder, [EvCloseFeed feeder]) [] (feeders feed !! bucketn)
                 ++ from_option (λ _, [EvKVClose bucketn]) [] (kvdata feed !! bucketn).
Proof.
  unfold cleanupBucket.
  destruct enginesOk; cbn [reqTss actTss rollTss feeders kvdata engines endpoints backch trace
                           set_engines set_reqTss set_actTss set_rollTss set_feeders
                           set_kvdata];
    destruct (feeders feed !! bucketn); destruct (kvdata feed !! bucketn) eqn:Hkv;
    cbn [reqTss actTss rollTss feeders kvdata engines endpoints backch trace emit set_trace
         set_engines set_reqTss set_actTss set_rollTss set_feeders set_kvdata from_option];
    rewrite ?Hkv;
    cbn [reqTss actTss rollTss feeders kvdata engines endpoints backch trace emit set_trace
         set_engines set_reqTss set_actTss set_rollTss set_feeders set_kvdata from_option];
    rewrite <- ?app_assoc, ?app_nil_r; done.
Qed.

Lemma cleanupBucket_lookup (bucketn b : string) (feed : Feed) :
  bucket_state (cleanupBucket bucketn true feed) b
  = if decide (b = bucketn) then (None, None, None, None, None, None)
    else bucket_state feed b.
Proof.
  destruct (cleanupBucket_maps bucketn true feed) as (Hr & Ha & Hl & Hf & Hk & He & _).
  cbv zeta in *. unfold bucket_state. rewrite Hr, Ha, Hl, Hf, Hk, He.
  destruct (decide (b = bucketn)) as [->|Hne].
  - by rewrite !lookup_delete_eq.
  - by rewrite !lookup_delete_ne.
Qed.

(** X4. [cleanupBucket] leaves the bucket without timestamps, upstream
    and data path; its engines go only when [enginesOk] is set; every
    other bucket, the endpoints and the back channel are untouched. *)
Theorem cleanupBucket_clears (bucketn : string) (enginesOk : bool) (feed : Feed) :
  let feed' := cleanupBucket bucketn enginesOk feed in
  bucket_state feed' bucketn
    = (None, None, None, None, None,
       if enginesOk then None else engines feed !! bucketn)
  ∧ (∀ b, b ≠ bucketn → bucket_state feed' b = bucket_state feed b)
  ∧ endpoints feed' = endpoints feed
  ∧ backch feed' = backch feed.
Proof.
  destruct (cleanupBucket_maps bucketn enginesOk feed)
    as (Hr & Ha & Hl & Hf & Hk & He & Hp & Hb & _).
  cbv zeta. unfold bucket_state. rewrite Hr, Ha, Hl, Hf, Hk, He, Hp, Hb.
  split; [|split; [|done]].
  - rewrite !lookup_delete_eq. by destruct enginesOk; rewrite ?lookup_delete_eq.
  - intros b Hb'. rewrite !lookup_delete_ne by done.
    by destruct enginesOk; rewrite ?lookup_delete_ne.
Qed.

(** [cleanupBucket] closes the upstream and then the data path of the
    bucket, each exactly when the bucket has one, and makes no other
    call. *)
Lemma cleanupBucket_closes (bucketn : string) (enginesOk : bool) (feed : Feed) :
  trace (cleanupBucket bucketn enginesOk feed)
  = trace feed
    ++ match feeders feed !! bucketn with Some feeder => [EvCloseFeed feeder] | None => [] end
    ++ match kvdata feed !! bucketn with Some _ => [EvKVClose bucketn] | None => [] end.
Proof.
  destruct (cleanupBucket_maps bucketn enginesOk feed) as (_ & _ & _ & _ & _ & _ & _ & _ & Ht).
  rewrite Ht. by destruct (feeders feed !! bucketn), (kvdata feed !! bucketn).
Qed.

Lemma Feed_eq (f g : Feed) :
  cluster f = cluster g → topic f = topic g → endpointType f = endpointType g →
  reqTss f = reqTss g → actTss f = actTss g → rollTss f = rollTss g →
  feeders f = feeders g → kvdata f = kvdata g → engines f = engines g →
  endpoints f = endpoints g → backch f = backch g →
  maxVbuckets f = maxVbuckets g → reqTimeout f = reqTimeout g →
  endTimeout f = endTimeout g → trace f = trace g → f = g.
Proof. destruct f, g. simpl. intros. by subst. Qed.

Lemma cleanupBucket_config bucketn enginesOk feed :
  let feed' := cleanupBucket bucketn enginesOk feed in
  cluster feed' = cluster feed ∧ topic feed' = topic feed
  ∧ endpointType feed' = endpointType feed ∧ maxVbuckets feed' = maxVbuckets feed
  ∧ reqTimeout feed' = reqTimeout feed ∧ endTimeout feed' = endTimeout feed.
Proof.
  unfold cleanupBucket.
  destruct enginesOk; simpl;
    repeat (match goal with |- context [match ?m !! ?k with _ => _ end] =>
              destruct (m !! k) end; simpl); done.
Qed.

(** X5. Cleaning a bucket up a second time changes nothing and closes
    nothing. *)
Theorem cleanupBucket_idempotent (bucketn : string) (enginesOk : bool) (feed : Feed) :
  cleanupBucket bucketn enginesOk (cleanupBucket bucketn enginesOk feed)
  = cleanupBucket bucketn enginesOk feed.
Proof.
  set (feed1 := cleanupBucket bucketn enginesOk feed).
  destruct (cleanupBucket_maps bucketn enginesOk feed1)
    as (Hr & Ha & Hl & Hf & Hk & He & Hp & Hb & Ht).
  destruct (cleanupBucket_config bucketn enginesOk feed1) as (Hc1 & Hc2 & Hc3 & Hc4 & Hc5 & Hc6).
  destruct (cleanupBucket_maps bucketn enginesOk feed)
    as (Hr1 & Ha1 & Hl1 & Hf1 & Hk1 & He1 & _).
  fold feed1 in Hr1, Ha1, Hl1, Hf1, Hk1, He1.
  apply Feed_eq; try done.
  - by rewrite Hr, Hr1, delete_delete_eq.
  - by rewrite Ha, Ha1, delete_delete_eq.
  - by rewrite Hl, Hl1, delete_delete_eq.
  - by rewrite Hf, Hf1, delete_delete_eq.
  - by rewrite Hk, Hk1, delete_delete_eq.
  - rewrite He, He1. destruct enginesOk; [by rewrite delete_delete_eq|done].
  - rewrite Ht, Hf1, Hk1, !lookup_delete_eq. simpl. by rewrite app_nil_r.
Qed.

(** ** DelBuckets *)

Lemma delBuckets_loop (l : list string) :
  ∀ feed,
    let feed' := foldl (λ feed bucketn, cleanupBucket bucketn true feed) feed l in
    (∀ b, b ∈ l → bucket_state feed' b = (None, None, None, None, None, None))
    ∧ (∀ b, b ∉ l → bucket_state feed' b = bucket_state feed b)
    ∧ endpoints feed' = endpoints feed
    ∧ backch feed' = backch feed.
Proof.
  induction l as [|x l IH]; intros feed; cbn [foldl]; cbv zeta.
  { split; [intros b Hb; by apply not_elem_of_nil in Hb|done]. }
  destruct (IH (cleanupBucket x true feed)) as (Hin & Hout & Hep & Hbc).
  destruct (cleanupBucket_maps x true feed) as (_ & _ & _ & _ & _ & _ & Hep1 & Hbc1 & _).
  cbv zeta in Hin, Hout, Hep, Hbc, Hep1, Hbc1.
  split; [|split; [|split]].
  - intros b Hb. destruct (decide (b ∈ l)) as [Hl|Hl]; [by apply Hin|].
    apply elem_of_cons in Hb as [->|Hb]; [|done].
    rewrite (Hout _ Hl), cleanupBucket_lookup. by rewrite decide_True.
  - intros b Hb. apply not_elem_of_cons in Hb as [Hne Hl].
    rewrite (Hout _ Hl), cleanupBucket_lookup. by rewrite decide_False.
  - by rewrite Hep.
  - by rewrite Hbc.
Qed.

(** X6. DelBuckets reports no error and leaves every listed bucket
    without timestamps, upstream, data path and engines; the buckets that
    it does not list, the endpoints and the back channel are untouched. *)
Theorem delBuckets_drops (req : DelBucketsRequest) (feed : Feed) :
  let res := delBuckets req feed in
  res.1 = None
  ∧ (∀ b, b ∈ db_Buckets req → bucket_state res.2 b = (None, None, None, None, None, None))
  ∧ (∀ b, b ∉ db_Buckets req → bucket_state res.2 b = bucket_state feed b)
  ∧ endpoints res.2 = endpoints feed
  ∧ backch res.2 = backch feed.
Proof. split; [done|]. apply delBuckets_loop. Qed.

(** ** Subscribers *)

(** X7. [subscribers] hands the two maps back exactly when both
    extractions succeed and the maps have the same instance ids; every
    other request, whatever the extraction error was, gets
    [ErrorInconsistentFeed]. *)
Theorem subscribers_accepts (req : Subscriber) :
  (∀ es rs, subscribers req = inr (es, rs)
            ↔ GetEvaluators req = inr es ∧ GetRouters req = inr rs ∧ dom es = dom rs)
  ∧ (∀ e, subscribers req = inl e → e = ErrorInconsistentFeed).
Proof.
  unfold subscribers.
  destruct (GetEvaluators req) as [e1|evaluators].
  { split; [|by intros e [= <-]]. intros es rs. split; [done|by intros [? _]]. }
  destruct (GetRouters req) as [e2|routers].
  { split; [|by intros e [= <-]]. intros es rs. split; [done|by intros (_ & ? & _)]. }
  split.
  - intros es rs. split.
    + case_bool_decide as Hsize; [done|].
      destruct (forallb _ _) eqn:Hall; [|done].
      intros [= <- <-]. split; [done|]. split; [done|].
      assert (size evaluators = size routers) as Heq
        by (destruct (decide (size evaluators = size routers)); [done|contradiction]).
      apply set_subseteq_size_eq.
      * intros id [ev Hev]%elem_of_dom.
        apply Is_true_true_2, forallb_True in Hall. rewrite Forall_forall in Hall.
        apply elem_of_map_to_list in Hev. specialize (Hall _ Hev). simpl in Hall.
        apply elem_of_dom. by apply bool_decide_unpack in Hall.
      * rewrite !size_dom. lia.
    + intros ([= <-] & [= <-] & Hdom).
      rewrite bool_decide_eq_false_2.
      2:{ intros Hne. apply Hne. by rewrite <- !size_dom, Hdom. }
      assert (forallb (λ kv : Z * Evaluator, bool_decide (is_Some (routers !! kv.1)))
                      (map_to_list evaluators) = true) as ->; [|done].
      apply Is_true_true_1, forallb_True, Forall_forall.
      intros [id ev] Hin%elem_of_map_to_list. simpl.
      apply bool_decide_pack, elem_of_dom. rewrite <- Hdom. by apply elem_of_dom.
  - intros e. case_bool_decide; [by intros [= <-]|].
    destruct (forallb _ _); [done|by intros [= <-]].
Qed.

(** ** Engines *)

Lemma endpoint_call_mono topic_ typ (raddrs raddrs' : list string) ev :
  (∀ r, r ∈ raddrs → r ∈ raddrs') →
  endpoint_call topic_ typ raddrs ev → endpoint_call topic_ typ raddrs' ev.
Proof. intros Hsub. destruct ev; simpl; try done; [by auto|]. intros (? & ? & ?). by auto. Qed.

Lemma endpointStep_frame net st raddr :
  let st' := endpointStep net st raddr in
  streams st'.1 = streams st.1 ∧ engines st'.1 = engines st.1
  ∧ backch st'.1 = backch st.1
  ∧ topic st'.1 = topic st.1 ∧ endpointType st'.1 = endpointType st.1
  ∧ ∃ calls, trace st'.1 = trace st.1 ++ calls
             ∧ Forall (endpoint_call (topic st.1) (endpointType st.1) [raddr]) calls
             ∧ omap looked_up calls = [raddr].
Proof.
  destruct st as [feed err]. unfold endpointStep.
  assert (raddr ∈ [raddr]) as Hin by (by left).
  destruct (getEndpoint net raddr feed) as [[raddr1 endpoint] [e|]].
  { cbv zeta. cbn [fst]. split_and!; try done.
    exists [EvEquivalentIP raddr]. split_and!; [done| |done]. by repeat constructor. }
  destruct endpoint as [ep|]; [destruct (Ping net ep)|];
    try destruct (epFactory net _ _ raddr);
    cbv zeta; cbn [fst]; (split_and!; try done);
    cbn [trace topic endpointType emit set_trace set_endpoints]; rewrite <- ?app_assoc;
    (eexists; split_and!; [reflexivity| |done]); by repeat constructor.
Qed.

Lemma endpointSteps_frame net (l : list string) :
  ∀ st,
    let st' := foldl (endpointStep net) st l in
    streams st'.1 = streams st.1 ∧ engines st'.1 = engines st.1
    ∧ backch st'.1 = backch st.1
    ∧ topic st'.1 = topic st.1 ∧ endpointType st'.1 = endpointType st.1
    ∧ ∃ calls, trace st'.1 = trace st.1 ++ calls
               ∧ Forall (endpoint_call (topic st.1) (endpointType st.1) l) calls
               ∧ omap looked_up calls = l.
Proof.
  induction l as [|x l IH]; intros st; cbn [foldl].
  { cbv zeta. split_and!; try done. exists []. by rewrite app_nil_r. }
  destruct (IH (endpointStep net st x)) as (H1 & H2 & H3 & H4 & H5 & calls2 & Ht2 & Hc2 & Hl2).
  destruct (endpointStep_frame net st x) as (G1 & G2 & G3 & G4 & G5 & calls1 & Ht1 & Hc1 & Hl1).
  cbv zeta in *. rewrite H1, H2, H3, H4, H5. split_and!; try done.
  exists (calls1 ++ calls2). rewrite Ht2, Ht1, <- app_assoc. split_and!; [done| |].
  - apply Forall_app. split.
    + eapply Forall_impl; [exact Hc1|]. intros ev. apply endpoint_call_mono.
      intros r ->%list_elem_of_singleton. by left.
    + rewrite G4, G5 in Hc2. eapply Forall_impl; [exact Hc2|]. intros ev.
      apply endpoint_call_mono. intros r Hr. by right.
  - by rewrite omap_app, Hl1, Hl2.
Qed.

Lemma startEndpoints_frame net routers feed :
  let feed' := (startEndpoints net routers feed).2 in
  streams feed' = streams feed ∧ engines feed' = engines feed
  ∧ backch feed' = backch feed.
Proof.
  unfold startEndpoints.
  assert (∀ (l : list (Z * Router)) st,
            let st' := foldl (λ st (kv : Z * Router),
                                foldl (endpointStep net) st (rt_endpoints kv.2)) st l in
            streams st'.1 = streams st.1 ∧ engines st'.1 = engines st.1
            ∧ backch st'.1 = backch st.1) as Hloop.
  { induction l as [|x l IH]; intros st; cbn [foldl]; [done|].
    destruct (IH (foldl (endpointStep net) st (rt_endpoints x.2))) as (H1 & H2 & H3).
    destruct (endpointSteps_frame net (rt_endpoints x.2) st) as (G1 & G2 & G3 & _).
    cbv zeta in *. by rewrite H1, H2, H3. }
  specialize (Hloop (map_to_list routers) (feed, None)).
  destruct (foldl _ _ _) as [feed' err]. exact Hloop.
Qed.

Lemma install_engine_at (rs : gmap Z Router) (feed : Feed) (kv : Z * Evaluator) b uuid :
  let step := λ feed (kv : Z * Evaluator),
                let bucketn := ev_bucket kv.2 in
                let '(m, ok) := map_index ∅ (engines feed) bucketn in
                let m := if ok then m else ∅ in
                let engine := NewEngine kv.1 kv.2 (rs !! kv.1) in
                set_engines (<[bucketn := <[kv.1 := engine]> m]> (engines feed)) feed in
  engine_at (step feed kv) b uuid
  = if decide (kv.1 = uuid ∧ ev_bucket kv.2 = b)
    then Some (NewEngine kv.1 kv.2 (rs !! kv.1))
    else engine_at feed b uuid.
Proof.
  cbv zeta. unfold engine_at, map_index.
  destruct (engines feed !! ev_bucket kv.2) as [m|] eqn:Hm;
    cbn [engines set_engines];
    (destruct (decide (ev_bucket kv.2 = b)) as [<-|Hb];
     [rewrite lookup_insert_eq; cbn [mbind option_bind];
      destruct (decide (kv.1 = uuid)) as [<-|Hu];
      [rewrite lookup_insert_eq; by rewrite decide_True
      |rewrite lookup_insert_ne by done; rewrite decide_False by (by intros [? _]);
       by rewrite Hm]
     |rewrite lookup_insert_ne by done; by rewrite decide_False by (by intros [_ ?])]).
Qed.

Lemma install_engines_at (rs : gmap Z Router) (l : list (Z * Evaluator)) b uuid :
  let step := λ feed (kv : Z * Evaluator),
                let bucketn := ev_bucket kv.2 in
                let '(m, ok) := map_index ∅ (engines feed) bucketn in
                let m := if ok then m else ∅ in
                let engine := NewEngine kv.1 kv.2 (rs !! kv.1) in
                set_engines (<[bucketn := <[kv.1 := engine]> m]> (engines feed)) feed in
  ∀ feed,
    (uuid ∉ l.*1 → engine_at (foldl step feed l) b uuid = engine_at feed b uuid)
    ∧ (NoDup l.*1 → ∀ ev, (uuid, ev) ∈ l →
       engine_at (foldl step feed l) b uuid
       = if decide (ev_bucket ev = b) then Some (NewEngine uuid ev (rs !! uuid))
         else engine_at feed b uuid).
Proof.
  intros step. induction l as [|[k e] l IH]; intros feed.
  { split; [done|]. intros _ ev Hin. by apply not_elem_of_nil in Hin. }
  cbn [foldl fmap list_fmap fst].
  destruct (IH (step feed (k, e))) as [IHout IHin].
  pose proof (install_engine_at rs feed (k, e) b uuid) as Hstep.
  cbv zeta in Hstep. fold step in Hstep. cbn [fst snd] in Hstep.
  split.
  - intros [Hne Hnin]%not_elem_of_cons.
    rewrite (IHout Hnin), Hstep. rewrite decide_False; [done|]. intros [? _]. by apply Hne.
  - intros [Hk Hnd]%NoDup_cons ev [[= -> ->]|Hin]%elem_of_cons.
    + rewrite (IHout Hk), Hstep.
      destruct (decide (ev_bucket e = b)).
      * by rewrite decide_True.
      * rewrite decide_False; [done|]. by intros [_ ?].
    + rewrite (IHin Hnd _ Hin), Hstep.
      rewrite (decide_False (P := k = uuid ∧ _)); [done|].
      intros [-> _]. apply Hk. by apply (list_elem_of_fmap_2 fst) in Hin.
Qed.

Lemma processSubscribers_streams net req feed :
  streams (processSubscribers net req feed).2 = streams feed
  ∧ backch (processSubscribers net req feed).2 = backch feed.
Proof.
  unfold processSubscribers. destruct (subscribers req) as [e|[es rs]]; [done|].
  destruct (startEndpoints_frame net rs feed) as (Hs & _ & Hb).
  assert ((startEndpoints net rs feed).1 = None) as Hnil.
  { unfold startEndpoints. by destruct (foldl _ _ _). }
  destruct (startEndpoints net rs feed) as [e feed1]. simpl in Hnil. subst e.
  cbn [fst snd] in *. rewrite <- Hs, <- Hb. generalize feed1. clear.
  induction (map_to_list es) as [|x l IH]; intros feed1; cbn [foldl]; [done|].
  destruct (IH (let '(m, ok) := map_index ∅ (engines feed1) (ev_bucket x.2) in
                set_engines
                  (<[ev_bucket x.2 := <[x.1 := NewEngine x.1 x.2 (rs !! x.1)]>
                                        (if ok then m else ∅)]> (engines feed1)) feed1))
    as [-> ->].
  unfold map_index. by destruct (engines feed1 !! _).
Qed.

(** X8. After a well-formed subscriber set is processed, each of its
    evaluators has an engine under its bucket and its id, built from the
    evaluator and the router of that id; every other engine of the feed,
    an older engine of the same id under another bucket among them, is
    the one it was.  The timestamps, the upstreams, the data paths and
    the back channel are untouched. *)
Theorem processSubscribers_installs (net : Network) (req : Subscriber) (feed : Feed)
    (es : gmap Z Evaluator) (rs : gmap Z Router) :
  subscribers req = inr (es, rs) →
  let res := processSubscribers net req feed in
  res.1 = None
  ∧ (∀ b uuid,
       engine_at res.2 b uuid
       = match es !! uuid with
         | Some ev => if decide (ev_bucket ev = b)
                      then Some (NewEngine uuid ev (rs !! uuid))
                      else engine_at feed b uuid
         | None => engine_at feed b uuid
         end)
  ∧ streams res.2 = streams feed
  ∧ backch res.2 = backch feed.
Proof.
  intros Hsub. cbv zeta. unfold processSubscribers. rewrite Hsub.
  destruct (startEndpoints_frame net rs feed) as (Hs & He & Hb).
  assert ((startEndpoints net rs feed).1 = None) as Hnil.
  { unfold startEndpoints. by destruct (foldl _ _ _). }
  destruct (startEndpoints net rs feed) as [e feed1]. simpl in Hnil. subst e.
  cbn [fst snd] in *.
  split; [done|].
  split; [|split].
  - intros b uuid.
    destruct (install_engines_at rs (map_to_list es) b uuid feed1) as [Hout Hin].
    destruct (es !! uuid) as [ev|] eqn:Hev.
    + etrans; [apply (Hin (NoDup_fst_map_to_list es) ev); by apply elem_of_map_to_list|].
      unfold engine_at. by rewrite He.
    + etrans; [apply Hout|].
      * intros ([k e] & -> & Hin')%list_elem_of_fmap.
        apply elem_of_map_to_list in Hin'. simpl in Hev. congruence.
      * unfold engine_at. by rewrite He.
  - rewrite <- Hs. generalize feed1. clear.
    induction (map_to_list es) as [|x l IH]; intros feed1; cbn [foldl]; [done|].
    rewrite IH. unfold map_index. by destruct (engines feed1 !! _).
  - rewrite <- Hb. generalize feed1. clear.
    induction (map_to_list es) as [|x l IH]; intros feed1; cbn [foldl]; [done|].
    rewrite IH. unfold map_index. by destruct (engines feed1 !! _).
Qed.

(** ** Endpoints *)

Lemma endpointStep_keys net st raddr k :
  is_Some (endpoints st.1 !! k) → is_Some (endpoints (endpointStep net st raddr).1 !! k).
Proof.
  destruct st as [feed err]. unfold endpointStep.
  destruct (getEndpoint net raddr feed) as [[raddr1 endpoint] [e|]]; [done|].
  intros Hk.
  assert (∀ ep, is_Some (<[raddr1 := ep]> (<[raddr := ep]> (endpoints feed)) !! k)) as Hins.
  { intros ep. rewrite !lookup_insert_is_Some'. auto. }
  destruct endpoint as [ep|]; [destruct (Ping net ep)|];
    try destruct (epFactory net _ _ raddr);
    cbn [fst endpoints set_endpoints emit set_trace]; auto.
Qed.

Lemma endpointSteps_keys net (l : list string) k :
  ∀ st, is_Some (endpoints st.1 !! k) →
        is_Some (endpoints (foldl (endpointStep net) st l).1 !! k).
Proof.
  induction l as [|x l IH]; intros st Hk; cbn [foldl]; [done|].
  apply IH. by apply endpointStep_keys.
Qed.

Lemma post_engines_frame (l : list (string * KVData)) :
  ∀ feed,
    let feed' := foldl (λ feed (kv : string * KVData), emit (EvAddEngines kv.1) feed) feed l in
    streams feed' = streams feed ∧ engines feed' = engines feed
    ∧ endpoints feed' = endpoints feed ∧ backch feed' = backch feed
    ∧ trace feed' = trace feed ++ (EvAddEngines <$> l.*1).
Proof.
  induction l as [|x l IH]; intros feed; cbn [foldl].
  { cbv zeta. by rewrite app_nil_r. }
  destruct (IH (emit (EvAddEngines x.1) feed)) as (H1 & H2 & H3 & H4 & H5).
  cbv zeta in *. rewrite H1, H2, H3, H4, H5. cbn [trace emit set_trace fmap list_fmap].
  by rewrite <- app_assoc.
Qed.

(** X9. RepairEndpoints keeps every address that the endpoint table
    has and leaves the timestamps, the upstreams, the data paths, the
    engines and the back channel alone.  Its calls are, first, those of
    the endpoints: one address lookup for each address of the request, in
    the order of the request, with pings of endpoints and calls of the
    factory, for the topic and the endpoint type of the feed and for
    addresses of the request; then it posts the engines once to each data
    path of the feed, in an order that is left open, as Go ranges over a
    map in no fixed order. *)
Theorem repairEndpoints_effects (net : Network) (req : RepairEndpointsRequest) (feed : Feed) :
  let feed' := (repairEndpoints net req feed).2 in
  (∀ raddr, is_Some (endpoints feed !! raddr) → is_Some (endpoints feed' !! raddr))
  ∧ streams feed' = streams feed
  ∧ engines feed' = engines feed
  ∧ backch feed' = backch feed
  ∧ ∃ calls buckets,
      trace feed' = trace feed ++ calls ++ (EvAddEngines <$> buckets)
      ∧ Forall (endpoint_call (topic feed) (endpointType feed) (re_Endpoints req)) calls
      ∧ omap looked_up calls = re_Endpoints req
      ∧ NoDup buckets
      ∧ ∀ b, b ∈ buckets ↔ is_Some (kvdata feed !! b).
Proof.
  cbv zeta. unfold repairEndpoints.
  pose proof (endpointSteps_keys net (re_Endpoints req)) as Hkeys.
  destruct (endpointSteps_frame net (re_Endpoints req) (feed, None))
    as (Hs & He & Hb & _ & _ & calls & Ht & Hcalls & Hlook).
  specialize (λ k, Hkeys k (feed, None)).
  destruct (foldl (endpointStep net) (feed, None) (re_Endpoints req)) as [feed1 err].
  cbn [fst snd] in *.
  destruct (post_engines_frame (map_to_list (kvdata feed1)) feed1) as (H1 & H2 & H3 & H4 & H5).
  cbv zeta in *. rewrite H1, H2, H3, H4, H5, Hs, He, Hb, Ht.
  split; [exact Hkeys|]. split; [done|]. split; [done|]. split; [done|].
  assert (kvdata feed1 = kvdata feed) as -> by (by injection Hs).
  exists calls, (map_to_list (kvdata feed)).*1. rewrite <- app_assoc.
  split_and!; [done|done|done|apply NoDup_fst_map_to_list|].
  intros b. split.
  - intros ([b' kv] & -> & Hin)%list_elem_of_fmap. apply elem_of_map_to_list in Hin.
    by exists kv.
  - intros [kv Hkv]. apply elem_of_map_to_list in Hkv.
    by apply (list_elem_of_fmap_2 fst) in Hkv.
Qed.

Lemma endpointStep_registers net st raddr :
  reliable net → is_Some (endpoints (endpointStep net st raddr).1 !! raddr).
Proof.
  intros [Hip Hfac]. destruct st as [feed err]. unfold endpointStep, getEndpoint.
  destruct (Hip raddr (endpointRaddrs feed)) as [eqRaddr ->].
  destruct (Hfac (topic feed) (endpointType feed) raddr) as [ep' Hfac'].
  set (raddr1 := if bool_decide (raddr ≠ eqRaddr) then eqRaddr else raddr).
  assert (∀ ep, is_Some (<[raddr1 := ep]> (<[raddr := ep]> (endpoints feed)) !! raddr)) as Hins.
  { intros ep. rewrite !lookup_insert_is_Some'. auto. }
  destruct (endpoints feed !! raddr1) as [ep|]; [destruct (Ping net ep)|];
    cbn [fst endpoints topic endpointType set_endpoints emit set_trace];
    rewrite ?Hfac'; cbn [fst endpoints set_endpoints emit set_trace]; auto.
Qed.

(** X10. Over a network that resolves every address and always starts
    an endpoint, every address of a RepairEndpoints request is in the
    endpoint table afterwards. *)
Theorem repairEndpoints_registers (net : Network) (req : RepairEndpointsRequest)
    (feed : Feed) :
  reliable net →
  ∀ raddr, raddr ∈ re_Endpoints req →
           is_Some (endpoints (repairEndpoints net req feed).2 !! raddr).
Proof.
  intros Hnet raddr Hin. unfold repairEndpoints.
  assert (∀ l st, raddr ∈ l → is_Some (endpoints (foldl (endpointStep net) st l).1 !! raddr))
    as Hloop.
  { induction l as [|x l IH]; intros st Hl; [by apply not_elem_of_nil in Hl|].
    cbn [foldl]. destruct (decide (raddr ∈ l)) as [Hl'|Hl']; [by apply IH|].
    apply elem_of_cons in Hl as [->|Hl]; [|done].
    apply endpointSteps_keys. by apply endpointStep_registers. }
  specialize (Hloop (re_Endpoints req) (feed, None) Hin).
  destruct (foldl (endpointStep net) (feed, None) (re_Endpoints req)) as [feed1 err].
  cbn [fst snd] in *.
  destruct (post_engines_frame (map_to_list (kvdata feed1)) feed1) as (_ & _ & H3 & _).
  cbv zeta in H3. by rewrite H3.
Qed.

(** X11. RepairEndpoints replaces no endpoint that answers its ping: when
    every address of the request is its own canonical form and has an
    endpoint that is alive, the endpoint table is the one it was. *)
Theorem repairEndpoints_reuses_live (net : Network) (req : RepairEndpointsRequest)
    (feed : Feed) :
  (∀ raddr, raddr ∈ re_Endpoints req →
     (∀ raddrs, EquivalentIP net raddr raddrs = inr raddr)
     ∧ ∃ ep, endpoints feed !! raddr = Some ep ∧ Ping net ep = true) →
  endpoints (repairEndpoints net req feed).2 = endpoints feed.
Proof.
  intros Hlive. unfold repairEndpoints.
  assert (∀ l st, (∀ raddr, raddr ∈ l → raddr ∈ re_Endpoints req) →
                  endpoints st.1 = endpoints feed →
                  endpoints (foldl (endpointStep net) st l).1 = endpoints feed) as Hloop.
  { induction l as [|x l IH]; intros [feed0 err] Hsub Heq; [done|].
    cbn [foldl]. apply IH; [intros r Hr; apply Hsub; by right|].
    destruct (Hlive x) as [Hip (ep & Hep & Hping)]; [apply Hsub; by left|].
    cbn [fst] in Heq. unfold endpointStep, getEndpoint. rewrite Hip.
    rewrite bool_decide_eq_false_2 by (by intros ?). rewrite Heq, Hep, Hping.
    cbn [fst endpoints set_endpoints emit set_trace]. rewrite Heq.
    rewrite (insert_id (endpoints feed) x ep Hep). by apply insert_id. }
  specialize (Hloop (re_Endpoints req) (feed, None) (λ _ H, H) eq_refl).
  destruct (foldl (endpointStep net) (feed, None) (re_Endpoints req)) as [feed1 err].
  cbn [fst snd] in *.
  destruct (post_engines_frame (map_to_list (kvdata feed1)) feed1) as (_ & _ & H3 & _).
  cbv zeta in H3. by rewrite H3.
Qed.

(** ** Posting to the data paths *)

Lemma emit_fold {A : Type} (g : A → Event) (l : list A) :
  ∀ feed, foldl (λ feed x, emit (g x) feed) feed l = set_trace (trace feed ++ (g <$> l)) feed.
Proof.
  induction l as [|x l IH]; intros feed; cbn [foldl fmap list_fmap].
  - destruct feed. unfold set_trace. simpl. by rewrite app_nil_r.
  - rewrite IH. unfold emit, set_trace. simpl. by rewrite <- app_assoc.
Qed.

Lemma post_fold {A : Type} (g : string → A → Event) (l : list (string * A)) :
  ∀ st : Feed * option Error,
    let st' := foldl (λ (st : Feed * option Error) (kv : string * A),
                        match kvdata st.1 !! kv.1 with
                        | Some _ => (emit (g kv.1 kv.2) st.1, st.2)
                        | None => (st.1, Some ErrorInvalidBucket)
                        end) st l in
    streams st'.1 = streams st.1 ∧ engines st'.1 = engines st.1
    ∧ endpoints st'.1 = endpoints st.1 ∧ backch st'.1 = backch st.1
    ∧ (Exists (λ kv, kvdata st.1 !! kv.1 = None) l → st'.2 = Some ErrorInvalidBucket)
    ∧ (Forall (λ kv, is_Some (kvdata st.1 !! kv.1)) l → st'.2 = st.2).
Proof.
  induction l as [|x l IH]; intros st; cbn [foldl]; cbv zeta.
  { repeat split; try done. by intros ?%Exists_nil. }
  set (st1 := match kvdata st.1 !! x.1 with
              | Some _ => (emit (g x.1 x.2) st.1, st.2)
              | None => (st.1, Some ErrorInvalidBucket)
              end).
  assert (streams st1.1 = streams st.1 ∧ engines st1.1 = engines st.1
          ∧ endpoints st1.1 = endpoints st.1 ∧ backch st1.1 = backch st.1) as (G1 & G2 & G3 & G4).
  { subst st1. by destruct (kvdata st.1 !! x.1). }
  assert (kvdata st1.1 = kvdata st.1) as Gk by (by injection G1).
  destruct (IH st1) as (H1 & H2 & H3 & H4 & Hex & Hall). cbv zeta in *.
  rewrite H1, H2, H3, H4, G1, G2, G3, G4. rewrite Gk in Hex, Hall.
  split; [done|]. split; [done|]. split; [done|]. split; [done|]. split.
  - intros [Hx|Hl]%Exists_cons.
    + destruct (decide (Exists (λ kv : string * A, kvdata st.1 !! kv.1 = None) l)) as [Hl|Hl].
      * by apply Hex.
      * rewrite Hall.
        -- subst st1. by rewrite Hx.
        -- apply Forall_forall. intros kv Hkv.
           destruct (kvdata st.1 !! kv.1) eqn:Hk; [done|].
           exfalso. apply Hl. apply Exists_exists. by exists kv.
    + by apply Hex.
  - intros [Hx Hl]%Forall_cons. rewrite (Hall Hl). subst st1.
    by destruct Hx as [? ->].
Qed.

(** ** DelInstances and AddInstances *)

(** X12. DelInstances removes the listed instance ids from the engines of
    every bucket and keeps every other engine; a bucket whose engines are
    all removed stays in the table, with no engine.  The timestamps, the
    upstreams, the data paths, the endpoints and the back channel are
    untouched. *)
Theorem delInstances_removes (req : DelInstancesRequest) (feed : Feed) :
  let feed' := (delInstances req feed).2 in
  (∀ b uuid,
     engine_at feed' b uuid
     = if decide (uuid ∈ di_InstanceIds req) then None else engine_at feed b uuid)
  ∧ dom (engines feed') = dom (engines feed)
  ∧ streams feed' = streams feed
  ∧ endpoints feed' = endpoints feed
  ∧ backch feed' = backch feed.
Proof.
  cbv zeta. unfold delInstances.
  match goal with
  | |- context [foldl ?g (feed, None) ?l] =>
      pose proof (post_fold (λ k v, EvDeleteEngines k v) l (feed, None)) as Hpost;
      cbv zeta beta in Hpost; destruct (foldl g (feed, None) l) as [feed1 err]
  end.
  destruct Hpost as (Hs & _ & Hp & Hb & _). cbn [fst snd] in *.
  split; [|split; [|done]].
  - intros b uuid. unfold engine_at. cbn [engines set_engines].
    rewrite lookup_fmap. destruct (engines feed !! b) as [m|]; simpl.
    + rewrite map_lookup_filter. destruct (m !! uuid) as [e|]; simpl.
      * destruct (decide (uuid ∈ di_InstanceIds req)).
        -- by rewrite option_guard_False by (by intros ?).
        -- by rewrite option_guard_True.
      * by destruct (decide (uuid ∈ di_InstanceIds req)).
    + by destruct (decide (uuid ∈ di_InstanceIds req)).
  - cbn [engines set_engines]. by rewrite dom_fmap_L.
Qed.

(** X13. DelInstances answers [ErrorInvalidBucket] when some bucket of
    the engine table has no data path, and nil otherwise; the engines are
    updated in both cases. *)
Theorem delInstances_error (req : DelInstancesRequest) (feed : Feed) :
  ((delInstances req feed).1 = None
   ↔ ∀ b, is_Some (engines feed !! b) → is_Some (kvdata feed !! b))
  ∧ ((delInstances req feed).1 = None
     ∨ (delInstances req feed).1 = Some ErrorInvalidBucket).
Proof.
  unfold delInstances.
  match goal with
  | |- context [foldl ?g (feed, None) ?l] =>
      pose proof (post_fold (λ k v, EvDeleteEngines k v) l (feed, None)) as Hpost;
      cbv zeta beta in Hpost; destruct (foldl g (feed, None) l) as [feed1 err]
  end.
  destruct Hpost as (_ & _ & _ & _ & Hex & Hall). cbn [fst snd] in *.
  match type of Hall with Forall ?P ?l → _ => destruct (decide (Forall P l)) as [Hf|Hf] end.
  - rewrite (Hall Hf). split; [|by left]. split; [|done]. intros _ b [m Hm].
    rewrite Forall_forall in Hf.
    apply (Hf (b, (map_to_list (filter (λ kv : Z * Engine, kv.1 ∈ di_InstanceIds req) m)).*1)).
    apply elem_of_map_to_list. by rewrite lookup_fmap, Hm.
  - apply not_Forall_Exists in Hf; [|apply _].
    assert (err = Some ErrorInvalidBucket) as ->.
    { apply Hex. eapply Exists_impl; [exact Hf|]. intros kv Hkv. simpl in Hkv.
      by destruct (kvdata feed !! kv.1); [exfalso; apply Hkv|]. }
    split; [|by right]. split; [done|]. intros Hall'. exfalso.
    apply Exists_exists in Hf as ([b ids] & Hin & Hno). simpl in Hno.
    apply elem_of_map_to_list in Hin. rewrite lookup_fmap in Hin.
    destruct (engines feed !! b) as [m|] eqn:Hm; [|done].
    apply Hno, Hall'. by rewrite Hm.
Qed.

(** X14. AddInstances with a well-formed subscriber set installs its
    engines whether or not it reports an error, and answers
    [ErrorInvalidBucket] exactly when a bucket of the engine table, after
    the installation, has no data path. *)
Theorem addInstances_installs (env : Env) (req : AddInstancesRequest) (feed : Feed)
    (es : gmap Z Evaluator) (rs : gmap Z Router) :
  subscribers (ai_Subscriber req) = inr (es, rs) →
  let installed := (processSubscribers (env_net env) (ai_Subscriber req) feed).2 in
  let res := addInstances env req feed in
  engines res.2 = engines installed
  ∧ streams res.2 = streams feed
  ∧ (res.1 = None ↔ ∀ b, is_Some (engines installed !! b) → is_Some (kvdata feed !! b))
  ∧ (res.1 = None ∨ res.1 = Some ErrorInvalidBucket).
Proof.
  intros Hsub. cbv zeta. unfold addInstances.
  pose proof (processSubscribers_ok (env_net env) _ feed es rs Hsub) as Hnil.
  destruct (processSubscribers_streams (env_net env) (ai_Subscriber req) feed)
    as [Hstreams _].
  destruct (processSubscribers (env_net env) (ai_Subscriber req) feed) as [e feedP].
  cbn [fst snd] in *. subst e.
  match goal with
  | |- context [foldl ?g (feedP, None) ?l] =>
      pose proof (post_fold (λ k (_ : gmap Z Engine), EvAddEngines k) l (feedP, None)) as Hpost;
      cbv zeta beta in Hpost; destruct (foldl g (feedP, None) l) as [feed1 err]
  end.
  destruct Hpost as (Hs & He & _ & _ & Hex & Hall). cbn [fst snd] in *.
  assert (kvdata feedP = kvdata feed) as Hk by (by injection Hstreams).
  rewrite Hk in Hex, Hall.
  split; [done|]. split; [by rewrite Hs|].
  match type of Hall with Forall ?P ?l → _ => destruct (decide (Forall P l)) as [Hf|Hf] end.
  - rewrite (Hall Hf). split; [|by left]. split; [|done]. intros _ b [m Hm].
    rewrite Forall_forall in Hf. apply (Hf (b, m)). by apply elem_of_map_to_list.
  - apply not_Forall_Exists in Hf; [|apply _].
    assert (err = Some ErrorInvalidBucket) as ->.
    { apply Hex. eapply Exists_impl; [exact Hf|]. intros kv Hkv. simpl in Hkv.
      by destruct (kvdata feed !! kv.1); [exfalso; apply Hkv|]. }
    split; [|by right]. split; [done|]. intros Hall'. exfalso.
    apply Exists_exists in Hf as ([b m] & Hin & Hno). simpl in Hno.
    apply elem_of_map_to_list in Hin. apply Hno, Hall'. by rewrite Hin.
Qed.

(** ** Shutdown *)

Lemma close_data_paths (l : list (string * KVData)) :
  ∀ feed,
    foldl (λ feed (kv : string * KVData),
             set_kvdata (delete kv.1 (kvdata feed)) (emit (EvKVClose kv.1) feed)) feed l
    = set_kvdata (foldl (λ m (kv : string * KVData), delete kv.1 m) (kvdata feed) l)
        (set_trace (trace feed ++ (EvKVClose <$> l.*1)) feed).
Proof.
  induction l as [|x l IH]; intros feed; cbn [foldl fmap list_fmap].
  - destruct feed. unfold set_kvdata, set_trace. simpl. by rewrite app_nil_r.
  - rewrite IH. unfold emit, set_kvdata, set_trace. simpl. by rewrite <- app_assoc.
Qed.

Lemma delete_all_keys {A : Type} (m : gmap string A) :
  foldl (λ m' (kv : string * A), delete kv.1 m') m (map_to_list m) = ∅.
Proof.
  assert (∀ (l : list (string * A)) (m' : gmap string A) k,
            foldl (λ m' (kv : string * A), delete kv.1 m') m' l !! k
            = if decide (k ∈ l.*1) then None else m' !! k) as Hloop.
  { induction l as [|x l IH]; intros m' k; cbn [foldl fmap list_fmap]; [done|].
    rewrite IH. destruct (decide (k ∈ l.*1)) as [Hl|Hl].
    - rewrite decide_True; [done|]. by right.
    - destruct (decide (k = x.1)) as [->|Hne].
      + rewrite lookup_delete_eq. rewrite decide_True; [done|]. by left.
      + rewrite lookup_delete_ne by done. rewrite decide_False; [done|].
        by intros [?|?]%elem_of_cons. }
  apply map_eq. intros k. rewrite Hloop, lookup_empty.
  destruct (decide (k ∈ (map_to_list m).*1)) as [|Hk]; [done|].
  destruct (m !! k) as [v|] eqn:Hv; [|done].
  exfalso. apply Hk. apply elem_of_map_to_list in Hv.
  by apply (list_elem_of_fmap_2 fst) in Hv.
Qed.

Lemma two_elements_split {A : Type} (l : list A) (x y : A) :
  x ∈ l → y ∈ l → x ≠ y →
  ∃ l1 l2 l3, l = l1 ++ x :: l2 ++ y :: l3 ∨ l = l1 ++ y :: l2 ++ x :: l3.
Proof.
  intros Hx Hy Hne. apply list_elem_of_split in Hx as (l1 & l2 & ->).
  apply elem_of_app in Hy as [Hy|Hy].
  - apply list_elem_of_split in Hy as (k1 & k2 & ->).
    exists k1, k2, l2. right. by rewrite <- app_assoc.
  - apply elem_of_cons in Hy as [->|Hy]; [done|].
    apply list_elem_of_split in Hy as (k1 & k2 & ->).
    exists l1, k1, k2. by left.
Qed.

(** X15. Shutdown answers nil and leaves the feed without data paths,
    while the timestamps, the upstreams, the engines and the endpoints
    stay in their tables.  It closes first the upstream of every entry of
    the table of upstreams, then the data path of every bucket that has
    one, then the endpoint of every entry of the endpoint table, and the
    finish channel last; within each of the three groups the order is
    left open, as Go ranges over a map in no fixed order.  The endpoints
    are closed entry by entry: an endpoint that the table holds under two
    addresses is closed twice. *)
Theorem shutdown_closes_everything (feed : Feed) :
  let res := shutdown feed in
  res.1 = None
  ∧ kvdata res.2 = ∅
  ∧ (reqTss res.2, actTss res.2, rollTss res.2, feeders res.2, engines res.2,
     endpoints res.2, backch res.2)
    = (reqTss feed, actTss feed, rollTss feed, feeders feed, engines feed,
       endpoints feed, backch feed)
  ∧ ∃ ups dps eps,
      trace res.2 = trace feed ++ ups ++ dps ++ eps ++ [EvCloseFinch]
      ∧ ups ≡ₚ EvCloseFeed <$> (map_to_list (feeders feed)).*2
      ∧ dps ≡ₚ EvKVClose <$> (map_to_list (kvdata feed)).*1
      ∧ eps ≡ₚ EvEndpointClose <$> (map_to_list (endpoints feed)).*2
      ∧ ∀ raddr1 raddr2 ep,
          raddr1 ≠ raddr2 →
          endpoints feed !! raddr1 = Some ep → endpoints feed !! raddr2 = Some ep →
          ∃ pre mid post,
            eps = pre ++ EvEndpointClose ep :: mid ++ EvEndpointClose ep :: post.
Proof.
  cbv zeta. unfold shutdown. cbn [fst snd].
  rewrite (emit_fold (λ kv : string * BucketFeeder, EvCloseFeed kv.2)).
  rewrite close_data_paths. cbn [kvdata set_trace].
  rewrite (emit_fold (λ kv : string * RouterEndpoint, EvEndpointClose kv.2)).
  cbn [kvdata trace endpoints reqTss actTss rollTss feeders engines backch
       emit set_trace set_kvdata].
  rewrite delete_all_keys.
  split; [done|]. split; [done|]. split; [done|].
  exists (EvCloseFeed <$> (map_to_list (feeders feed)).*2),
         (EvKVClose <$> (map_to_list (kvdata feed)).*1),
         (EvEndpointClose <$> (map_to_list (endpoints feed)).*2).
  split; [by rewrite <- !list_fmap_compose, <- !app_assoc|].
  split; [done|]. split; [done|]. split; [done|].
  intros raddr1 raddr2 ep Hne H1 H2.
  apply elem_of_map_to_list in H1, H2.
  destruct (two_elements_split (map_to_list (endpoints feed)) (raddr1, ep) (raddr2, ep))
    as (l1 & l2 & l3 & [-> | ->]); [done|done|by intros [= ?]| |];
    rewrite !fmap_app, !fmap_cons, !fmap_app, !fmap_cons; by eexists _, _, _.
Qed.

(** ** The topic response and the statistics *)

(** X16. The topic response lists the instance ids of the engines of
    every bucket, every active timestamp of the table, a nil one
    included, and the rollback timestamps that are not empty. *)
Theorem topicResponse_members (feed : Feed) :
  let r := topicResponse feed in
  tr_Topic r = topic feed
  ∧ (∀ uuid, uuid ∈ tr_InstanceIds r ↔ ∃ b, is_Some (engine_at feed b uuid))
  ∧ (∀ ts, ts ∈ tr_ActiveTimestamps r ↔ ∃ b, actTss feed !! b = Some ts)
  ∧ (∀ ts, ts ∈ tr_RollbackTimestamps r
           ↔ IsEmpty ts = false ∧ ∃ b, rollTss feed !! b = Some ts).
Proof.
  cbv zeta. unfold topicResponse. cbn [tr_Topic tr_InstanceIds tr_ActiveTimestamps
                                       tr_RollbackTimestamps].
  split; [done|]. split; [|split].
  - intros uuid. rewrite list_elem_of_bind. unfold engine_at. split.
    + intros ([b m] & Hin & Hb). apply elem_of_map_to_list in Hb. simpl in Hin.
      apply list_elem_of_fmap in Hin as ([k e] & -> & Hin).
      apply elem_of_map_to_list in Hin. exists b. rewrite Hb. simpl. by rewrite Hin.
    + intros (b & e & He). destruct (engines feed !! b) as [m|] eqn:Hm; [|done].
      simpl in He. exists (b, m). split; [|by apply elem_of_map_to_list].
      simpl. apply elem_of_map_to_list in He. by apply (list_elem_of_fmap_2 fst) in He.
  - intros ts. split.
    + intros ([b ts'] & -> & Hin)%list_elem_of_fmap.
      apply elem_of_map_to_list in Hin. by exists b.
    + intros (b & Hb). apply elem_of_map_to_list in Hb.
      by apply (list_elem_of_fmap_2 snd) in Hb.
  - intros ts. rewrite list_elem_of_filter. split.
    + intros [Hne ([b ts'] & -> & Hin)%list_elem_of_fmap]. split; [done|].
      apply elem_of_map_to_list in Hin. by exists b.
    + intros [Hne (b & Hb)]. split; [done|]. apply elem_of_map_to_list in Hb.
      by apply (list_elem_of_fmap_2 snd) in Hb.
Qed.

(** X17. [engineNames] lists the buckets that have an engine table, each
    once; it does not list the instance ids of the engines. *)
Theorem engineNames_are_buckets (feed : Feed) :
  (∀ name, name ∈ engineNames feed ↔ is_Some (engines feed !! name))
  ∧ NoDup (engineNames feed)
  ∧ length (engineNames feed) = size (engines feed).
Proof.
  unfold engineNames. split; [|split].
  - intros name. split.
    + intros ([b m] & -> & Hin)%list_elem_of_fmap. apply elem_of_map_to_list in Hin.
      by exists m.
    + intros [m Hm]. apply elem_of_map_to_list in Hm.
      by apply (list_elem_of_fmap_2 fst) in Hm.
  - apply NoDup_fst_map_to_list.
  - by rewrite length_fmap, length_map_to_list.
Qed.

(** ** What one bucket of a command does to the tables *)

Lemma cleanupBucket_requested b feed0 feed :
  streams feed0 = streams feed → engines feed0 = engines feed →
  endpoints feed0 = endpoints feed →
  requested b feed (cleanupBucket b false feed0).
Proof.
  intros [= Hr Ha Hl Hf Hk] He Hp.
  destruct (cleanupBucket_maps b false feed0) as (Hr' & Ha' & Hl' & Hf' & Hk' & He' & Hp' & _).
  cbv zeta in *. split; [congruence|]. split; [congruence|]. left.
  rewrite Hr', Ha', Hl', Hf', Hk', Hr, Ha, Hl, Hf, Hk. done.
Qed.

Lemma startBucket_requested opaque env i feed err ts :
  requested (Bucket ts) feed (startBucket opaque env i (feed, err) ts).1.
Proof.
  unfold startBucket, getLocalVbuckets.
  destruct (o_vbnos32 (env_bucket env i)) as [vbnos32|].
  2:{ cbn [fst]. by apply cleanupBucket_requested. }
  destruct (map_index None (actTss feed) (Bucket ts)) as [actTs ok1] eqn:Hact.
  destruct (map_index None (rollTss feed) (Bucket ts)) as [rollTs ok2] eqn:Hroll.
  destruct (map_index None (reqTss feed) (Bucket ts)) as [reqTs ok3] eqn:Hreq.
  match goal with
  | |- context [bucketFeed ?a ?b ?c ?d ?e ?f] =>
      destruct (bucketFeed_frame a b c d e f) as (new1 & Hf1 & _);
      destruct (bucketFeed a b c d e f) as [[[fd e1]|feeder] feed1]
  end; simpl in Hf1; subst feed1.
  { cbn [fst]. by apply cleanupBucket_requested. }
  destruct (startDataPath (Bucket ts) feeder _ _) as [kv feed2] eqn:Hdp.
  assert (reqTss feed2 = reqTss feed ∧ actTss feed2 = actTss feed
          ∧ rollTss feed2 = rollTss feed ∧ feeders feed2 = <[Bucket ts := feeder]> (feeders feed)
          ∧ kvdata feed2 = kvdata feed ∧ engines feed2 = engines feed
          ∧ endpoints feed2 = endpoints feed) as (Hr2 & Ha2 & Hl2 & Hf2 & Hk2 & He2 & Hp2).
  { unfold startDataPath in Hdp.
    destruct (kvdata _ !! _); injection Hdp as <- <-; done. }
  destruct (waitStreamRequests _ _ _ _ _ _) as [[[[r f] a] e] feed'] eqn:Hw.
  apply waitStreamRequests_spec in Hw as (_ & _ & bc & new & -> & _).
  unfold requested.
  cbn [fst reqTss actTss rollTss feeders kvdata engines endpoints
       set_reqTss set_actTss set_rollTss set_backch set_trace set_kvdata].
  split; [done|]. split; [done|]. right.
  eexists _, _, a, _, r, feeder, kv. rewrite Hr2, Ha2, Hl2, Hf2, Hk2. done.
Qed.

Lemma addBucket_requested opaque env i feed err ts :
  requested (Bucket ts) feed (addBucket opaque env i (feed, err) ts).1.
Proof.
  unfold addBucket, getLocalVbuckets.
  destruct (o_vbnos32 (env_bucket env i)) as [vbnos32|].
  2:{ cbn [fst]. by apply cleanupBucket_requested. }
  destruct (map_index None (actTss feed) (Bucket ts)) as [actTs ok1] eqn:Hact.
  destruct (map_index None (rollTss feed) (Bucket ts)) as [rollTs ok2] eqn:Hroll.
  destruct (map_index None (reqTss feed) (Bucket ts)) as [reqTs ok3] eqn:Hreq.
  match goal with
  | |- context [bucketFeed ?a ?b ?c ?d ?e ?f] =>
      destruct (bucketFeed_frame a b c d e f) as (new1 & Hf1 & _);
      destruct (bucketFeed a b c d e f) as [[[fd e1]|feeder] feed1]
  end; simpl in Hf1; subst feed1.
  { cbn [fst]. by apply cleanupBucket_requested. }
  destruct (startDataPath (Bucket ts) feeder _ _) as [kv feed2] eqn:Hdp.
  assert (reqTss feed2 = reqTss feed ∧ actTss feed2 = actTss feed
          ∧ rollTss feed2 = rollTss feed ∧ feeders feed2 = <[Bucket ts := feeder]> (feeders feed)
          ∧ kvdata feed2 = kvdata feed ∧ engines feed2 = engines feed
          ∧ endpoints feed2 = endpoints feed) as (Hr2 & Ha2 & Hl2 & Hf2 & Hk2 & He2 & Hp2).
  { unfold startDataPath in Hdp.
    destruct (kvdata _ !! _); injection Hdp as <- <-; done. }
  destruct (waitStreamRequests _ _ _ _ _ _) as [[[[r f] a] e] feed'] eqn:Hw.
  apply waitStreamRequests_spec in Hw as (_ & _ & bc & new & -> & _).
  unfold requested.
  cbn [fst reqTss actTss rollTss feeders kvdata engines endpoints
       set_reqTss set_actTss set_rollTss set_backch set_trace set_kvdata].
  split; [done|]. split; [done|]. right.
  eexists _, _, a, _, r, feeder, kv. rewrite Hr2, Ha2, Hl2, Hf2, Hk2. done.
Qed.

Lemma restartBucket_requested opaque env i feed err ts :
  requested (Bucket ts) feed (restartBucket opaque env i (feed, err) ts).1.
Proof.
  unfold restartBucket, getLocalVbuckets.
  destruct (o_vbnos32 (env_bucket env i)) as [vbnos32|].
  2:{ cbn [fst]. by apply cleanupBucket_requested. }
  destruct (map_index None (actTss feed) (Bucket ts)) as [actTs ok1] eqn:Hact.
  destruct (map_index None (rollTss feed) (Bucket ts)) as [rollTs ok2] eqn:Hroll.
  destruct (map_index None (reqTss feed) (Bucket ts)) as [reqTs ok3] eqn:Hreq.
  match goal with
  | |- context [bucketFeed _ _ _ _ _ ?fu] => set (feedU := fu)
  end.
  assert (streams feedU = streams feed ∧ engines feedU = engines feed
          ∧ endpoints feedU = endpoints feed) as (HsU & HeU & HpU).
  { subst feedU. by destruct (kvdata feed !! Bucket ts). }
  clearbody feedU.
  match goal with
  | |- context [bucketFeed ?a ?b ?c ?d ?e ?f] =>
      destruct (bucketFeed_frame a b c d e f) as (new1 & Hf1 & _);
      destruct (bucketFeed a b c d e f) as [[[fd e1]|feeder] feed1]
  end; simpl in Hf1; subst feed1.
  { cbn [fst]. by apply cleanupBucket_requested. }
  injection HsU as Hr Ha Hl Hf Hk.
  match goal with
  | |- context [waitStreamRequests _ _ _ _ _ ?fw] => set (feedW := fw)
  end.
  assert (reqTss feedW = reqTss feed ∧ actTss feedW = actTss feed
          ∧ rollTss feedW = rollTss feed ∧ feeders feedW = <[Bucket ts := feeder]> (feeders feed)
          ∧ (∃ kv, kvdata feedW = <[Bucket ts := kv]> (kvdata feed))
          ∧ engines feedW = engines feed ∧ endpoints feedW = endpoints feed)
    as (Hr2 & Ha2 & Hl2 & Hf2 & [kv Hk2] & He2 & Hp2).
  { subst feedW. cbn [kvdata set_feeders set_trace].
    destruct (kvdata feedU !! Bucket ts) as [kv|] eqn:Hkv.
    - cbn [reqTss actTss rollTss feeders kvdata engines endpoints set_feeders set_trace].
      rewrite Hr, Ha, Hl, Hf. repeat split; try done.
      exists kv. rewrite Hk in Hkv |- *. by rewrite insert_id.
    - unfold startDataPath. cbn [kvdata set_feeders set_trace]. rewrite Hkv.
      cbn [reqTss actTss rollTss feeders kvdata engines endpoints set_feeders set_trace
           set_kvdata emit].
      rewrite Hr, Ha, Hl, Hf, Hk. repeat split; try done. by eexists. }
  clearbody feedW.
  destruct (waitStreamRequests _ _ _ _ _ _) as [[[[r f] a] e] feed'] eqn:Hw.
  apply waitStreamRequests_spec in Hw as (_ & _ & bc & new & -> & _).
  unfold requested.
  cbn [fst reqTss actTss rollTss feeders kvdata engines endpoints
       set_reqTss set_actTss set_rollTss set_backch set_trace set_kvdata].
  split; [done|]. split; [done|]. right.
  eexists _, _, a, _, r, feeder, kv. rewrite Hr2, Ha2, Hl2, Hf2, Hk2. done.
Qed.

Lemma map_index_true {V} (zero : V) (m : gmap string V) k x :
  map_index zero m k = (x, true) → m !! k = Some x.
Proof. unfold map_index. destruct (m !! k); by intros [= <-]. Qed.

Lemma shutdownBucket_ended opaque env i feed err ts :
  ended (Bucket ts) feed (shutdownBucket opaque env i (feed, err) ts).1.
Proof.
  unfold shutdownBucket, ended.
  destruct (getLocalVbuckets (env_bucket env i)) as [e|vbnos]; [by auto 10|].
  destruct (map_index None (actTss feed) (Bucket ts)) as [actTs ok1] eqn:Hact.
  destruct (map_index None (rollTss feed) (Bucket ts)) as [rollTs ok2] eqn:Hroll.
  destruct (map_index None (reqTss feed) (Bucket ts)) as [reqTs ok3] eqn:Hreq.
  destruct ok1; [|by auto 10]. destruct ok2; [|by auto 10]. destruct ok3; [|by auto 10].
  apply map_index_true in Hact, Hroll, Hreq.
  cbn [negb orb].
  match goal with
  | |- context [bucketFeed ?a ?b ?c ?d ?e ?f] =>
      destruct (bucketFeed_frame a b c d e f) as (new1 & Hf1 & _);
      destruct (bucketFeed a b c d e f) as [[[fd e1]|feeder] feed1]
  end; simpl in Hf1; subst feed1; [by auto 10|].
  match goal with
  | |- context [waitStreamEnds ?a ?b ?c ?d ?f] =>
      destruct (waitStreamEnds_frame a b c d f) as (bc & new2 & Hf2 & _);
      destruct (waitStreamEnds a b c d f) as [[[endTs failTs] e2] feed2]
  end; simpl in Hf2; subst feed2.
  cbn [fst reqTss actTss rollTss feeders kvdata engines endpoints
       set_reqTss set_actTss set_rollTss set_backch set_trace].
  split; [done|]. split; [done|]. split; [done|]. split; [done|]. right.
  by eexists _, reqTs, actTs, rollTs.
Qed.

(** ** Timestamps to append to, upstreams and data paths *)

Lemma Union_Some_r x a : ∃ t, Union x (Some a) = Some t.
Proof. destruct x; simpl; eauto. Qed.

Lemma Filter_Some t l : ∃ t', FilterByVbuckets (Some t) l = Some t'.
Proof. simpl. eauto. Qed.

Lemma backed_step f f' :
  backed f →
  feeders f' = feeders f → kvdata f' = kvdata f →
  (∀ b, partitions (reqTss f') b ≠ [] → partitions (reqTss f) b ≠ []) →
  (∀ b, has_partitions f' b → has_partitions f b) →
  (∀ b a, actTss f !! b = Some (Some a) → ∃ a', actTss f' !! b = Some (Some a')) →
  (∀ b r, rollTss f !! b = Some (Some r) → ∃ r', rollTss f' !! b = Some (Some r')) →
  backed f'.
Proof.
  intros (Happ & Hup & Hdp) Hf Hk Hreq Hhas Hact Hroll. split; [|split].
  - intros b Hb. destruct (Happ b (Hreq b Hb)) as [[a Ha] [r Hr]].
    split; [by eapply Hact|by eapply Hroll].
  - intros b Hb. rewrite Hf. by apply Hup, Hhas.
  - intros b. rewrite Hf, Hk. apply Hdp.
Qed.

Lemma backed_streams f f' : streams f' = streams f → backed f → backed f'.
Proof.
  intros [= Hr Ha Hl Hf Hk] Hb.
  apply (backed_step f); try done.
  - intros b. by rewrite Hr.
  - intros b. unfold has_partitions. by rewrite Hr, Ha, Hl.
  - intros b a. rewrite Ha. eauto.
  - intros b r. rewrite Hl. eauto.
Qed.

Lemma requested_backed b f f' : requested b f f' → backed f → backed f'.
Proof.
  intros (_ & _ & [(Hr & Ha & Hl & Hf & Hk)|Hins]) (Happ & Hup & Hdp).
  - split; [|split].
    + intros b'. rewrite Hr, Ha, Hl, partitions_delete.
      destruct (decide (b = b')) as [|Hne]; [done|].
      rewrite !lookup_delete_ne by done. apply Happ.
    + intros b'. unfold has_partitions. rewrite Hr, Ha, Hl, Hf, !partitions_delete.
      destruct (decide (b = b')) as [|Hne]; [by intros [?|[?|?]]|].
      rewrite lookup_delete_ne by done. apply Hup.
    + intros b'. rewrite Hf, Hk.
      destruct (decide (b = b')) as [<-|Hne].
      * rewrite lookup_delete_eq. by intros [? ?].
      * rewrite !lookup_delete_ne by done. apply Hdp.
  - destruct Hins as (rq & a0 & a & r0 & r & fd & kv & Hr & Ha & Hl & Hf & Hk).
    split; [|split].
    + intros b'. rewrite Hr, Ha, Hl.
      destruct (decide (b = b')) as [<-|Hne].
      * rewrite !lookup_insert_eq. intros _.
        destruct (Union_Some_r a0 a) as [t ->]. destruct (Union_Some_r r0 r) as [t' ->].
        eauto.
      * rewrite partitions_insert, decide_False by done.
        rewrite !lookup_insert_ne by done. apply Happ.
    + intros b'. unfold has_partitions. rewrite Hr, Ha, Hl, Hf.
      destruct (decide (b = b')) as [<-|Hne].
      * rewrite lookup_insert_eq. eauto.
      * rewrite !partitions_insert, !decide_False by done.
        rewrite lookup_insert_ne by done. apply Hup.
    + intros b'. rewrite Hf, Hk.
      destruct (decide (b = b')) as [<-|Hne].
      * rewrite !lookup_insert_eq. eauto.
      * rewrite !lookup_insert_ne by done. apply Hdp.
Qed.

Lemma partitions_insert_filter m b b' l :
  partitions (<[b := FilterByVbuckets (map_index None m b).1 l]> m) b' ≠ [] →
  partitions m b' ≠ [].
Proof.
  rewrite partitions_insert. destruct (decide (b = b')) as [<-|]; [|done].
  rewrite GetVbnos_Filter. unfold partitions. intros Hne Hnil. apply Hne.
  by rewrite Hnil.
Qed.

Lemma insert_filter_Some (m : gmap string (option TsVbuuid)) b b' l t :
  m !! b' = Some (Some t) →
  ∃ t', <[b := FilterByVbuckets (map_index None m b).1 l]> m !! b' = Some (Some t').
Proof.
  intros Hm. destruct (decide (b = b')) as [<-|Hne].
  - rewrite lookup_insert_eq. unfold map_index. rewrite Hm. simpl. eauto.
  - rewrite lookup_insert_ne by done. eauto.
Qed.

Lemma map_index_Some {V} (zero : V) (m : gmap string V) k x :
  m !! k = Some x → (map_index zero m k).1 = x.
Proof. unfold map_index. by intros ->. Qed.

Lemma ended_backed b f f' : ended b f f' → backed f → backed f'.
Proof.
  intros (Hf & Hk & _ & _ & [(Hr & Ha & Hl)|Hfil]) Hb.
  { apply (backed_streams f); [|done]. unfold streams. by rewrite Hr, Ha, Hl, Hf, Hk. }
  destruct Hfil as (vbnos & rq & ac & rl & Hrq & Hac & Hrl & Hr & Ha & Hl).
  rewrite <- (map_index_Some None _ _ _ Hrq) in Hr.
  rewrite <- (map_index_Some None _ _ _ Hac) in Ha.
  rewrite <- (map_index_Some None _ _ _ Hrl) in Hl.
  apply (backed_step f); try done.
  - intros b'. rewrite Hr. apply partitions_insert_filter.
  - intros b'. unfold has_partitions. rewrite Hr, Ha, Hl.
    intros [H|[H|H]]; apply partitions_insert_filter in H; auto.
  - intros b' a. rewrite Ha. apply insert_filter_Some.
  - intros b' r. rewrite Hl. apply insert_filter_Some.
Qed.

Lemma loop_backed (body : nat → Feed * option Error → TsVbuuid → Feed * option Error) :
  (∀ i st ts, backed st.1 → backed (body i st ts).1) →
  ∀ tss i st, backed st.1 → backed (forRange body i tss st).1.
Proof.
  intros Hbody. induction tss as [|ts tss IH]; intros i st Hb; [done|].
  cbn [forRange]. by apply IH, Hbody.
Qed.

Lemma startBucket_backed opaque env i st ts :
  backed st.1 → backed (startBucket opaque env i st ts).1.
Proof.
  destruct st as [feed err]. intros Hb.
  eapply requested_backed; [apply startBucket_requested|exact Hb].
Qed.

Lemma restartBucket_backed opaque env i st ts :
  backed st.1 → backed (restartBucket opaque env i st ts).1.
Proof.
  destruct st as [feed err]. intros Hb.
  eapply requested_backed; [apply restartBucket_requested|exact Hb].
Qed.

Lemma addBucket_backed opaque env i st ts :
  backed st.1 → backed (addBucket opaque env i st ts).1.
Proof.
  destruct st as [feed err]. intros Hb.
  eapply requested_backed; [apply addBucket_requested|exact Hb].
Qed.

Lemma shutdownBucket_backed opaque env i st ts :
  backed st.1 → backed (shutdownBucket opaque env i st ts).1.
Proof.
  destruct st as [feed err]. intros Hb.
  eapply ended_backed; [apply shutdownBucket_ended|exact Hb].
Qed.

Lemma start_backed env req feed : backed feed → backed (start env req feed).2.
Proof.
  intros Hb. unfold start.
  destruct (processSubscribers_streams (env_net env) (mt_Subscriber req)
              (set_endpointType (mt_EndpointType req) feed)) as [Hs _].
  destruct (processSubscribers _ _ _) as [[e|] feedP]; cbn [snd] in *.
  { by apply (backed_streams feed). }
  pose proof (loop_backed _ (startBucket_backed (newOpaque (env_now env)) env)
                (mt_ReqTimestamps req) 0 (feedP, None)
                (backed_streams feed feedP Hs Hb)) as Hloop.
  by destruct (forRange _ _ _ _).
Qed.

Lemma addBuckets_backed env req feed : backed feed → backed (addBuckets env req feed).2.
Proof.
  intros Hb. unfold addBuckets.
  destruct (processSubscribers_streams (env_net env) (ab_Subscriber req) feed) as [Hs _].
  destruct (processSubscribers _ _ _) as [[e|] feedP]; cbn [snd] in *.
  { by apply (backed_streams feed). }
  pose proof (loop_backed _ (addBucket_backed (newOpaque (env_now env)) env)
                (ab_ReqTimestamps req) 0 (feedP, None)
                (backed_streams feed feedP Hs Hb)) as Hloop.
  by destruct (forRange _ _ _ _).
Qed.

Lemma repairEndpoints_streams net req feed :
  streams (repairEndpoints net req feed).2 = streams feed.
Proof.
  unfold repairEndpoints.
  destruct (endpointSteps_frame net (re_Endpoints req) (feed, None)) as (Hs & _).
  destruct (foldl (endpointStep net) (feed, None) (re_Endpoints req)) as [feed1 err].
  cbn [fst snd] in *.
  destruct (post_engines_frame (map_to_list (kvdata feed1)) feed1) as (H1 & _).
  cbv zeta in H1. by rewrite H1.
Qed.

Lemma restartVbuckets_backed env req feed :
  backed feed → backed (restartVbuckets env req feed).2.
Proof.
  intros Hb. unfold restartVbuckets.
  match goal with
  | |- context [repairEndpoints ?n ?r ?f] =>
      pose proof (repairEndpoints_streams n r f) as Hs;
      destruct (repairEndpoints n r f) as [e feedR]
  end.
  cbn [snd] in Hs.
  pose proof (loop_backed _ (restartBucket_backed (newOpaque (env_now env)) env)
                (rv_RestartTimestamps req) 0 (feedR, None)
                (backed_streams feed feedR Hs Hb)) as Hloop.
  by destruct (forRange _ _ _ _).
Qed.

Lemma shutdownVbuckets_backed env req feed :
  backed feed → backed (shutdownVbuckets env req feed).2.
Proof.
  intros Hb. unfold shutdownVbuckets.
  pose proof (loop_backed _ (shutdownBucket_backed (newOpaque (env_now env)) env)
                (sv_ShutdownTimestamps req) 0 (feed, None) Hb) as Hloop.
  by destruct (forRange _ _ _ _).
Qed.

Lemma delBuckets_backed req feed : backed feed → backed (delBuckets req feed).2.
Proof.
  unfold delBuckets. cbn [snd]. generalize feed.
  induction (db_Buckets req) as [|b l IH]; intros feed0 Hb; cbn [foldl]; [done|].
  apply IH.
  destruct (cleanupBucket_maps b true feed0) as (Hr & Ha & Hl & Hf & Hk & _).
  destruct (cleanupBucket_maps b false feed0) as (Hr' & Ha' & Hl' & Hf' & Hk' & _).
  cbv zeta in *.
  apply (backed_streams (cleanupBucket b false feed0)).
  - unfold streams. by rewrite Hr, Ha, Hl, Hf, Hk, Hr', Ha', Hl', Hf', Hk'.
  - by apply (requested_backed b feed0); [apply cleanupBucket_requested|].
Qed.

Lemma addInstances_streams env req feed : streams (addInstances env req feed).2 = streams feed.
Proof.
  unfold addInstances.
  destruct (processSubscribers_streams (env_net env) (ai_Subscriber req) feed) as [Hs _].
  destruct (processSubscribers _ _ _) as [[e|] feedP]; cbn [snd] in *; [done|].
  match goal with
  | |- context [foldl ?g (feedP, None) ?l] =>
      pose proof (post_fold (λ k (_ : gmap Z Engine), EvAddEngines k) l (feedP, None)) as Hpost;
      cbv zeta beta in Hpost; destruct (foldl g (feedP, None) l) as [feed1 err]
  end.
  destruct Hpost as (Hs1 & _). cbn [fst snd] in *. by rewrite Hs1.
Qed.

Lemma delInstances_streams req feed : streams (delInstances req feed).2 = streams feed.
Proof.
  unfold delInstances.
  match goal with
  | |- context [foldl ?g (feed, None) ?l] =>
      pose proof (post_fold (λ k v, EvDeleteEngines k v) l (feed, None)) as Hpost;
      cbv zeta beta in Hpost; destruct (foldl g (feed, None) l) as [feed1 err]
  end.
  by destruct Hpost as (Hs & _).
Qed.

Lemma shutdown_tables feed :
  reqTss (shutdown feed).2 = reqTss feed ∧ actTss (shutdown feed).2 = actTss feed
  ∧ rollTss (shutdown feed).2 = rollTss feed ∧ feeders (shutdown feed).2 = feeders feed.
Proof.
  unfold shutdown. cbn [fst snd].
  rewrite (emit_fold (λ kv : string * BucketFeeder, EvCloseFeed kv.2)).
  rewrite close_data_paths. cbn [kvdata set_trace].
  by rewrite (emit_fold (λ kv : string * RouterEndpoint, EvEndpointClose kv.2)).
Qed.

Lemma shutdown_backed feed :
  backed feed → appendable (shutdown feed).2 ∧ upstream_backed (shutdown feed).2.
Proof.
  intros (Happ & Hup & _). destruct (shutdown_tables feed) as (Hr & Ha & Hl & Hf).
  split.
  - intros b. rewrite Hr, Ha, Hl. apply Happ.
  - intros b. unfold has_partitions. rewrite Hr, Ha, Hl, Hf. apply Hup.
Qed.

Lemma partitions_lookup m m' b : m' !! b = m !! b → partitions m' b = partitions m b.
Proof. unfold partitions, map_index. by intros ->. Qed.

Lemma backed_update f f' b :
  backed f → has_partitions f b →
  feeders f' = feeders f → kvdata f' = kvdata f →
  (∀ b', b' ≠ b → reqTss f' !! b' = reqTss f !! b' ∧ actTss f' !! b' = actTss f !! b'
                  ∧ rollTss f' !! b' = rollTss f !! b') →
  (partitions (reqTss f') b ≠ [] → partitions (reqTss f) b ≠ []) →
  (∀ a, actTss f !! b = Some (Some a) → ∃ a', actTss f' !! b = Some (Some a')) →
  (∀ r, rollTss f !! b = Some (Some r) → ∃ r', rollTss f' !! b = Some (Some r')) →
  backed f'.
Proof.
  intros Hb Hhas Hf Hk Hother Hreq Hact Hroll.
  apply (backed_step f); try done.
  - intros b'. destruct (decide (b' = b)) as [->|Hne]; [done|].
    destruct (Hother _ Hne) as (Hr & _). by rewrite (partitions_lookup _ _ _ Hr).
  - intros b'. destruct (decide (b' = b)) as [->|Hne]; [done|].
    destruct (Hother _ Hne) as (Hr & Ha & Hl). unfold has_partitions.
    by rewrite (partitions_lookup _ _ _ Hr), (partitions_lookup _ _ _ Ha),
      (partitions_lookup _ _ _ Hl).
  - intros b' a. destruct (decide (b' = b)) as [->|Hne]; [apply Hact|].
    destruct (Hother _ Hne) as (_ & -> & _). eauto.
  - intros b' r. destruct (decide (b' = b)) as [->|Hne]; [apply Hroll|].
    destruct (Hother _ Hne) as (_ & _ & ->). eauto.
Qed.

Lemma filter_req_backed f b l :
  backed f →
  backed (set_reqTss (<[b := FilterByVbuckets (map_index None (reqTss f) b).1 l]> (reqTss f)) f).
Proof.
  intros Hb. apply (backed_step f); try done; [| |eauto|eauto].
  - intros b'. apply partitions_insert_filter.
  - intros b'. unfold has_partitions. cbn [reqTss actTss rollTss set_reqTss].
    intros [H|[H|H]]; [apply partitions_insert_filter in H|..]; auto.
Qed.

Lemma filter_act_backed f b l :
  backed f →
  backed (set_actTss (<[b := FilterByVbuckets (map_index None (actTss f) b).1 l]> (actTss f)) f).
Proof.
  intros Hb. apply (backed_step f); try done; [|intros b' a; apply insert_filter_Some|eauto].
  intros b'. unfold has_partitions. cbn [reqTss actTss rollTss set_actTss].
  intros [H|[H|H]]; [|apply partitions_insert_filter in H|]; auto.
Qed.

Lemma filter_roll_backed f b l :
  backed f →
  backed (set_rollTss (<[b := FilterByVbuckets (map_index None (rollTss f) b).1 l]> (rollTss f)) f).
Proof.
  intros Hb. apply (backed_step f); try done; [|eauto|intros b' a; apply insert_filter_Some].
  intros b'. unfold has_partitions. cbn [reqTss actTss rollTss set_rollTss].
  intros [H|[H|H]]; [| |apply partitions_insert_filter in H]; auto.
Qed.

Lemma handleBackch_backed msg feed :
  backed feed → ∃ feed', handleBackch msg feed = Flushed feed' ∧ backed feed'.
Proof.
  intros Hb. unfold handleBackch. destruct (msg0 msg) as [v|v|v|elems].
  - destruct (map_index None (reqTss feed) (sr_bucket v)) as [reqTs ok] eqn:Hreq.
    destruct (Get reqTs (sr_vbno v)) as [[[[seqno vbuuid] sStart] sEnd]|] eqn:Hget; [|by eauto].
    destruct ok; [|by eauto].
    apply Get_Some_elem in Hget.
    assert (partitions (reqTss feed) (sr_bucket v) ≠ []) as Hne.
    { rewrite (partitions_map_index _ _ _ _ Hreq). intros Hnil. rewrite Hnil in Hget.
      by apply not_elem_of_nil in Hget. }
    pose proof Hb as (Happ & Hup & Hdp).
    destruct (Happ _ Hne) as [[actTs Hact] [rollTs Hroll]].
    assert (reqTs = (map_index None (reqTss feed) (sr_bucket v)).1) as HreqTs
      by (by rewrite Hreq).
    cbn [rollTss actTss set_reqTss].
    rewrite (map_index_Some None _ _ _ Hact), (map_index_Some None _ _ _ Hroll).
    assert (has_partitions feed (sr_bucket v)) as Hhas by (by left).
    repeat case_bool_decide; (eexists; split; [reflexivity|]);
      (apply (backed_update feed _ (sr_bucket v)); try done;
       cbn [reqTss actTss rollTss set_reqTss set_actTss set_rollTss];
       first [ intros b' Hb'; by rewrite ?lookup_insert_ne by done
             | rewrite HreqTs; apply partitions_insert_filter
             | intros a _; rewrite ?lookup_insert_eq; by eauto ]).
  - eexists. split; [reflexivity|].
    by apply filter_roll_backed, filter_act_backed, filter_req_backed.
  - destruct (map_index None (actTss feed) (fin_bucket v)) as [actTs ok].
    destruct (ok && _ && _); [|by eauto].
    eexists. split; [reflexivity|].
    by apply (requested_backed (fin_bucket v) feed); [apply cleanupBucket_requested|].
  - by eauto.
Qed.

Lemma handleCommand_backed env cmd feed :
  backed feed →
  appendable (handleCommand env cmd feed).2
  ∧ upstream_backed (handleCommand env cmd feed).2
  ∧ ((handleCommand env cmd feed).1.1 = false → data_path_backed (handleCommand env cmd feed).2).
Proof.
  intros Hb.
  assert (∀ feed', backed feed' →
            appendable feed' ∧ upstream_backed feed' ∧ (false = false → data_path_backed feed'))
    as Hweak by (by intros feed' (? & ? & ?)).
  destruct cmd as [req|req|req|req|req|req|req|req| | |]; cbn [handleCommand].
  - pose proof (start_backed env req feed Hb). destruct (start env req feed). by apply Hweak.
  - pose proof (restartVbuckets_backed env req feed Hb).
    destruct (restartVbuckets env req feed). by apply Hweak.
  - pose proof (shutdownVbuckets_backed env req feed Hb).
    destruct (shutdownVbuckets env req feed). by apply Hweak.
  - pose proof (addBuckets_backed env req feed Hb).
    destruct (addBuckets env req feed). by apply Hweak.
  - pose proof (delBuckets_backed req feed Hb).
    destruct (delBuckets req feed). by apply Hweak.
  - pose proof (backed_streams _ _ (addInstances_streams env req feed) Hb).
    destruct (addInstances env req feed). by apply Hweak.
  - pose proof (backed_streams _ _ (delInstances_streams req feed) Hb).
    destruct (delInstances req feed). by apply Hweak.
  - pose proof (backed_streams _ _ (repairEndpoints_streams (env_net env) req feed) Hb).
    destruct (repairEndpoints (env_net env) req feed). by apply Hweak.
  - destruct (shutdown_backed feed Hb) as [H1 H2].
    destruct (shutdown feed). cbn [fst snd] in *. done.
  - by apply Hweak.
  - by apply Hweak.
Qed.

Lemma genServer_turn_backed t feed :
  backed feed →
  match genServer_turn t feed with
  | Running feed' => backed feed'
  | Exited feed' => appendable feed' ∧ upstream_backed feed'
  | Crashed _ => False
  end.
Proof.
  intros Hb. destruct t as [env cmd| | |msg]; cbn [genServer_turn].
  - destruct (handleCommand_backed env cmd feed Hb) as (H1 & H2 & H3).
    destruct (handleCommand env cmd feed) as [[[] reply] feed']; cbn [fst snd] in *.
    + done.
    + split; [done|]. split; [done|]. by apply H3.
  - destruct (backch feed) as [|msg rest]; [done|].
    destruct (handleBackch_backed msg (set_backch rest feed)) as (feed' & -> & Hb').
    + by apply (backed_streams feed).
    + done.
  - done.
  - by apply (backed_streams feed).
Qed.

Lemma genServer_backed turns :
  ∀ feed, backed feed →
          match genServer turns feed with
          | Running feed' => backed feed'
          | Exited feed' => appendable feed' ∧ upstream_backed feed'
          | Crashed _ => False
          end.
Proof.
  induction turns as [|t turns IH]; intros feed Hb; [done|].
  cbn [genServer]. pose proof (genServer_turn_backed t feed Hb) as Ht.
  destruct (genServer_turn t feed) as [feed1|feed1|feed1]; [by apply IH|done|done].
Qed.

Lemma NewFeed_backed topic_ cluster_ maxVb reqT endT :
  backed (NewFeed topic_ cluster_ maxVb reqT endT).
Proof.
  split; [|split].
  - by intros b Hb.
  - by intros b [Hb|[Hb|Hb]].
  - intros b [x Hx]. cbn [feeders NewFeed] in Hx. by rewrite lookup_empty in Hx.
Qed.

(** X18. The back-channel arm of the actor never appends to an absent
    timestamp: whatever commands, ticks and control messages a feed
    receives after [NewFeed], no turn panics. *)
Theorem genServer_never_panics (turns : list Turn) (topic_ cluster_ : string)
    (maxVb reqT endT : Z) (feed' : Feed) :
  genServer turns (NewFeed topic_ cluster_ maxVb reqT endT) ≠ Crashed feed'.
Proof.
  pose proof (genServer_backed turns _ (NewFeed_backed topic_ cluster_ maxVb reqT endT)) as H.
  intros Heq. by rewrite Heq in H.
Qed.

(** X19. Whatever turns a feed takes after [NewFeed], a bucket that
    records an outstanding, active or rolled-back partition has an
    upstream, and while the actor runs a bucket that has an upstream has
    a data path. *)
Theorem partitions_have_upstream_and_data_path (turns : list Turn)
    (topic_ cluster_ : string) (maxVb reqT endT : Z) :
  let out := genServer turns (NewFeed topic_ cluster_ maxVb reqT endT) in
  upstream_backed (feed_of out)
  ∧ match out with
    | Running feed' => data_path_backed feed'
    | _ => True
    end.
Proof.
  cbv zeta.
  pose proof (genServer_backed turns _ (NewFeed_backed topic_ cluster_ maxVb reqT endT)) as H.
  destruct (genServer turns _) as [feed'|feed'|feed']; cbn [feed_of].
  - by destruct H as (_ & ? & ?).
  - by destruct H as (? & ?).
  - done.
Qed.

(** ** ShutdownVbuckets only forgets *)

Lemma elem_of_partitions_filter m b b' l x :
  x ∈ partitions (<[b := FilterByVbuckets (map_index None m b).1 l]> m) b' →
  x ∈ partitions m b'.
Proof.
  rewrite partitions_insert. destruct (decide (b = b')) as [<-|]; [|done].
  rewrite GetVbnos_Filter. unfold partitions. by intros [_ ?]%list_elem_of_filter.
Qed.

Lemma ended_shrinks b f f' :
  ended b f f' →
  (∀ b' x, x ∈ partitions (reqTss f') b' → x ∈ partitions (reqTss f) b')
  ∧ (∀ b' x, x ∈ partitions (actTss f') b' → x ∈ partitions (actTss f) b')
  ∧ (∀ b' x, x ∈ partitions (rollTss f') b' → x ∈ partitions (rollTss f) b').
Proof.
  intros (_ & _ & _ & _ & [(-> & -> & ->)|Hfil]); [done|].
  destruct Hfil as (vbnos & rq & ac & rl & Hrq & Hac & Hrl & Hr & Ha & Hl).
  rewrite <- (map_index_Some None _ _ _ Hrq) in Hr.
  rewrite <- (map_index_Some None _ _ _ Hac) in Ha.
  rewrite <- (map_index_Some None _ _ _ Hrl) in Hl.
  rewrite Hr, Ha, Hl. repeat split; intros b' x; apply elem_of_partitions_filter.
Qed.

(** X20. ShutdownVbuckets never adds a partition to the outstanding, the
    active or the rollback timestamp of any bucket, and leaves the tables
    of upstreams, data paths, engines and endpoints as they were. *)
Theorem shutdownVbuckets_only_forgets (env : Env) (req : ShutdownVbucketsRequest)
    (feed : Feed) :
  let feed' := (shutdownVbuckets env req feed).2 in
  (∀ b x, x ∈ partitions (reqTss feed') b → x ∈ partitions (reqTss feed) b)
  ∧ (∀ b x, x ∈ partitions (actTss feed') b → x ∈ partitions (actTss feed) b)
  ∧ (∀ b x, x ∈ partitions (rollTss feed') b → x ∈ partitions (rollTss feed) b)
  ∧ feeders feed' = feeders feed ∧ kvdata feed' = kvdata feed
  ∧ engines feed' = engines feed ∧ endpoints feed' = endpoints feed.
Proof.
  cbv zeta. unfold shutdownVbuckets.
  assert (∀ tss i st,
            let feed' := (forRange (shutdownBucket (newOpaque (env_now env)) env) i tss st).1 in
            (∀ b x, x ∈ partitions (reqTss feed') b → x ∈ partitions (reqTss st.1) b)
            ∧ (∀ b x, x ∈ partitions (actTss feed') b → x ∈ partitions (actTss st.1) b)
            ∧ (∀ b x, x ∈ partitions (rollTss feed') b → x ∈ partitions (rollTss st.1) b)
            ∧ feeders feed' = feeders st.1 ∧ kvdata feed' = kvdata st.1
            ∧ engines feed' = engines st.1 ∧ endpoints feed' = endpoints st.1) as Hloop.
  { induction tss as [|ts tss IH]; intros i [feed0 err]; cbn [forRange]; [done|].
    destruct (IH (S i) (shutdownBucket (newOpaque (env_now env)) env i (feed0, err) ts))
      as (H1 & H2 & H3 & H4 & H5 & H6 & H7).
    pose proof (shutdownBucket_ended (newOpaque (env_now env)) env i feed0 err ts) as Hend.
    destruct (ended_shrinks _ _ _ Hend) as (G1 & G2 & G3).
    destruct Hend as (G4 & G5 & G6 & G7 & _).
    cbv zeta in *. cbn [fst] in *. rewrite H4, H5, H6, H7.
    split; [intros b x Hx; by apply G1, H1|].
    split; [intros b x Hx; by apply G2, H2|].
    split; [intros b x Hx; by apply G3, H3|]. done. }
  specialize (Hloop (sv_ShutdownTimestamps req) 0 (feed, None)).
  by destruct (forRange _ _ _ _).
Qed.

(** ** The buckets that a command works on *)

Lemma requested_other b f f' b' :
  requested b f f' → b' ≠ b → stream_state f' b' = stream_state f b'.
Proof.
  intros (_ & _ & [(Hr & Ha & Hl & Hf & Hk)|Hins]) Hne; unfold stream_state.
  - rewrite Hr, Ha, Hl, Hf, Hk. by rewrite !lookup_delete_ne.
  - destruct Hins as (rq & a0 & a & r0 & r & fd & kv & Hr & Ha & Hl & Hf & Hk).
    rewrite Hr, Ha, Hl, Hf, Hk. by rewrite !lookup_insert_ne.
Qed.

Lemma ended_other b f f' b' :
  ended b f f' → b' ≠ b → stream_state f' b' = stream_state f b'.
Proof.
  intros (Hf & Hk & _ & _ & [(Hr & Ha & Hl)|Hfil]) Hne; unfold stream_state.
  - by rewrite Hr, Ha, Hl, Hf, Hk.
  - destruct Hfil as (vbnos & rq & ac & rl & _ & _ & _ & Hr & Ha & Hl).
    rewrite Hr, Ha, Hl, Hf, Hk. by rewrite !lookup_insert_ne.
Qed.

Lemma loop_other (body : nat → Feed * option Error → TsVbuuid → Feed * option Error) b :
  (∀ i st ts, Bucket ts ≠ b → stream_state (body i st ts).1 b = stream_state st.1 b) →
  ∀ tss i st, b ∉ Bucket <$> tss →
              stream_state (forRange body i tss st).1 b = stream_state st.1 b.
Proof.
  intros Hbody. induction tss as [|ts tss IH]; intros i st Hb; [done|].
  cbn [forRange]. apply not_elem_of_cons in Hb as [Hne Hb].
  rewrite (IH _ _ Hb). by apply Hbody.
Qed.

Lemma stream_state_streams f f' b : streams f' = streams f → stream_state f' b = stream_state f b.
Proof. intros [= Hr Ha Hl Hf Hk]. unfold stream_state. by rewrite Hr, Ha, Hl, Hf, Hk. Qed.

Lemma startBucket_elsewhere opaque env b i st ts :
  Bucket ts ≠ b → stream_state (startBucket opaque env i st ts).1 b = stream_state st.1 b.
Proof.
  destruct st as [feed err]. intros Hne.
  eapply requested_other; [apply startBucket_requested|done].
Qed.

Lemma restartBucket_elsewhere opaque env b i st ts :
  Bucket ts ≠ b → stream_state (restartBucket opaque env i st ts).1 b = stream_state st.1 b.
Proof.
  destruct st as [feed err]. intros Hne.
  eapply requested_other; [apply restartBucket_requested|done].
Qed.

Lemma addBucket_elsewhere opaque env b i st ts :
  Bucket ts ≠ b → stream_state (addBucket opaque env i st ts).1 b = stream_state st.1 b.
Proof.
  destruct st as [feed err]. intros Hne.
  eapply requested_other; [apply addBucket_requested|done].
Qed.

Lemma shutdownBucket_elsewhere opaque env b i st ts :
  Bucket ts ≠ b → stream_state (shutdownBucket opaque env i st ts).1 b = stream_state st.1 b.
Proof.
  destruct st as [feed err]. intros Hne.
  eapply ended_other; [apply shutdownBucket_ended|done].
Qed.

(** X21. Start, RestartVbuckets, AddBuckets and ShutdownVbuckets change
    the timestamps, the upstream and the data path of no bucket other
    than those of the timestamps of the request. *)
Theorem commands_keep_to_their_buckets (env : Env) (feed : Feed) (b : string) :
  (∀ req, b ∉ Bucket <$> mt_ReqTimestamps req →
          stream_state (start env req feed).2 b = stream_state feed b)
  ∧ (∀ req, b ∉ Bucket <$> rv_RestartTimestamps req →
            stream_state (restartVbuckets env req feed).2 b = stream_state feed b)
  ∧ (∀ req, b ∉ Bucket <$> ab_ReqTimestamps req →
            stream_state (addBuckets env req feed).2 b = stream_state feed b)
  ∧ (∀ req, b ∉ Bucket <$> sv_ShutdownTimestamps req →
            stream_state (shutdownVbuckets env req feed).2 b = stream_state feed b).
Proof.
  split; [|split; [|split]]; intros req Hb.
  - unfold start.
    destruct (processSubscribers_streams (env_net env) (mt_Subscriber req)
                (set_endpointType (mt_EndpointType req) feed)) as [Hs _].
    destruct (processSubscribers _ _ _) as [[e|] feedP]; cbn [snd] in *.
    { by apply stream_state_streams. }
    rewrite <- (stream_state_streams feed feedP b Hs).
    pose proof (loop_other _ b (startBucket_elsewhere (newOpaque (env_now env)) env b)
                  _ 0 (feedP, None) Hb) as Hloop.
    by destruct (forRange _ _ _ _).
  - unfold restartVbuckets.
    match goal with
    | |- context [repairEndpoints ?n ?r ?f] =>
        pose proof (repairEndpoints_streams n r f) as Hs;
        destruct (repairEndpoints n r f) as [e feedR]
    end.
    cbn [snd] in Hs.
    rewrite <- (stream_state_streams feed feedR b Hs).
    pose proof (loop_other _ b (restartBucket_elsewhere (newOpaque (env_now env)) env b)
                  _ 0 (feedR, None) Hb) as Hloop.
    by destruct (forRange _ _ _ _).
  - unfold addBuckets.
    destruct (processSubscribers_streams (env_net env) (ab_Subscriber req) feed) as [Hs _].
    destruct (processSubscribers _ _ _) as [[e|] feedP]; cbn [snd] in *.
    { by apply stream_state_streams. }
    rewrite <- (stream_state_streams feed feedP b Hs).
    pose proof (loop_other _ b (addBucket_elsewhere (newOpaque (env_now env)) env b)
                  _ 0 (feedP, None) Hb) as Hloop.
    by destruct (forRange _ _ _ _).
  - unfold shutdownVbuckets.
    pose proof (loop_other _ b (shutdownBucket_elsewhere (newOpaque (env_now env)) env b)
                  _ 0 (feed, None) Hb) as Hloop.
    by destruct (forRange _ _ _ _).
Qed.

(** ** What the reconcilers report *)

Lemma elem_of_RemoveUint16 item xs x : x ∈ xs → x ≠ item → x ∈ RemoveUint16 item xs.
Proof. intros Hx Hne. unfold RemoveUint16. by apply list_elem_of_filter. Qed.

Lemma snoc_not_nil (l : list Z) (v : Z) : l ++ [v] ≠ [].
Proof. by destruct l. Qed.

Lemma streamRequestCallb_progress opaque bucketn ts expected st m verdict st' :
  streamRequestCallb opaque bucketn ts st m = (verdict, st') →
  request_progress expected st →
  request_progress expected st' ∧ (verdict = "done" → w_vbnos st' = []).
Proof.
  unfold streamRequestCallb. intros Hcall Hprog0.
  pose proof Hprog0 as (Hexp & Herr & Hkind). revert Hcall.
  destruct m as [val| | |]; try (intros [= <- <-]; by split).
  destruct (_ && _ && _); [|intros [= <- <-]; by split].
  assert (∀ x, x ∈ expected →
            x ∈ RemoveUint16 (sr_vbno val) (w_vbnos st) ∨ x = sr_vbno val
            ∨ x ∈ GetVbnos (Some (w_actTs st)) ∨ x ∈ GetVbnos (Some (w_rollTs st))
            ∨ x ∈ GetVbnos (Some (w_failTs st))) as Hrem.
  { intros x Hx. destruct (decide (x = sr_vbno val)); [by auto|].
    destruct (Hexp x Hx) as [?|[?|[?|?]]]; auto using elem_of_RemoveUint16. }
  assert (request_progress expected
            match sr_status val with
            | SUCCESS =>
                {| w_rollTs := w_rollTs st; w_failTs := w_failTs st;
                   w_actTs := Append (w_actTs st) (sr_vbno val) (sr_seqno val)
                                (sr_vbuuid val) 0 0;
                   w_vbnos := RemoveUint16 (sr_vbno val) (w_vbnos st); w_err := w_err st |}
            | ROLLBACK =>
                {| w_rollTs := Append (w_rollTs st) (sr_vbno val) (sr_seqno val)
                                 (sr_vbuuid val) 0 0;
                   w_failTs := w_failTs st; w_actTs := w_actTs st;
                   w_vbnos := RemoveUint16 (sr_vbno val) (w_vbnos st); w_err := w_err st |}
            | NOT_MY_VBUCKET =>
                {| w_rollTs := w_rollTs st;
                   w_failTs := Append (w_failTs st) (sr_vbno val) (sr_seqno val)
                                 (sr_vbuuid val) 0 0;
                   w_actTs := w_actTs st;
                   w_vbnos := RemoveUint16 (sr_vbno val) (w_vbnos st);
                   w_err := Some ErrorNotMyVbucket |}
            | OTHER_STATUS =>
                {| w_rollTs := w_rollTs st;
                   w_failTs := Append (w_failTs st) (sr_vbno val) (sr_seqno val)
                                 (sr_vbuuid val) 0 0;
                   w_actTs := w_actTs st;
                   w_vbnos := RemoveUint16 (sr_vbno val) (w_vbnos st);
                   w_err := Some ErrorStreamRequest |}
            end) as Hprog.
  { destruct (sr_status val); (split; [|split]);
      cbn [w_vbnos w_actTs w_rollTs w_failTs w_err];
      rewrite ?GetVbnos_Append;
      try (intros x Hx; rewrite ?elem_of_app, ?list_elem_of_singleton;
           destruct (Hrem x Hx) as [?|[?|[?|[?|?]]]]; by auto 10);
      try done; try (by auto);
      split; try done; by intros ?%snoc_not_nil. }
  case_bool_decide as Hlen; intros [= <- <-]; (split; [exact Hprog|]).
  - intros _. apply nil_length_inv in Hlen. by destruct (sr_status val).
  - done.
Qed.

Lemma request_loop_progress opaque bucketn ts expected :
  ∀ patience ch st msgs err ch' st' msgs',
    waitOnFeedback_loop (streamRequestCallb opaque bucketn ts) patience ch st msgs
      = (err, ch', st', msgs') →
    request_progress expected st →
    request_progress expected st'
    ∧ (err = None → w_vbnos st' = [])
    ∧ (err = None ∨ err = Some ErrorResponseTimeout).
Proof.
  induction patience as [|n IH]; intros ch st msgs err ch' st' msgs' Hloop Hprog.
  { cbn [waitOnFeedback_loop] in Hloop. injection Hloop as <- <- <- <-.
    split; [done|]. split; [done|by right]. }
  destruct ch as [|msg ch].
  { cbn [waitOnFeedback_loop] in Hloop. injection Hloop as <- <- <- <-.
    split; [done|]. split; [done|by right]. }
  cbn [waitOnFeedback_loop] in Hloop.
  destruct (streamRequestCallb opaque bucketn ts st (msg0 msg)) as [verdict st1] eqn:Hcall.
  destruct (streamRequestCallb_progress _ _ _ expected _ _ _ _ Hcall Hprog) as [Hprog1 Hdone].
  destruct (String.eqb verdict "skip"); [by eapply IH|].
  destruct (String.eqb verdict "done") eqn:Hv; [|by eapply IH].
  apply String.eqb_eq in Hv. injection Hloop as <- <- <- <-.
  split; [done|]. split; [by auto|by left].
Qed.

(** X22. [waitStreamRequests] answers nil only when every partition of
    the timestamp is in the active or in the rollback result and none has
    failed; the failed result is non-empty exactly when the answer is
    [ErrorNotMyVbucket] or [ErrorStreamRequest], which thus take
    precedence over [ErrorResponseTimeout]; no other error is
    answered. *)
Theorem waitStreamRequests_report (opaque : Z) (pooln bucketn : string)
    (ts : option TsVbuuid) (o : BucketOracle) (feed : Feed) :
  let '(r, f, a, e, _) := waitStreamRequests opaque pooln bucketn ts o feed in
  (e = None →
     ∀ x, x ∈ Vbno32to16 (GetVbnos ts) → x ∈ GetVbnos (Some a) ∨ x ∈ GetVbnos (Some r))
  ∧ (GetVbnos (Some f) ≠ [] ↔ e = Some ErrorNotMyVbucket ∨ e = Some ErrorStreamRequest)
  ∧ (e = None ∨ e = Some ErrorNotMyVbucket ∨ e = Some ErrorStreamRequest
     ∨ e = Some ErrorResponseTimeout).
Proof.
  unfold waitStreamRequests. case_bool_decide as Hlen.
  - apply nil_length_inv in Hlen. rewrite Hlen.
    split; [intros _ x Hx; by apply not_elem_of_nil in Hx|].
    split; [|by auto]. split; [done|]. by intros [?|?].
  - unfold waitOnFeedback.
    destruct (waitOnFeedback_loop _ _ _ _ _) as [[[err1 ch'] st'] msgs'] eqn:Hloop.
    apply (request_loop_progress _ _ _ (Vbno32to16 (GetVbnos ts))) in Hloop
      as ((Hexp & Herr & Hkind) & Hdone & Htime).
    2:{ split; [by auto|]. split; [done|by auto]. }
    split; [|split].
    + intros He x Hx.
      destruct (w_err st') eqn:Hw; [done|]. subst err1.
      destruct (Hexp x Hx) as [H|[?|[?|H]]]; auto.
      * rewrite (Hdone eq_refl) in H. by apply not_elem_of_nil in H.
      * rewrite (proj1 Herr eq_refl) in H. by apply not_elem_of_nil in H.
    + split.
      * intros Hf. destruct (w_err st') eqn:Hw.
        -- destruct Hkind as [?|[?|?]]; [done|by left|by right].
        -- exfalso. by apply Hf, Herr.
      * intros He Hf. apply Herr in Hf. rewrite Hf in He.
        destruct Htime as [->| ->]; by destruct He.
    + destruct (w_err st') eqn:Hw.
      * destruct Hkind as [?|[?|?]]; [done|by auto|by auto].
      * destruct Htime as [->| ->]; by auto.
Qed.

Lemma streamEndCallb_progress opaque bucketn ts expected st m verdict st' :
  streamEndCallb opaque bucketn ts st m = (verdict, st') →
  end_progress expected st →
  end_progress expected st' ∧ (verdict = "done" → x_vbnos st' = []).
Proof.
  unfold streamEndCallb. intros Hcall Hprog0.
  pose proof Hprog0 as (Hexp & Herr & Hkind). revert Hcall.
  destruct m as [|val| |]; try (intros [= <- <-]; by split).
  destruct (_ && _ && _); [|intros [= <- <-]; by split].
  assert (∀ x, x ∈ expected →
            x ∈ RemoveUint16 (se_vbno val) (x_vbnos st) ∨ x = se_vbno val
            ∨ x ∈ GetVbnos (Some (x_endTs st))
            ∨ x ∈ GetVbnos (Some (x_failTs st))) as Hrem.
  { intros x Hx. destruct (decide (x = se_vbno val)); [by auto|].
    destruct (Hexp x Hx) as [?|[?|?]]; auto using elem_of_RemoveUint16. }
  assert (end_progress expected
            match se_status val with
            | SUCCESS =>
                {| x_endTs := Append (x_endTs st) (se_vbno val) 0 0 0 0;
                   x_failTs := x_failTs st;
                   x_vbnos := RemoveUint16 (se_vbno val) (x_vbnos st); x_err := x_err st |}
            | NOT_MY_VBUCKET =>
                {| x_endTs := x_endTs st;
                   x_failTs := Append (x_failTs st) (se_vbno val) 0 0 0 0;
                   x_vbnos := RemoveUint16 (se_vbno val) (x_vbnos st);
                   x_err := Some ErrorNotMyVbucket |}
            | _ =>
                {| x_endTs := x_endTs st;
                   x_failTs := Append (x_failTs st) (se_vbno val) 0 0 0 0;
                   x_vbnos := RemoveUint16 (se_vbno val) (x_vbnos st);
                   x_err := Some ErrorStreamEnd |}
            end) as Hprog.
  { destruct (se_status val); (split; [|split]);
      cbn [x_vbnos x_endTs x_failTs x_err];
      rewrite ?GetVbnos_Append;
      try (intros x Hx; rewrite ?elem_of_app, ?list_elem_of_singleton;
           destruct (Hrem x Hx) as [?|[?|[?|?]]]; by auto 10);
      try done; try (by auto);
      split; try done; by intros ?%snoc_not_nil. }
  case_bool_decide as Hlen; intros [= <- <-]; (split; [exact Hprog|]).
  - intros _. apply nil_length_inv in Hlen. by destruct (se_status val).
  - done.
Qed.

Lemma end_loop_progress opaque bucketn ts expected :
  ∀ patience ch st msgs err ch' st' msgs',
    waitOnFeedback_loop (streamEndCallb opaque bucketn ts) patience ch st msgs
      = (err, ch', st', msgs') →
    end_progress expected st →
    end_progress expected st'
    ∧ (err = None → x_vbnos st' = [])
    ∧ (err = None ∨ err = Some ErrorResponseTimeout).
Proof.
  induction patience as [|n IH]; intros ch st msgs err ch' st' msgs' Hloop Hprog.
  { cbn [waitOnFeedback_loop] in Hloop. injection Hloop as <- <- <- <-.
    split; [done|]. split; [done|by right]. }
  destruct ch as [|msg ch].
  { cbn [waitOnFeedback_loop] in Hloop. injection Hloop as <- <- <- <-.
    split; [done|]. split; [done|by right]. }
  cbn [waitOnFeedback_loop] in Hloop.
  destruct (streamEndCallb opaque bucketn ts st (msg0 msg)) as [verdict st1] eqn:Hcall.
  destruct (streamEndCallb_progress _ _ _ expected _ _ _ _ Hcall Hprog) as [Hprog1 Hdone].
  destruct (String.eqb verdict "skip"); [by eapply IH|].
  destruct (String.eqb verdict "done") eqn:Hv; [|by eapply IH].
  apply String.eqb_eq in Hv. injection Hloop as <- <- <- <-.
  split; [done|]. split; [by auto|by left].
Qed.

(** X23. [waitStreamEnds] answers nil only when every partition of the
    timestamp is in the ended result and none has failed; the failed
    result is non-empty exactly when the answer is [ErrorNotMyVbucket] or
    [ErrorStreamEnd]; no error other than these and
    [ErrorResponseTimeout] is answered. *)
Theorem waitStreamEnds_report (opaque : Z) (bucketn : string)
    (ts : option TsVbuuid) (o : BucketOracle) (feed : Feed) :
  let '(endTs, f, e, _) := waitStreamEnds opaque bucketn ts o feed in
  (e = None → ∀ x, x ∈ Vbno32to16 (GetVbnos ts) → x ∈ GetVbnos (Some endTs))
  ∧ (GetVbnos (Some f) ≠ [] ↔ e = Some ErrorNotMyVbucket ∨ e = Some ErrorStreamEnd)
  ∧ (e = None ∨ e = Some ErrorNotMyVbucket ∨ e = Some ErrorStreamEnd
     ∨ e = Some ErrorResponseTimeout).
Proof.
  unfold waitStreamEnds. case_bool_decide as Hlen.
  - apply nil_length_inv in Hlen. rewrite Hlen.
    split; [intros _ x Hx; by apply not_elem_of_nil in Hx|].
    split; [|by auto]. split; [done|]. by intros [?|?].
  - unfold waitOnFeedback.
    destruct (waitOnFeedback_loop _ _ _ _ _) as [[[err1 ch'] st'] msgs'] eqn:Hloop.
    apply (end_loop_progress _ _ _ (Vbno32to16 (GetVbnos ts))) in Hloop
      as ((Hexp & Herr & Hkind) & Hdone & Htime).
    2:{ split; [by auto|]. split; [done|by auto]. }
    split; [|split].
    + intros He x Hx.
      destruct (x_err st') eqn:Hw; [done|]. subst err1.
      destruct (Hexp x Hx) as [H|[?|H]]; auto.
      * rewrite (Hdone eq_refl) in H. by apply not_elem_of_nil in H.
      * rewrite (proj1 Herr eq_refl) in H. by apply not_elem_of_nil in H.
    + split.
      * intros Hf. destruct (x_err st') eqn:Hw.
        -- destruct Hkind as [?|[?|?]]; [done|by left|by right].
        -- exfalso. by apply Hf, Herr.
      * intros He Hf. apply Herr in Hf. rewrite Hf in He.
        destruct Htime as [->| ->]; by destruct He.
    + destruct (x_err st') eqn:Hw.
      * destruct Hkind as [?|[?|?]]; [done|by auto|by auto].
      * destruct Htime as [->| ->]; by auto.
Qed.

(** ** The messages that the reconciler sets aside *)

Lemma waitOnFeedback_loop_run {S : Type} (callb : S → iface → string * S) :
  ∀ patience ch st msgs err ch' st' msgs',
    waitOnFeedback_loop callb patience ch st msgs = (err, ch', st', msgs') →
    ∃ taken,
      let verdicts := (answers callb st taken).1 in
      ch = taken ++ ch' ∧ length taken ≤ patience
      ∧ st' = (answers callb st taken).2
      ∧ msgs' = msgs ++ skipped_of taken verdicts
      ∧ ((err = None ∧ ∃ before, verdicts = before ++ ["done"] ∧ "done" ∉ before)
         ∨ (err = Some ErrorResponseTimeout ∧ "done" ∉ verdicts
            ∧ (length taken = patience ∨ ch' = []))).
Proof.
  induction patience as [|n IH]; intros ch st msgs err ch' st' msgs' Hloop.
  { cbn [waitOnFeedback_loop] in Hloop. injection Hloop as <- <- <- <-.
    exists []. cbn. rewrite app_nil_r. split_and!; try done.
    right. split_and!; [done|apply not_elem_of_nil|by left]. }
  destruct ch as [|msg ch].
  { cbn [waitOnFeedback_loop] in Hloop. injection Hloop as <- <- <- <-.
    exists []. cbn. rewrite app_nil_r. split_and!; [done|lia|done|done|].
    right. split_and!; [done|apply not_elem_of_nil|by right]. }
  cbn [waitOnFeedback_loop] in Hloop.
  destruct (callb st (msg0 msg)) as [verdict st1] eqn:Hcall.
  destruct (String.eqb verdict "skip") eqn:Hskip.
  { apply String.eqb_eq in Hskip. subst verdict.
    apply IH in Hloop as (taken & -> & Hlen & -> & -> & Herr).
    exists (msg :: taken). cbn [answers]. rewrite Hcall.
    destruct (answers callb st1 taken) as [verdicts st2] eqn:Hans. cbn [fst snd] in *.
    split_and!; [done|simpl; lia|done| |].
    - unfold skipped_of. cbn [zip zip_with]. rewrite filter_cons_True by done.
      by rewrite <- app_assoc.
    - destruct Herr as [(-> & before & -> & Hnot)|(-> & Hnot & Hmax)].
      + left. split; [done|]. exists ("skip" :: before). split; [done|].
        by intros [?|?]%elem_of_cons.
      + right. split_and!; [done|by intros [?|?]%elem_of_cons|].
        destruct Hmax as [<-|?]; [by left|by right]. }
  destruct (String.eqb verdict "done") eqn:Hdone.
  { apply String.eqb_eq in Hdone. subst verdict. injection Hloop as <- <- <- <-.
    exists [msg]. cbn [answers]. rewrite Hcall. cbn [fst snd].
    split_and!; [done|simpl; lia|done| |].
    - unfold skipped_of. cbn [zip zip_with]. rewrite filter_cons_False by done.
      by rewrite app_nil_r.
    - left. split; [done|]. exists []. split; [done|apply not_elem_of_nil]. }
  apply String.eqb_neq in Hskip, Hdone.
  apply IH in Hloop as (taken & -> & Hlen & -> & -> & Herr).
  exists (msg :: taken). cbn [answers]. rewrite Hcall.
  destruct (answers callb st1 taken) as [verdicts st2] eqn:Hans. cbn [fst snd] in *.
  split_and!; [done|simpl; lia|done| |].
  - unfold skipped_of. cbn [zip zip_with]. by rewrite filter_cons_False by done.
  - destruct Herr as [(-> & before & -> & Hnot)|(-> & Hnot & Hmax)].
    + left. split; [done|]. exists (verdict :: before). split; [done|].
      by intros [?|?]%elem_of_cons.
    + right. split_and!; [done|by intros [?|?]%elem_of_cons|].
      destruct Hmax as [<-|?]; [by left|by right].
Qed.

Lemma length_skipped_of (msgs : list message) (verdicts : list string) :
  length (skipped_of msgs verdicts) ≤ length msgs.
Proof.
  unfold skipped_of. rewrite length_fmap.
  etrans; [apply length_filter|]. rewrite length_zip. lia.
Qed.

(** X24. [waitOnFeedback], for any callback.  It takes messages from the
    head of the back channel, in order and at most as many as its timer
    allows, and gives each to the callback, which keeps its state from
    one message to the next.  It stops at the first message that the
    callback answers with "done", and then answers nil; otherwise it
    takes all that the timer or the channel allows and answers
    [ErrorResponseTimeout].  The messages not taken stay at the head of
    the channel; behind them it puts back exactly the messages that the
    callback answered with "skip", in the order they were taken, each
    wrapped in a slice of one.  Nothing else changes in the feed.  The
    channel of the model has no capacity, and nothing else posts to it
    during the call; the channel holds no more messages after the call
    than before, so that, as long as no other producer fills it
    meanwhile, the refill needs no room that the messages taken did not
    free. *)
Theorem waitOnFeedback_conserves {S : Type} (callb : S → iface → string * S)
    (patience : nat) (st : S) (feed : Feed) :
  let '(err, st', feed') := waitOnFeedback callb patience st feed in
  ∃ taken rest,
    let verdicts := (answers callb st taken).1 in
    backch feed = taken ++ rest ∧ length taken ≤ patience
    ∧ st' = (answers callb st taken).2
    ∧ feed' = set_backch
                (rest ++ ((λ msg, singleton_msg (to_iface msg))
                            <$> skipped_of taken verdicts)) feed
    ∧ ((err = None ∧ ∃ before, verdicts = before ++ ["done"] ∧ "done" ∉ before)
       ∨ (err = Some ErrorResponseTimeout ∧ "done" ∉ verdicts
          ∧ (length taken = patience ∨ rest = [])))
    ∧ length (backch feed') ≤ length (backch feed).
Proof.
  unfold waitOnFeedback.
  destruct (waitOnFeedback_loop callb patience (backch feed) st [])
    as [[[err ch'] st'] msgs'] eqn:Hloop.
  apply waitOnFeedback_loop_run in Hloop as (taken & Hch & Hlen & -> & -> & Herr).
  exists taken, ch'. cbv zeta. rewrite app_nil_l.
  split_and!; try done.
  cbn [backch set_backch]. rewrite Hch, !length_app, length_fmap.
  pose proof (length_skipped_of taken (answers callb st taken).1). lia.
Qed.

(** ** A stream end that reaches the actor *)

Lemma filter_not_singleton (l : list Entry) (vbno : Z) :
  filter (λ e, e_vbno e ∉ [vbno]) l = filter (λ e, e_vbno e ≠ vbno) l.
Proof.
  induction l as [|e l IH]; [done|].
  destruct (decide (e_vbno e = vbno)) as [Heq|Hne].
  - rewrite !filter_cons_False; [done|by intros ?|].
    intros Hn. apply Hn. by apply list_elem_of_singleton.
  - rewrite !filter_cons_True; [by rewrite IH|done|].
    by intros ?%list_elem_of_singleton.
Qed.

Lemma insert_stream_ended (m : gmap string (option TsVbuuid)) (b : string) (vbno : Z) :
  stream_ended b vbno m (<[b := FilterByVbuckets (map_index None m b).1 [vbno]]> m).
Proof.
  split.
  - rewrite lookup_insert_eq. unfold map_index.
    destruct (m !! b) as [[t|]|]; cbn [fst FilterByVbuckets fmap option_fmap option_map];
      [|done|done].
    by rewrite filter_not_singleton.
  - intros b' Hne. by rewrite lookup_insert_ne.
Qed.

(** X25. A stream-end message that the actor receives between commands,
    whatever status it carries: the outstanding, the active and the
    rollback timestamp of its bucket lose the entries of its partition
    and keep their other entries with their data; the other buckets keep
    their timestamps.  A bucket that the feed does not know is in the
    three maps afterwards, with nil timestamps.  The upstreams, the data
    paths, the engines, the endpoints and the rest of the back channel
    are as they were, and no collaborator is called. *)
Theorem flush_of_stream_end (msg : message) (v : controlStreamEnd) (feed : Feed) :
  msg0 msg = IStreamEnd v →
  ∃ feed',
    handleBackch msg feed = Flushed feed'
    ∧ stream_ended (se_bucket v) (se_vbno v) (reqTss feed) (reqTss feed')
    ∧ stream_ended (se_bucket v) (se_vbno v) (actTss feed) (actTss feed')
    ∧ stream_ended (se_bucket v) (se_vbno v) (rollTss feed) (rollTss feed')
    ∧ (feeders feed', kvdata feed', engines feed', endpoints feed', backch feed', trace feed')
      = (feeders feed, kvdata feed, engines feed, endpoints feed, backch feed, trace feed).
Proof.
  intros Hmsg. unfold handleBackch. rewrite Hmsg.
  eexists. split; [reflexivity|].
  cbn [reqTss actTss rollTss feeders kvdata engines endpoints backch trace
       set_reqTss set_actTss set_rollTss].
  split_and!; first [done | apply insert_stream_ended].
Qed.

(** ** What Start and RestartVbuckets ask of the upstream *)

Lemma bucketFeed_asks opaque stop start_ reqTs o feed :
  ∃ new, (bucketFeed opaque stop start_ reqTs o feed).2
           = set_trace (trace feed ++ new) feed
         ∧ Forall (λ ev, match ev with
                         | EvStartVbStreams _ opq ts' =>
                             stop = false ∧ opq = opaque ∧ ts' = reqTs
                         | EvEndVbStreams _ opq ts' =>
                             stop = true ∧ opq = opaque ∧ ts' = reqTs
                         | EvOpenBucketFeed _ _ => True
                         | _ => False
                         end) new.
Proof.
  unfold bucketFeed.
  assert (feed = set_trace (trace feed ++ []) feed) as Hid.
  { destruct feed. unfold set_trace. simpl. by rewrite app_nil_r. }
  destruct (o_details_ok o); simpl; [|by exists []].
  destruct (feeders feed !! GetBucket reqTs) as [feeder|].
  - destruct stop; [|destruct start_]; destruct (o_stream_ok o); simpl;
      try (by exists []);
      (eexists [_]; split; [reflexivity|]; by repeat constructor).
  - destruct (o_open o); simpl; try (by exists []).
    destruct stop; [|destruct start_]; destruct (o_stream_ok o); simpl;
      unfold emit; simpl; rewrite <- ?app_assoc; simpl;
      (eexists; split; [reflexivity|]; by repeat constructor).
Qed.

Lemma waitStreamRequests_trace opaque pooln bucketn ts o feed :
  ∃ bc new, (waitStreamRequests opaque pooln bucketn ts o feed).2
              = set_backch bc (set_trace (trace feed ++ new) feed)
            ∧ (new = [] ∨ new = [EvTimeAfter (reqTimeout feed)]).
Proof.
  unfold waitStreamRequests.
  case_bool_decide.
  - exists (backch feed), []. rewrite set_trace_backch_id. by auto.
  - match goal with
    | |- context [waitOnFeedback ?c ?p ?s ?f] =>
        destruct (waitOnFeedback_frame c p s f) as [bc Hbc];
        destruct (waitOnFeedback c p s f) as [[err1 st'] feed'] eqn:Hw
    end.
    simpl in Hbc. subst feed'. simpl.
    exists bc, [EvTimeAfter (reqTimeout feed)]. by auto.
Qed.

Lemma cleanupBucket_only_closes opaque feed0 o ts b enginesOk new0 :
  Forall (requests_only_fresh opaque feed0 o ts) new0 →
  ∀ feed, trace feed = trace feed0 ++ new0 →
  ∃ new, trace (cleanupBucket b enginesOk feed) = trace feed0 ++ new
         ∧ Forall (requests_only_fresh opaque feed0 o ts) new.
Proof.
  intros Hnew0 feed Ht.
  destruct (cleanupBucket_maps b enginesOk feed) as (_ & _ & _ & _ & _ & _ & _ & _ & Ht').
  cbv zeta in Ht'. rewrite Ht', Ht, <- app_assoc.
  eexists. split; [reflexivity|].
  apply Forall_app. split; [done|].
  apply Forall_app. split.
  - destruct (feeders feed !! b); simpl; by repeat constructor.
  - destruct (kvdata feed !! b); simpl; by repeat constructor.
Qed.

Lemma bucketFeed_fresh opaque feed o ts vbnos32 ts3 new1 :
  o_vbnos32 o = Some vbnos32 →
  GetBucket ts3 = Bucket ts →
  (∀ x, x ∈ GetVbnos ts3 →
        x ∈ GetVbnos (SelectByVbuckets (Some ts) (Vbno32to16 vbnos32))
        ∧ x ∉ partitions (actTss feed) (Bucket ts)
        ∧ x ∉ partitions (reqTss feed) (Bucket ts)) →
  Forall (λ ev, match ev with
                | EvStartVbStreams _ opq ts' => false = false ∧ opq = opaque ∧ ts' = ts3
                | EvEndVbStreams _ opq ts' => false = true ∧ opq = opaque ∧ ts' = ts3
                | EvOpenBucketFeed _ _ => True
                | _ => False
                end) new1 →
  Forall (requests_only_fresh opaque feed o ts) new1.
Proof.
  intros Hvb Hbk Hfresh Hall. eapply Forall_impl; [exact Hall|].
  intros [| |fd opq ts'| | | | | | | | | | | |]; simpl; try done.
  - intros (_ & -> & ->). split; [done|]. split; [done|].
    unfold local_partitions, getLocalVbuckets. rewrite Hvb. exact Hfresh.
  - by intros (? & _).
Qed.

Lemma startBucket_asks opaque env i feed err ts :
  ∃ new, trace (startBucket opaque env i (feed, err) ts).1 = trace feed ++ new
         ∧ Forall (requests_only_fresh opaque feed (env_bucket env i) ts) new.
Proof.
  unfold startBucket, getLocalVbuckets.
  destruct (o_vbnos32 (env_bucket env i)) as [vbnos32|] eqn:Hvb.
  2:{ cbn [fst]. apply (cleanupBucket_only_closes _ _ _ _ _ _ []); [done|].
      by rewrite app_nil_r. }
  destruct (map_index None (actTss feed) (Bucket ts)) as [actTs ok1] eqn:Hact.
  destruct (map_index None (rollTss feed) (Bucket ts)) as [rollTs ok2] eqn:Hroll.
  destruct (map_index None (reqTss feed) (Bucket ts)) as [reqTs ok3] eqn:Hreq.
  destruct (fresh_timestamp feed ts vbnos32 actTs rollTs reqTs ok1 ok3 Hact Hreq)
    as [Hbk Hfresh].
  match goal with
  | |- context [bucketFeed ?a ?b ?c ?d ?e ?f] =>
      destruct (bucketFeed_asks a b c d e f) as (new1 & Hf1 & Hasks);
      destruct (bucketFeed a b c d e f) as [[[fd e1]|feeder] feed1]
  end; simpl in Hf1; subst feed1;
    apply (bucketFeed_fresh _ feed _ ts vbnos32 _ _ Hvb Hbk Hfresh) in Hasks.
  { cbn [fst]. by apply (cleanupBucket_only_closes _ _ _ _ _ _ new1). }
  destruct (startDataPath (Bucket ts) feeder _ _) as [kv feed2] eqn:Hdp.
  assert (∃ ev, trace feed2 = trace feed ++ new1 ++ [ev]
                ∧ requests_only_fresh opaque feed (env_bucket env i) ts ev)
    as (ev & Ht2 & Hev).
  { unfold startDataPath in Hdp.
    destruct (kvdata _ !! _); injection Hdp as <- <-; eexists;
      (split; [cbn [trace emit set_trace set_feeders]; by rewrite <- app_assoc|done]). }
  match goal with
  | |- context [waitStreamRequests ?a ?b ?c ?d ?e ?f] =>
      destruct (waitStreamRequests_trace a b c d e f) as (bc & new & Hw & Hnew);
      destruct (waitStreamRequests a b c d e f) as [[[[r f'] a'] e'] feed']
  end.
  cbn [snd] in Hw. subst feed'.
  cbn [fst trace set_reqTss set_actTss set_rollTss set_backch set_trace set_kvdata].
  rewrite Ht2, <- !app_assoc. eexists. split; [reflexivity|].
  apply Forall_app. split; [done|]. apply Forall_cons. split; [done|].
  destruct Hnew as [-> | ->]; by repeat constructor.
Qed.

Lemma restartBucket_asks opaque env i feed err ts :
  ∃ new, trace (restartBucket opaque env i (feed, err) ts).1 = trace feed ++ new
         ∧ Forall (requests_only_fresh opaque feed (env_bucket env i) ts) new.
Proof.
  unfold restartBucket, getLocalVbuckets.
  destruct (o_vbnos32 (env_bucket env i)) as [vbnos32|] eqn:Hvb.
  2:{ cbn [fst]. apply (cleanupBucket_only_closes _ _ _ _ _ _ []); [done|].
      by rewrite app_nil_r. }
  destruct (map_index None (actTss feed) (Bucket ts)) as [actTs ok1] eqn:Hact.
  destruct (map_index None (rollTss feed) (Bucket ts)) as [rollTs ok2] eqn:Hroll.
  destruct (map_index None (reqTss feed) (Bucket ts)) as [reqTs ok3] eqn:Hreq.
  destruct (fresh_timestamp feed ts vbnos32 actTs rollTs reqTs ok1 ok3 Hact Hreq)
    as [Hbk Hfresh].
  match goal with
  | |- context [bucketFeed _ _ _ _ _ ?fu] => set (feedU := fu)
  end.
  assert (∃ new0, trace feedU = trace feed ++ new0
                  ∧ Forall (requests_only_fresh opaque feed (env_bucket env i) ts) new0)
    as (new0 & HtU & Hnew0).
  { subst feedU. destruct (kvdata feed !! Bucket ts).
    - eexists [_]. split; [reflexivity|]. by repeat constructor.
    - exists []. by rewrite app_nil_r. }
  clearbody feedU.
  match goal with
  | |- context [bucketFeed ?a ?b ?c ?d ?e ?f] =>
      destruct (bucketFeed_asks a b c d e f) as (new1 & Hf1 & Hasks);
      destruct (bucketFeed a b c d e f) as [[[fd e1]|feeder] feed1]
  end; simpl in Hf1; subst feed1;
    apply (bucketFeed_fresh _ feed _ ts vbnos32 _ _ Hvb Hbk Hfresh) in Hasks.
  { cbn [fst]. apply (cleanupBucket_only_closes _ _ _ _ _ _ (new0 ++ new1)).
    - by apply Forall_app.
    - cbn [trace set_trace]. by rewrite HtU, <- app_assoc. }
  match goal with
  | |- context [waitStreamRequests _ _ _ _ _ ?fw] => set (feedW := fw)
  end.
  assert (∃ new2, trace feedW = trace feed ++ new2
                  ∧ Forall (requests_only_fresh opaque feed (env_bucket env i) ts) new2)
    as (new2 & HtW & Hnew2).
  { subst feedW. cbn [kvdata set_feeders set_trace].
    destruct (kvdata feedU !! Bucket ts) as [kv|] eqn:Hkv.
    - exists (new0 ++ new1). cbn [trace set_feeders set_trace].
      rewrite HtU, <- app_assoc. split; [done|]. by apply Forall_app.
    - unfold startDataPath. cbn [kvdata set_feeders set_trace]. rewrite Hkv.
      eexists (new0 ++ new1 ++ [_]).
      cbn [trace set_feeders set_trace set_kvdata emit].
      rewrite HtU, <- !app_assoc. split; [done|].
      apply Forall_app. split; [done|]. apply Forall_app. split; [done|].
      by repeat constructor. }
  clearbody feedW.
  match goal with
  | |- context [waitStreamRequests ?a ?b ?c ?d ?e ?f] =>
      destruct (waitStreamRequests_trace a b c d e f) as (bc & new & Hw & Hnew);
      destruct (waitStreamRequests a b c d e f) as [[[[r f'] a'] e'] feed']
  end.
  cbn [snd] in Hw. subst feed'.
  cbn [fst trace set_reqTss set_actTss set_rollTss set_backch set_trace].
  rewrite HtW, <- !app_assoc. eexists. split; [reflexivity|].
  apply Forall_app. split; [done|].
  destruct Hnew as [-> | ->]; by repeat constructor.
Qed.

(** X26. One bucket of Start and of RestartVbuckets ends no stream, and
    each stream request that it sends carries the opaque of the command
    and partitions that the node owns, that the request lists, and that
    are neither active nor outstanding in the feed when the bucket is
    taken up. *)
Theorem requests_carry_fresh_partitions (opaque : Z) (env : Env) (i : nat)
    (feed : Feed) (err : option Error) (ts : TsVbuuid) :
  (∃ new, trace (startBucket opaque env i (feed, err) ts).1 = trace feed ++ new
          ∧ Forall (requests_only_fresh opaque feed (env_bucket env i) ts) new)
  ∧ (∃ new, trace (restartBucket opaque env i (feed, err) ts).1 = trace feed ++ new
            ∧ Forall (requests_only_fresh opaque feed (env_bucket env i) ts) new).
Proof. split; [apply startBucket_asks|apply restartBucket_asks]. Qed.

(** ** Instances of the statements above, continued *)

Lemma processSubscribers_installs_witness :
  subscribers Sample.subs = inr (Sample.evaluators, Sample.routers)
  ∧ engine_at (processSubscribers Scenario.net_ok Sample.subs Scenario.fresh).2 "b" 17
    = Some (NewEngine 17 {| ev_bucket := "b" |}
              (Some {| rt_endpoints := ["localhost:9998"] |})).
Proof.
  assert (subscribers Sample.subs = inr (Sample.evaluators, Sample.routers)) as Hsub
    by (vm_compute; reflexivity).
  split; [exact Hsub|].
  destruct (processSubscribers_installs Scenario.net_ok Sample.subs Scenario.fresh
              Sample.evaluators Sample.routers Hsub) as (_ & Hat & _).
  rewrite Hat. vm_compute. reflexivity.
Defined.

Lemma repairEndpoints_registers_witness :
  reliable Scenario.net_ok
  ∧ "localhost:9998" ∈ re_Endpoints Sample.repair_req
  ∧ is_Some (endpoints (repairEndpoints Scenario.net_ok Sample.repair_req Scenario.fresh).2
               !! "localhost:9998").
Proof.
  assert (reliable Scenario.net_ok) as Hnet by (split; intros; eexists; reflexivity).
  assert ("localhost:9998" ∈ re_Endpoints Sample.repair_req) as Hin by (by left).
  split; [exact Hnet|]. split; [exact Hin|].
  exact (repairEndpoints_registers Scenario.net_ok Sample.repair_req Scenario.fresh Hnet
           "localhost:9998" Hin).
Defined.

Lemma repairEndpoints_reuses_live_witness :
  endpoints Sample.repaired = {[ "localhost:9998" := {| ep_id := 1 |} ]}
  ∧ endpoints (repairEndpoints Scenario.net_ok Sample.repair_req Sample.repaired).2
    = endpoints Sample.repaired.
Proof.
  split; [vm_compute; reflexivity|].
  apply (repairEndpoints_reuses_live Scenario.net_ok Sample.repair_req Sample.repaired).
  intros raddr Hin. apply list_elem_of_singleton in Hin. subst raddr.
  split; [reflexivity|]. exists {| ep_id := 1 |}. split; vm_compute; reflexivity.
Defined.

Lemma addInstances_installs_witness :
  subscribers Sample.subs = inr (Sample.evaluators, Sample.routers)
  ∧ engines (addInstances (Scenario.env Scenario.net_ok (Scenario.oracle []))
               {| ai_Subscriber := Sample.subs |} Scenario.fresh).2
    = engines (processSubscribers Scenario.net_ok Sample.subs Scenario.fresh).2.
Proof.
  assert (subscribers Sample.subs = inr (Sample.evaluators, Sample.routers)) as Hsub
    by (vm_compute; reflexivity).
  split; [exact Hsub|].
  exact (proj1 (addInstances_installs (Scenario.env Scenario.net_ok (Scenario.oracle []))
                  {| ai_Subscriber := Sample.subs |} Scenario.fresh
                  Sample.evaluators Sample.routers Hsub)).
Defined.

Lemma flush_of_stream_end_witness :
  msg0 (Scenario.stream_end SUCCESS 1)
    = IStreamEnd {| se_bucket := "b"; se_opaque := 3; se_status := SUCCESS; se_vbno := 1 |}
  ∧ partitions (actTss Scenario.active1) "b" = [1%Z]
  ∧ ∃ feed', handleBackch (Scenario.stream_end SUCCESS 1) Scenario.active1 = Flushed feed'
             ∧ actTss feed' !! "b" = Some (Some (NewTsVbuuid "default" "b" 0)).
Proof.
  split; [reflexivity|]. split; [vm_compute; reflexivity|].
  destruct (flush_of_stream_end (Scenario.stream_end SUCCESS 1)
              {| se_bucket := "b"; se_opaque := 3; se_status := SUCCESS; se_vbno := 1 |}
              Scenario.active1 eq_refl) as (feed' & Hflush & _ & [Hact _] & _).
  exists feed'. split; [exact Hflush|].
  cbn [se_bucket se_vbno] in Hact. rewrite Hact. vm_compute. reflexivity.
Defined.
